(** * SharpCoreDB binary row codec

    A shallow embedding of [docs/scripts/visualize_serialization.py]
    (the Python rendition of SharpCoreDB's [BinaryRowSerializer]) and of the
    bounds-checked reader that [fix_bounds_checking.py] / [fix_bounds_v3.py]
    patch into [DatabaseExtensions.cs]; and of the patch scripts
    [fix_bounds_v2.py] and [fix_bounds_v3.py] themselves, as functions on
    the list of lines of the file they edit.

    Bytes are [Init.Byte.byte]; multi-byte integers are laid out with
    coqutil's [le_split] / [le_combine]; Python [int] is [Z]; Python [str]
    is a list of Unicode code points; a [dict] is an association list in
    insertion order, which is the order [row.items()] iterates in. *)

From Stdlib Require Import ZArith List Lia Bool String Ascii DecimalString.
From coqutil Require Import Byte Word.LittleEndianList.
From Equations Require Import Equations.
From Equations.Prop Require Import Logic.
Import ListNotations.
Local Open Scope Z_scope.

Set Default Goal Selector "!".

(** The two outcomes of a test scrutinised with Equations' [inspect]: the
    boolean together with the proof that the test evaluates to it. *)
Abbreviation yes := (exist _ true _) (only parsing).
Abbreviation no := (exist _ false _) (only parsing).

(** ** Python results: a value or a raised exception *)

Inductive pyexn : Type :=
| UnicodeEncodeError   (* str.encode('utf-8') on a lone surrogate *)
| StructError.         (* struct.pack on an out-of-range integer *)

Inductive pyresult (A : Type) : Type :=
| Ret (a : A)
| Raise (e : pyexn).
Arguments Ret {A} a.
Arguments Raise {A} e.

Definition pybind {A B} (m : pyresult A) (k : A -> pyresult B) : pyresult B :=
  match m with
  | Ret a => k a
  | Raise e => Raise e
  end.

Declare Scope py_scope.
Delimit Scope py_scope with py.
Notation "x <- m ;; k" := (pybind m (fun x => k))
  (at level 61, m at next level, right associativity) : py_scope.
Notation "' pat <- m ;; k" := (pybind m (fun x => match x with pat => k end))
  (at level 61, pat pattern, m at next level, right associativity) : py_scope.
Local Open Scope py_scope.

(** [len(x)] of a Python sequence. *)
Definition len {A} (l : list A) : Z := Z.of_nat (List.length l).

(** ** [struct.pack] with the little-endian formats the serializer uses *)

Module Struct.

(** [struct.pack('<I', n)]: unsigned 32-bit; out of range raises. *)
Definition pack_I (n : Z) : pyresult (list byte) :=
  if (0 <=? n) && (n <=? 4294967295) then Ret (le_split 4 n)
  else Raise StructError.

(** [struct.pack('<i', n)]: signed 32-bit, two's complement. *)
Definition pack_i (n : Z) : pyresult (list byte) :=
  if (-2147483648 <=? n) && (n <=? 2147483647) then Ret (le_split 4 n)
  else Raise StructError.

(** [struct.pack('<q', n)]: signed 64-bit, two's complement. *)
Definition pack_q (n : Z) : pyresult (list byte) :=
  if (-9223372036854775808 <=? n) && (n <=? 9223372036854775807)
  then Ret (le_split 8 n)
  else Raise StructError.

(** [struct.pack('<d', x)]: the eight bytes of the IEEE-754 binary64
    pattern of [x].  A Python float is carried as that 64-bit pattern. *)
Definition pack_d (bits : Z) : list byte := le_split 8 bits.

End Struct.

(** ** Python [str] and its UTF-8 codec *)

(** A [str] is a sequence of code points. *)
Abbreviation pystr := (list Z).

Definition pystr_of_string (s : string) : pystr :=
  List.map (fun a => Z.of_N (N_of_ascii a)) (list_ascii_of_string s).

Module Utf8.

Definition is_surrogate (c : Z) : bool := (55296 <=? c) && (c <=? 57343).

(** The bytes of one code point; lone surrogates and values outside
    0..0x10FFFF are not encodable. *)
Definition encode_cp (c : Z) : pyresult (list byte) :=
  if c <? 0 then Raise UnicodeEncodeError
  else if c <? 128 then Ret [byte.of_Z c]
  else if c <? 2048 then
    Ret [byte.of_Z (192 + c / 64); byte.of_Z (128 + c mod 64)]
  else if c <? 65536 then
    if is_surrogate c then Raise UnicodeEncodeError
    else Ret [byte.of_Z (224 + c / 4096);
              byte.of_Z (128 + (c / 64) mod 64);
              byte.of_Z (128 + c mod 64)]
  else if c <? 1114112 then
    Ret [byte.of_Z (240 + c / 262144);
         byte.of_Z (128 + (c / 4096) mod 64);
         byte.of_Z (128 + (c / 64) mod 64);
         byte.of_Z (128 + c mod 64)]
  else Raise UnicodeEncodeError.

(** [s.encode('utf-8')] *)
Fixpoint encode (s : pystr) : pyresult (list byte) :=
  match s with
  | [] => Ret []
  | c :: rest =>
      b <- encode_cp c ;;
      bs <- encode rest ;;
      Ret (b ++ bs)
  end.

(** Number of UTF-8 bytes a code point takes. *)
Definition width (c : Z) : Z :=
  if c <? 128 then 1 else if c <? 2048 then 2
  else if c <? 65536 then 3 else 4.

(** UTF-8 byte length of a text. *)
Definition byte_length (s : pystr) : Z :=
  fold_right (fun c acc => width c + acc) 0 s.

(** A Unicode scalar value: a code point that is not a surrogate. *)
Definition is_scalar (c : Z) : bool :=
  (0 <=? c) && (c <? 1114112) && negb (is_surrogate c).

(** Modelled from the spec: UTF-8 decoding (see [decode] below).  Length of
    the sequence a lead byte announces; 0 for a byte that cannot start
    one. *)
Definition lead_class (x : Z) : nat :=
  if x <? 128 then 1
  else if x <? 192 then 0
  else if x <? 224 then 2
  else if x <? 240 then 3
  else if x <? 248 then 4
  else 0.

Definition is_cont (b : byte) : bool :=
  (128 <=? byte.unsigned b) && (byte.unsigned b <? 192).

Definition cont_bits (b : byte) : Z := byte.unsigned b - 128.

(** A decoded sequence is kept when it is the shortest form of a scalar
    value; anything else becomes U+FFFD. *)
Definition checked (c : Z) (w : Z) : Z :=
  if is_scalar c && (width c =? w) then c else 65533.

(** Modelled from the spec: the text of a [String] payload or a column
    name is its bytes read as UTF-8 (the decoder itself,
    DatabaseExtensions.cs, is not among the sources).  The spec names no
    failure for ill-formed UTF-8, so an ill-formed byte decodes to U+FFFD
    and decoding resumes at the next byte. *)
Fixpoint decode (b : list byte) : pystr :=
  match b with
  | [] => []
  | b0 :: r0 =>
      let x0 := byte.unsigned b0 in
      match lead_class x0, r0 with
      | 1%nat, _ => x0 :: decode r0
      | 2%nat, b1 :: r1 =>
          if is_cont b1
          then checked ((x0 - 192) * 64 + cont_bits b1) 2 :: decode r1
          else 65533 :: decode r0
      | 3%nat, b1 :: b2 :: r2 =>
          if is_cont b1 && is_cont b2
          then checked ((x0 - 224) * 4096 + cont_bits b1 * 64 + cont_bits b2) 3
                 :: decode r2
          else 65533 :: decode r0
      | 4%nat, b1 :: b2 :: b3 :: r3 =>
          if is_cont b1 && is_cont b2 && is_cont b3
          then checked ((x0 - 240) * 262144 + cont_bits b1 * 4096
                        + cont_bits b2 * 64 + cont_bits b3) 4
                 :: decode r3
          else 65533 :: decode r0
      | _, _ => 65533 :: decode r0
      end
  end.

End Utf8.

(** ** Python values *)

(** The values a row may hold.  [PyObject text] is an object of any other
    type; [text] is what [str(value)] returns for it. *)
Inductive pyvalue : Type :=
| PyNone
| PyBool (b : bool)
| PyInt (n : Z)
| PyFloat (bits : Z)
| PyStr (s : pystr)
| PyBytes (b : list byte)
| PyObject (text : pystr).

Inductive pytype : Type := TBool | TInt | TFloat | TStr | TBytes.

(** [isinstance(value, t)].  [bool] is a subclass of [int]. *)
Definition isinstance (value : pyvalue) (t : pytype) : bool :=
  match value, t with
  | PyBool _, TBool => true
  | PyBool _, TInt => true
  | PyInt _, TInt => true
  | PyFloat _, TFloat => true
  | PyStr _, TStr => true
  | PyBytes _, TBytes => true
  | _, _ => false
  end.

(** [value is None] *)
Definition is_None (value : pyvalue) : bool :=
  match value with PyNone => true | _ => false end.

(** Truthiness, as [1 if value else 0] tests it; the serializer asks it of
    [bool]s only. *)
Definition truthy (value : pyvalue) : bool :=
  match value with
  | PyNone => false
  | PyBool b => b
  | PyInt n => negb (n =? 0)
  | PyFloat bits => negb (Z.land bits 9223372036854775807 =? 0)
  | PyStr s => negb (len s =? 0)
  | PyBytes b => negb (len b =? 0)
  | PyObject _ => true
  end.

(** The integer an [int] instance stands for ([True] is 1, [False] is 0). *)
Definition int_value (value : pyvalue) : Z :=
  match value with
  | PyBool b => if b then 1 else 0
  | PyInt n => n
  | _ => 0
  end.

Definition float_bits (value : pyvalue) : Z :=
  match value with PyFloat bits => bits | _ => 0 end.

Definition str_value (value : pyvalue) : pystr :=
  match value with PyStr s => s | _ => [] end.

Definition bytes_value (value : pyvalue) : list byte :=
  match value with PyBytes b => b | _ => [] end.

(** [str(value)]; the serializer calls it on values of no modelled type
    only. *)
Definition py_str (value : pyvalue) : pystr :=
  match value with PyObject text => text | PyStr s => s | _ => [] end.

(** A row: [Dict[str, Any]] in insertion order. *)
Definition pydict : Type := list (pystr * pyvalue).

(** ** Type markers *)

Inductive BinaryTypeMarker : Type :=
| Null | Int32 | Int64 | Double | Boolean | DateTime | String | Bytes | Decimal.

(** The [IntEnum] value of a marker. *)
Definition marker_value (m : BinaryTypeMarker) : Z :=
  match m with
  | Null => 0 | Int32 => 1 | Int64 => 2 | Double => 3 | Boolean => 4
  | DateTime => 5 | String => 6 | Bytes => 7 | Decimal => 8
  end.

(** ** Serialization steps *)

(** One step of the visualization.  The [description] field of the source
    is display text assembled with f-strings (it prints floats and arbitrary
    objects); it is not carried here. *)
Record SerializationStep : Type := mkStep {
  offset : Z;
  size : Z;
  value : pyvalue;
  hex_bytes : string
}.

(** Number of times [_encode_value] can still fall back to [str(value)]. *)
Definition fallbacks (value : pyvalue) : nat :=
  match value with PyObject _ => 1%nat | _ => 0%nat end.

Module BinaryRowSerializer.

Definition hex_digit (n : Z) : ascii :=
  List.nth (Z.to_nat n) (list_ascii_of_string "0123456789ABCDEF") "0"%char.

(** [f'{b:02X}'] *)
Definition hex_of_byte (b : byte) : string :=
  String.String (hex_digit (byte.unsigned b / 16))
    (String.String (hex_digit (byte.unsigned b mod 16)) EmptyString).

(** [' '.join(f'{b:02X}' for b in data)] *)
Definition _bytes_to_hex (data : list byte) : string :=
  String.concat " " (List.map hex_of_byte data).

(** [names.get(marker, "Unknown")] *)
Definition _get_type_name (marker : Z) : string :=
  match marker with
  | 0 => "Null" | 1 => "Int32" | 2 => "Int64" | 3 => "Double"
  | 4 => "Boolean" | 5 => "DateTime" | 6 => "String" | 7 => "Bytes"
  | 8 => "Decimal" | _ => "Unknown"
  end%string.

(** [_encode_value]: the [if]/[elif] chain of the source, in its order.
    The last branch calls the function again on [str(value)]. *)
Equations? _encode_value (value : pyvalue)
  : pyresult (BinaryTypeMarker * list byte) by wf (fallbacks value) lt :=
  _encode_value value with inspect (is_None value) := {
    | yes => Ret (Null, []);
    | no with inspect (isinstance value TBool) := {
      | yes =>
          Ret (Boolean, [byte.of_Z (if truthy value then 1 else 0)]);
      | no with inspect (isinstance value TInt) := {
        | yes =>
            if (-2147483648 <=? int_value value)
               && (int_value value <=? 2147483647)
            then (p <- Struct.pack_i (int_value value) ;; Ret (Int32, p))
            else (p <- Struct.pack_q (int_value value) ;; Ret (Int64, p));
        | no with inspect (isinstance value TFloat) := {
          | yes => Ret (Double, Struct.pack_d (float_bits value));
          | no with inspect (isinstance value TStr) := {
            | yes =>
                encoded <- Utf8.encode (str_value value) ;;
                n <- Struct.pack_I (len encoded) ;;
                Ret (String, n ++ encoded);
            | no with inspect (isinstance value TBytes) := {
              | yes =>
                  n <- Struct.pack_I (len (bytes_value value)) ;;
                  Ret (Bytes, n ++ bytes_value value);
              | no => _encode_value (PyStr (py_str value)) }}}}}}.
Proof.
  match goal with v : pyvalue |- _ => destruct v end;
    simpl in *; try discriminate; lia.
Qed.

(** The state the loop of [serialize] updates: the [BytesIO] buffer, the
    step list and the running offset. *)
Record loop_state : Type := mkLoop {
  buffer : list byte;
  steps : list SerializationStep;
  cur : Z
}.

(** The body of [for name, value in row.items()]. *)
Definition serialize_column (name : pystr) (v : pyvalue) (st : loop_state)
  : pyresult loop_state :=
  name_bytes <- Utf8.encode name ;;
  name_len <- Struct.pack_I (len name_bytes) ;;
  let buffer := buffer st ++ name_len in
  let steps := steps st ++
    [mkStep (cur st) 4 (PyInt (len name_bytes)) (_bytes_to_hex name_len)] in
  let offset := cur st + 4 in
  let buffer := buffer ++ name_bytes in
  let steps := steps ++
    [mkStep offset (len name_bytes) (PyStr name) (_bytes_to_hex name_bytes)] in
  let offset := offset + len name_bytes in
  '(type_marker, value_bytes) <- _encode_value v ;;
  let marker_byte := [byte.of_Z (marker_value type_marker)] in
  let buffer := buffer ++ marker_byte in
  let steps := steps ++
    [mkStep offset 1
       (PyStr (pystr_of_string (_get_type_name (marker_value type_marker))))
       (_bytes_to_hex marker_byte)] in
  let offset := offset + 1 in
  let buffer := buffer ++ value_bytes in
  let steps := steps ++
    [mkStep offset (len value_bytes) v (_bytes_to_hex value_bytes)] in
  let offset := offset + len value_bytes in
  Ret (mkLoop buffer steps offset).

Fixpoint serialize_columns (items : pydict) (st : loop_state)
  : pyresult loop_state :=
  match items with
  | [] => Ret st
  | (name, v) :: rest =>
      st' <- serialize_column name v st ;;
      serialize_columns rest st'
  end.

(** [serialize(row)]: the buffer and the visualization steps. *)
Definition serialize (row : pydict)
  : pyresult (list byte * list SerializationStep) :=
  let column_count := len row in
  header <- Struct.pack_I column_count ;;
  let st := mkLoop header
              [mkStep 0 4 (PyInt column_count) (_bytes_to_hex header)] 4 in
  st' <- serialize_columns row st ;;
  Ret (buffer st', steps st').

(** [encode(row)] of the specification: the buffer alone. *)
Definition encode (row : pydict) : pyresult (list byte) :=
  r <- serialize row ;; Ret (fst r).

End BinaryRowSerializer.

Import BinaryRowSerializer.

(** ** The wire image of a row, as a pure function

    [serialize] threads a buffer through a loop; [wire_columns] is the byte
    string that loop appends, column by column. *)

Definition pymap {A B} (f : A -> B) (m : pyresult A) : pyresult B :=
  x <- m ;; Ret (f x).

Definition wire_column (c : pystr * pyvalue) : pyresult (list byte) :=
  name_bytes <- Utf8.encode (fst c) ;;
  name_len <- Struct.pack_I (len name_bytes) ;;
  '(type_marker, value_bytes) <- _encode_value (snd c) ;;
  Ret (name_len ++ name_bytes
         ++ [byte.of_Z (marker_value type_marker)] ++ value_bytes).

Fixpoint wire_columns (row : pydict) : pyresult (list byte) :=
  match row with
  | [] => Ret []
  | c :: rest =>
      a <- wire_column c ;;
      b <- wire_columns rest ;;
      Ret (a ++ b)
  end.

(** Payload size of a value, by the marker table of the wire format. *)
Definition payload_size (v : pyvalue) : Z :=
  match v with
  | PyNone => 0
  | PyBool _ => 1
  | PyInt n =>
      if (-2147483648 <=? n) && (n <=? 2147483647) then 4 else 8
  | PyFloat _ => 8
  | PyStr s => 4 + Utf8.byte_length s
  | PyBytes b => 4 + len b
  | PyObject text => 4 + Utf8.byte_length text
  end.

(** 4 + sum over the columns of (4 + name bytes + 1 + payload bytes). *)
Definition encoded_size (row : pydict) : Z :=
  4 + fold_right
        (fun c acc => (4 + Utf8.byte_length (fst c) + 1 + payload_size (snd c)) + acc)
        0 row.

(** Steps laid end to end from [start] to [stop]. *)
Fixpoint chained (start : Z) (l : list SerializationStep) (stop : Z) : Prop :=
  match l with
  | [] => start = stop
  | s :: rest => offset s = start /\ chained (offset s + size s) rest stop
  end.

(** ** The row decoder

    [DatabaseExtensions.cs] is not among the sources.  What the sources hold
    of it are the signatures of its read methods and the guards that
    [fix_bounds_checking.py] and [fix_bounds_v3.py] insert into them:
    [[
      ReadInt32 / ReadInt64 / ReadBoolean / ReadGuid (ReadOnlySpan<byte> data, ref int offset)
          if (offset + N > data.Length)                       // N = 4, 8, 1, 16
              throw new InvalidOperationException("... truncated at offset ...");
      ReadString / ReadBytes (ReadOnlySpan<byte> data, ref int offset)
          var length = ReadInt32(data, ref offset);
          if (length < 0 || offset + length > data.Length)
              throw new InvalidOperationException("... truncated at offset ...");
    ]]
    [offset] and [length] are C# [int]s and so is [data.Length]: the sums
    are taken in 32-bit two's complement.  The rest of the decoder follows
    sections 4.3, 6 and 7 of the specification. *)

Module Decoder.

(** Modelled from the spec: the failure kinds of section 7 that a decode
    call can end in; the C# exception is one type for all of them. *)
Inductive failure : Type := TruncatedData | InvalidLength | UnsupportedType.

(** Modelled from the spec: the terminal states of a decode call
    (section 4.3), [Ok] a result or [Fail] a typed failure.  [Panic] is
    what section 8 says must never happen: an access outside the buffer. *)
Inductive outcome (A : Type) : Type :=
| Ok (a : A)
| Fail (f : failure)
| Panic.
Arguments Ok {A} a.
Arguments Fail {A} f.
Arguments Panic {A}.

(** Modelled from the spec: the value variants of section 3 that section 6
    gives a marker and a payload layout. *)
Inductive Value : Type :=
| VNull
| VInt32 (n : Z)
| VInt64 (n : Z)
| VDouble (bits : Z)
| VBoolean (b : bool)
| VString (s : pystr)
| VBytes (b : list byte).

(** The [ref int offset] of one decode call, together with the log of the
    buffer ranges [(offset, size)] the call has asked for. *)
Record cursor : Type := mkCursor {
  pos : Z;
  accesses : list (Z * Z)
}.

(** A read method: from [data] and the cursor to an outcome and the cursor
    it leaves. *)
Definition reader (A : Type) : Type :=
  list byte -> cursor -> outcome A * cursor.

Definition ret {A} (a : A) : reader A := fun _ c => (Ok a, c).

(** [throw]: the call ends here. *)
Definition fail {A} (f : failure) : reader A := fun _ c => (Fail f, c).

(** Sequencing; a failure or a panic of [m] ends the call. *)
Definition bind {A B} (m : reader A) (k : A -> reader B) : reader B :=
  fun data c =>
    match m data c with
    | (Ok a, c') => k a data c'
    | (Fail f, c') => (Fail f, c')
    | (Panic, c') => (Panic, c')
    end.

Declare Scope reader_scope.
Delimit Scope reader_scope with reader.
Notation "x <- m ;; k" := (bind m (fun x => k))
  (at level 61, m at next level, right associativity) : reader_scope.
Notation "m ;; k" := (bind m (fun _ => k))
  (at level 61, right associativity) : reader_scope.
Local Open Scope reader_scope.

(** A C# [int]: the 32-bit two's complement value of [z]. *)
Definition int32 (z : Z) : Z := (z + 2147483648) mod 4294967296 - 2147483648.

(** A C# [long]. *)
Definition int64 (z : Z) : Z :=
  (z + 9223372036854775808) mod 18446744073709551616 - 9223372036854775808.

(** A range that lies inside the buffer. *)
Definition in_bounds (data : list byte) (a : Z * Z) : Prop :=
  0 <= fst a /\ 0 <= snd a /\ fst a + snd a <= len data.

(** Modelled from the spec: the access itself, [n] bytes taken at the
    cursor, which then moves past them (the method bodies are not in the
    sources).  The range is logged; outside the buffer the access
    panics. *)
Definition fetch (n : Z) : reader (list byte) :=
  fun data c =>
    let log := accesses c ++ [(pos c, n)] in
    if (0 <=? pos c) && (0 <=? n) && (pos c + n <=? len data)
    then (Ok (firstn (Z.to_nat n) (skipn (Z.to_nat (pos c)) data)),
          mkCursor (pos c + n) log)
    else (Panic, mkCursor (pos c) log).

(** The guard of a fixed-size read, as patched in:
    [if (offset + N > data.Length) throw ... truncated at offset ...]. *)
Definition need (n : Z) : reader unit :=
  fun data c =>
    if int32 (pos c + n) >? len data then (Fail TruncatedData, c)
    else (Ok tt, c).

(** The guard of a length-prefixed read, as patched in:
    [if (length < 0 || offset + length > data.Length) throw ...].
    The failure kinds are the specification's: a negative length is an
    [InvalidLength], a read that needs more bytes than remain is
    [TruncatedData] (sections 4.3 and 7; the patch's message says
    "truncated" for both). *)
Definition check_length (length : Z) : reader unit :=
  fun data c =>
    if length <? 0 then (Fail InvalidLength, c)
    else if int32 (pos c + length) >? len data then (Fail TruncatedData, c)
    else (Ok tt, c).

(** Modelled from the spec: the body of [ReadInt32] behind its guard,
    four bytes read as a signed little-endian integer. *)
Definition ReadInt32 : reader Z :=
  need 4 ;; b <- fetch 4 ;; ret (int32 (le_combine b)).

(** Modelled from the spec: the body of [ReadInt64] behind its guard,
    eight bytes, signed little-endian. *)
Definition ReadInt64 : reader Z :=
  need 8 ;; b <- fetch 8 ;; ret (int64 (le_combine b)).

(** Modelled from the spec: the body of [ReadBoolean] behind its guard,
    one byte, 0 for false. *)
Definition ReadBoolean : reader bool :=
  need 1 ;; b <- fetch 1 ;; ret (negb (le_combine b =? 0)).

(** Modelled from the spec: the body of [ReadGuid] behind its guard,
    sixteen raw bytes.  No marker selects it (section 6). *)
Definition ReadGuid : reader (list byte) :=
  need 16 ;; fetch 16.

(** Modelled from the spec: what [ReadBytes] does once the length is read
    and checked: it copies that many bytes. *)
Definition ReadBytes : reader (list byte) :=
  length <- ReadInt32 ;;
  check_length length ;;
  fetch length.

(** Modelled from the spec: what [ReadString] does once the length is read
    and checked: it copies that many bytes and reads them as UTF-8. *)
Definition ReadString : reader pystr :=
  length <- ReadInt32 ;;
  check_length length ;;
  b <- fetch length ;;
  ret (Utf8.decode b).

(** Modelled from the spec: [readUint32], which reads the column count; it
    is not in the patch scripts and has the same precondition as the
    patched reads (section 4.3). *)
Definition ReadUInt32 : reader Z :=
  need 4 ;; b <- fetch 4 ;; ret (le_combine b).

(** Modelled from the spec: [readDouble], eight bytes carried as their
    IEEE-754 pattern; it is not in the patch scripts. *)
Definition ReadDouble : reader Z :=
  need 8 ;; b <- fetch 8 ;; ret (le_combine b).

(** Modelled from the spec: the read of the one-byte marker. *)
Definition ReadMarker : reader Z :=
  need 1 ;; b <- fetch 1 ;; ret (le_combine b).

(** Modelled from the spec: the dispatch on the marker byte (section 6).
    Markers 5 and 8 are reserved with no layout and Guid has no marker
    number, so none of them has a reader here; like any unknown byte they
    are [UnsupportedType]. *)
Definition read_value (marker : Z) : reader Value :=
  match marker with
  | 0 => ret VNull
  | 1 => n <- ReadInt32 ;; ret (VInt32 n)
  | 2 => n <- ReadInt64 ;; ret (VInt64 n)
  | 3 => d <- ReadDouble ;; ret (VDouble d)
  | 4 => b <- ReadBoolean ;; ret (VBoolean b)
  | 6 => s <- ReadString ;; ret (VString s)
  | 7 => b <- ReadBytes ;; ret (VBytes b)
  | _ => fail UnsupportedType
  end.

(** Modelled from the spec: one column is name length, name, marker,
    payload (section 4.3). *)
Definition read_column : reader (pystr * Value) :=
  name <- ReadString ;;
  marker <- ReadMarker ;;
  v <- read_value marker ;;
  ret (name, v).

(** Modelled from the spec: the loop over the column count. *)
Fixpoint read_columns (n : nat) : reader (list (pystr * Value)) :=
  match n with
  | O => ret []
  | S k =>
      c <- read_column ;;
      rest <- read_columns k ;;
      ret (c :: rest)
  end.

(** Modelled from the spec: read the column count, then that many
    columns; any failure discards the columns read so far. *)
Definition read_row : reader (list (pystr * Value)) :=
  count <- ReadUInt32 ;;
  read_columns (Z.to_nat count).

(** One call: the cursor starts at 0 with an empty log. *)
Definition run {A} (m : reader A) (data : list byte) : outcome A * cursor :=
  m data (mkCursor 0 []).

(** Modelled from the spec: [decode(buffer)], the row or the failure. *)
Definition decode (data : list byte) : outcome (list (pystr * Value)) :=
  fst (run read_row data).

(** The buffer ranges that [decode] asked for, in order. *)
Definition decode_accesses (data : list byte) : list (Z * Z) :=
  accesses (snd (run read_row data)).

(** Decoding one payload that stands alone in a buffer. *)
Definition decode_value (marker : Z) (payload : list byte) : outcome Value :=
  fst (run (read_value marker) payload).

(** The Python value a decoded value stands for: both integer widths are
    Python [int]s. *)
Definition denote (v : Value) : pyvalue :=
  match v with
  | VNull => PyNone
  | VInt32 n => PyInt n
  | VInt64 n => PyInt n
  | VDouble bits => PyFloat bits
  | VBoolean b => PyBool b
  | VString s => PyStr s
  | VBytes b => PyBytes b
  end.

Definition denote_row (r : list (pystr * Value)) : pydict :=
  List.map (fun c => (fst c, denote (snd c))) r.

End Decoder.

(** ** Representable rows *)

(** A value the wire format has a variant for, within that variant's
    range. *)
Definition representable_value (v : pyvalue) : bool :=
  match v with
  | PyNone => true
  | PyBool _ => true
  | PyInt n => (-9223372036854775808 <=? n) && (n <=? 9223372036854775807)
  | PyFloat bits => (0 <=? bits) && (bits <? 18446744073709551616)
  | PyStr s => forallb Utf8.is_scalar s
  | PyBytes _ => true
  | PyObject _ => false
  end.

(** Largest length of a [ReadOnlySpan<byte>]: [Int32.MaxValue]. *)
Definition max_span : Z := 2147483647.

(** A row is representable when its names are Unicode text, its values are
    representable and its encoding fits a byte span. *)
Definition representable (row : pydict) : bool :=
  forallb (fun c => forallb Utf8.is_scalar (fst c) && representable_value (snd c)) row
  && (encoded_size row <=? max_span).

(** ** What it means for a reader to decode an encoding

    [decodes m e a]: wherever the bytes [e] sit in a buffer that fits a
    span, [m] started at their first byte returns [a] and leaves the cursor
    just past them.  [truncates m e]: on a buffer that ends inside [e], [m]
    fails with [TruncatedData]. *)

Definition decodes {A} (m : Decoder.reader A) (e : list byte) (a : A) : Prop :=
  forall pre post c,
    Decoder.pos c = len pre ->
    len (pre ++ e ++ post) <= max_span ->
    exists c', m (pre ++ e ++ post) c = (Decoder.Ok a, c')
               /\ Decoder.pos c' = Decoder.pos c + len e.

Definition truncates {A} (m : Decoder.reader A) (e : list byte) : Prop :=
  forall pre e1 e2 c,
    e = e1 ++ e2 -> e2 <> [] ->
    Decoder.pos c = len pre ->
    len (pre ++ e) <= max_span ->
    exists c', m (pre ++ e1) c = (Decoder.Fail Decoder.TruncatedData, c').

(** A reader is safe when, unless it panics, every range it accesses lies
    inside the buffer. *)
Definition safe {A} (m : Decoder.reader A) : Prop :=
  forall data c,
    Forall (Decoder.in_bounds data) (Decoder.accesses c) ->
    fst (m data c) <> Decoder.Panic ->
    Forall (Decoder.in_bounds data) (Decoder.accesses (snd (m data c))).

(** A fixed-size read: guard, raw access, conversion. *)
Definition fixed_read {A} (n : Z) (f : list byte -> A) : Decoder.reader A :=
  Decoder.bind (Decoder.need n)
    (fun _ => Decoder.bind (Decoder.fetch n) (fun b => Decoder.ret (f b))).

(** ** Rows and buffers used as examples *)

(** [example_1_simple_types] of the visualizer. *)
Definition example_1_row : pydict :=
  [ (pystr_of_string "UserId", PyInt 42);
    (pystr_of_string "Name", PyStr (pystr_of_string "John Doe"));
    (pystr_of_string "Active", PyBool true) ].

(** What [serialize] returns for it. *)
Definition example_1_serialized : list byte * list SerializationStep :=
  Eval vm_compute in
    match serialize example_1_row with
    | Ret r => r
    | Raise _ => ([], [])
    end.

(** The strings of [example_2_unicode_strings], as code points:
    "Caf" + U+00E9, U+65E5 U+672C, and U+1F680. *)
Definition cafe : pystr := [67; 97; 102; 233].
Definition nihon : pystr := [26085; 26412].
Definition rocket : pystr := [128640].

(** A row with one value of every modelled type. *)
Definition sample_row : pydict :=
  [ (pystr_of_string "id", PyInt 42);
    (pystr_of_string "big", PyInt 9000000000);
    (pystr_of_string "neg", PyInt (-1));
    (pystr_of_string "ratio", PyFloat 4609434218613702656);
    (cafe, PyStr nihon);
    (pystr_of_string "blob", PyBytes [Byte.x00; Byte.xff]);
    (pystr_of_string "gone", PyNone);
    (pystr_of_string "ok", PyBool false) ].

Definition sample_bytes : list byte :=
  Eval vm_compute in
    match encode sample_row with
    | Ret b => b
    | Raise _ => []
    end.

(** A 14-byte buffer: one column named "a", marker 6 ([String]), and the
    length field [FF FF FF 7F] (2147483647) with no payload behind it. *)
Definition crafted_buffer : list byte :=
  [ Byte.x01; Byte.x00; Byte.x00; Byte.x00;
    Byte.x01; Byte.x00; Byte.x00; Byte.x00; Byte.x61;
    Byte.x06;
    Byte.xff; Byte.xff; Byte.xff; Byte.x7f ].

(** ** The hex dump of [print_visualization]

    [print_visualization] prints; what is modelled here is the data of its
    hex dump loop,
    [[
      for i in range(0, len(binary_data), 16):
          chunk = binary_data[i:i+16]
          hex_part = ' '.join(f'{b:02X}' for b in chunk)
          ascii_part = ''.join(chr(b) if 32 <= b < 127 else '.' for b in chunk)
          print(f"     {i:04X}: {hex_part:<48} ...{ascii_part}...")
    ]]
    one entry per printed line. *)

(** [data[start:start+n]] for a list. *)
Definition slice {A} (data : list A) (start n : nat) : list A :=
  firstn n (skipn start data).

(** [range(0, n, 16)] *)
Definition range_by_16 (n : nat) : list nat :=
  List.map (fun k => (16 * k)%nat) (seq 0 ((n + 15) / 16)).

(** The pairs [(i, chunk)] the loop goes through. *)
Definition hex_dump_chunks (binary_data : list byte) : list (nat * list byte) :=
  List.map (fun i => (i, slice binary_data i 16))
    (range_by_16 (List.length binary_data)).

(** [chr(b) if 32 <= b < 127 else '.'] *)
Definition ascii_or_dot (b : byte) : ascii :=
  if (32 <=? byte.unsigned b) && (byte.unsigned b <? 127)
  then ascii_of_byte b else "."%char.

(** [''.join(chr(b) if 32 <= b < 127 else '.' for b in chunk)] *)
Definition ascii_part (chunk : list byte) : string :=
  string_of_list_ascii (List.map ascii_or_dot chunk).

(** [f'{s:<48}']: [s] padded with spaces on the right to [w] characters,
    and left as it is when it is longer. *)
Definition ljust (w : nat) (s : string) : string :=
  (s ++ string_of_list_ascii (repeat " "%char (w - String.length s)))%string.

(** The hex column and the text column of one printed line. *)
Definition hex_dump_line (chunk : list byte) : string * string :=
  (ljust 48 (_bytes_to_hex chunk), ascii_part chunk).

(** ** The patch scripts

    [fix_bounds_v2.py] and [fix_bounds_v3.py] read the C# file with
    [readlines()], edit the list of lines and write it back.  A line is a
    [str]; the scripts test lines with [in] and edit the list with
    [insert]. *)

(** [hay.startswith(needle)] *)
Fixpoint starts_with (needle hay : pystr) : bool :=
  match needle, hay with
  | [], _ => true
  | _ :: _, [] => false
  | a :: needle', b :: hay' => (a =? b) && starts_with needle' hay'
  end.

(** [needle in hay] for two [str]s: [needle] occurs somewhere in [hay]. *)
Fixpoint py_in (needle hay : pystr) : bool :=
  starts_with needle hay
  || match hay with
     | [] => false
     | _ :: rest => py_in needle rest
     end.

(** [lines.insert(i, x)]; an index past the end appends. *)
Definition list_insert {A} (i : nat) (x : A) (l : list A) : list A :=
  firstn i l ++ x :: skipn i l.

(** ['truncated at offset'], the text both scripts look for to tell that a
    method is patched already. *)
Definition truncated_marker : pystr := pystr_of_string "truncated at offset".

(** A script runs to its end, or stops on a list index out of range. *)
Inductive script_result (A : Type) : Type :=
| Done (a : A)
| IndexError.
Arguments Done {A} a.
Arguments IndexError {A}.

Module FixBoundsV2.

(** [add_bounds_check(lines, start_pattern, check_code)]: the [while] loop
    from index [i] on; the list grows when a check is inserted.  The
    messages it prints are not modelled. *)
Equations? add_bounds_check_loop (lines : list pystr)
    (start_pattern check_code : pystr) (i : nat)
  : list pystr by wf (List.length lines - i)%nat lt :=
  add_bounds_check_loop lines start_pattern check_code i
    with inspect (i <? List.length lines)%nat := {
    | no => lines;
    | yes with inspect (py_in start_pattern (nth i lines [])) := {
      | yes with inspect ((S i <? List.length lines)%nat
                          && py_in truncated_marker (nth (S i) lines [])) := {
        | yes =>
            add_bounds_check_loop lines start_pattern check_code (S i);
        | no =>
            add_bounds_check_loop (list_insert (S i) check_code lines)
              start_pattern check_code (S (S i)) };
      | no => add_bounds_check_loop lines start_pattern check_code (S i) }}.
Proof.
  all: match goal with H : (_ <? _)%nat = true |- _ => apply Nat.ltb_lt in H end.
  - lia.
  - unfold list_insert. rewrite length_app. cbn [List.length].
    rewrite length_firstn, length_skipn. lia.
  - lia.
Qed.

Definition add_bounds_check (lines : list pystr)
    (start_pattern check_code : pystr) : list pystr :=
  add_bounds_check_loop lines start_pattern check_code 0.

(** The two arguments of the script's one call of [add_bounds_check]; 10 is
    the newline and 34 the double quote. *)
Definition ReadString_pattern : pystr :=
  pystr_of_string
    "private static string ReadString(ReadOnlySpan<byte> data, ref int offset)".

Definition ReadString_check_code : pystr :=
  pystr_of_string "        {" ++ [10]
  ++ pystr_of_string "            var length = ReadInt32(data, ref offset);"
  ++ [10]
  ++ pystr_of_string
       "            if (length < 0 || offset + length > data.Length)"
  ++ [10]
  ++ pystr_of_string "                throw new InvalidOperationException($"
  ++ [34]
  ++ pystr_of_string
       "String truncated at offset {offset}: length={length}, remaining={data.Length - offset}"
  ++ [34] ++ pystr_of_string ");" ++ [10].

End FixBoundsV2.

Module FixBoundsV3.

(** The third argument of [find_and_fix_method]: the script passes the
    string ['length'] or a number of bytes. *)
Inductive bytes_needed : Type :=
| NeedLength
| NeedBytes (n : Z).

(** How a call ends, by the message it prints: "already has bounds check",
    "Added bounds check", "Could not find". *)
Inductive fix_outcome : Type := AlreadyPatched | Patched | NotFound.

(** [str(n)] of an [int], as an f-string prints it. *)
Definition str_int (n : Z) : pystr :=
  pystr_of_string (NilZero.string_of_int (Z.to_int n)).

Definition indent : pystr := pystr_of_string "            ".

(** ['var length = ReadInt32(data, ref offset);'] *)
Definition var_length_line : pystr :=
  pystr_of_string "var length = ReadInt32(data, ref offset);".

(** The two lines inserted for [ReadString] and [ReadBytes]; 10 is the
    newline and 34 the double quote. *)
Definition length_check_line : pystr :=
  indent ++ pystr_of_string "if (length < 0 || offset + length > data.Length)"
    ++ [10].

Definition length_throw_line : pystr :=
  indent ++ pystr_of_string "    throw new InvalidOperationException($" ++ [34]
    ++ pystr_of_string
         "Truncated at offset {offset}: length={length}, remaining={data.Length - offset}"
    ++ [34] ++ pystr_of_string ");" ++ [10].

(** The two lines inserted for a fixed-size read of [n] bytes. *)
Definition fixed_check_line (n : Z) : pystr :=
  indent ++ pystr_of_string "if (offset + " ++ str_int n
    ++ pystr_of_string " > data.Length)" ++ [10].

Definition fixed_throw_line (n : Z) : pystr :=
  indent ++ pystr_of_string "    throw new InvalidOperationException($" ++ [34]
    ++ pystr_of_string "Truncated at offset {offset}: need " ++ str_int n
    ++ pystr_of_string " bytes, have {data.Length - offset}"
    ++ [34] ++ pystr_of_string ");" ++ [10].

(** The inner loop [while j < min(len(lines), brace_line + 10)]: the first
    line from [brace_line] on, within ten lines, that holds the length
    read. *)
Definition find_var_length (lines : list pystr) (brace_line : nat)
  : option nat :=
  List.find (fun j => py_in var_length_line (nth j lines []))
    (seq brace_line
       (Nat.min (List.length lines) (brace_line + 10) - brace_line)).

(** The body of [if method_signature in lines[i]].  [Done None] is the one
    path that returns to the outer loop: the length read was not found. *)
Definition fix_at (lines : list pystr) (needed : bytes_needed) (i : nat)
  : script_result (option (fix_outcome * list pystr)) :=
  match nth_error lines (S i) with
  | None => IndexError
  | Some next =>
      let brace_line :=
        if negb (py_in (pystr_of_string "{") next) then i else S i in
      let check_line := S brace_line in
      if (check_line <? List.length lines)%nat
         && py_in truncated_marker (nth check_line lines [])
      then Done (Some (AlreadyPatched, lines))
      else
        match needed with
        | NeedLength =>
            match find_var_length lines brace_line with
            | Some j =>
                Done (Some (Patched,
                  list_insert (S (S j)) length_throw_line
                    (list_insert (S j) length_check_line lines)))
            | None => Done None
            end
        | NeedBytes n =>
            Done (Some (Patched,
              list_insert (S check_line) (fixed_throw_line n)
                (list_insert check_line (fixed_check_line n) lines)))
        end
  end.

(** The outer loop [while i < len(lines)], over the indices still to
    visit; [lines] is unchanged on every path that goes on. *)
Fixpoint scan (lines : list pystr) (method_signature : pystr)
    (needed : bytes_needed) (indices : list nat)
  : script_result (fix_outcome * list pystr) :=
  match indices with
  | [] => Done (NotFound, lines)
  | i :: rest =>
      if py_in method_signature (nth i lines [])
      then
        match fix_at lines needed i with
        | IndexError => IndexError
        | Done (Some r) => Done r
        | Done None => scan lines method_signature needed rest
        end
      else scan lines method_signature needed rest
  end.

(** [find_and_fix_method(lines, method_signature, bytes_needed)]: how the
    call ends and the list it leaves. *)
Definition find_and_fix_method (lines : list pystr) (method_signature : pystr)
    (needed : bytes_needed) : script_result (fix_outcome * list pystr) :=
  scan lines method_signature needed (seq 0 (List.length lines)).

End FixBoundsV3.

(** General facts on [list_insert], used by the loops below. *)

Lemma skipn_nth {A} (d : A) (l : list A) (i : nat) :
  (i < List.length l)%nat -> skipn i l = nth i l d :: skipn (S i) l.
Proof.
  revert i. induction l as [|x l IH]; intros [|i] H; cbn [List.length] in H;
    try lia; [reflexivity|].
  cbn [skipn nth]. apply IH. lia.
Qed.

Lemma firstn_list_insert {A} (x : A) (l : list A) (j : nat) :
  (j <= List.length l)%nat ->
  firstn (S j) (list_insert j x l) = firstn j l ++ [x]
  /\ skipn (S j) (list_insert j x l) = skipn j l.
Proof.
  intros H. unfold list_insert.
  assert (Hl : List.length (firstn j l) = j) by (rewrite length_firstn; lia).
  split.
  - rewrite firstn_app, Hl, firstn_all2 by lia.
    replace (S j - j)%nat with 1%nat by lia. reflexivity.
  - rewrite skipn_app, Hl, skipn_all2 by lia.
    replace (S j - j)%nat with 1%nat by lia. reflexivity.
Qed.

Lemma insert_two {A} (c1 c2 : A) (l : list A) (k : nat) :
  (k <= List.length l)%nat ->
  list_insert (S k) c2 (list_insert k c1 l)
  = firstn k l ++ c1 :: c2 :: skipn k l.
Proof.
  intros H. unfold list_insert at 1.
  destruct (firstn_list_insert c1 l k H) as [-> ->].
  now rewrite <- app_assoc.
Qed.

Module FixBoundsV2Script.

(** The second part of [fix_bounds_v2.py]: the loop the script runs on the
    lines after its call of [add_bounds_check].  The texts are the script's
    literals; 10 is the newline and 34 the double quote. *)

Definition ReadString_prefix : pystr :=
  pystr_of_string "private static string ReadString".

Definition ReadBytes_prefix : pystr :=
  pystr_of_string "private static byte[] ReadBytes".

Definition ReadGuid_prefix : pystr :=
  pystr_of_string "private static Guid ReadGuid".

Definition ReadBoolean_prefix : pystr :=
  pystr_of_string "private static bool ReadBoolean".

Definition ReadInt32_pattern : pystr :=
  pystr_of_string "private static int ReadInt32(ReadOnlySpan<byte> data, ref int offset)".

Definition ReadInt64_prefix : pystr :=
  pystr_of_string "private static long ReadInt64".

Definition var_length_read : pystr :=
  pystr_of_string "var length = ReadInt32(data, ref offset);".

Definition length_if_line : pystr :=
  pystr_of_string "            if (length < 0 || offset + length > data.Length)"
  ++ [10].

Definition ReadString_throw : pystr :=
  pystr_of_string "                throw new InvalidOperationException($"
  ++ [34]
  ++ pystr_of_string "String truncated at offset {offset}: length={length}, remaining={data.Length - offset}"
  ++ [34]
  ++ pystr_of_string ");"
  ++ [10].

Definition ReadBytes_throw : pystr :=
  pystr_of_string "                throw new InvalidOperationException($"
  ++ [34]
  ++ pystr_of_string "Bytes truncated at offset {offset}: length={length}, remaining={data.Length - offset}"
  ++ [34]
  ++ pystr_of_string ");"
  ++ [10].

Definition ReadGuid_if : pystr :=
  pystr_of_string "            if (offset + 16 > data.Length)"
  ++ [10].

Definition ReadGuid_throw : pystr :=
  pystr_of_string "                throw new InvalidOperationException($"
  ++ [34]
  ++ pystr_of_string "Guid truncated at offset {offset}: need 16 bytes, have {data.Length - offset}"
  ++ [34]
  ++ pystr_of_string ");"
  ++ [10].

Definition ReadBoolean_if : pystr :=
  pystr_of_string "            if (offset + 1 > data.Length)"
  ++ [10].

Definition ReadBoolean_throw : pystr :=
  pystr_of_string "                throw new InvalidOperationException($"
  ++ [34]
  ++ pystr_of_string "Boolean truncated at offset {offset}: need 1 byte, have {data.Length - offset}"
  ++ [34]
  ++ pystr_of_string ");"
  ++ [10].

Definition ReadInt32_if : pystr :=
  pystr_of_string "            if (offset + 4 > data.Length)"
  ++ [10].

Definition ReadInt32_throw : pystr :=
  pystr_of_string "                throw new InvalidOperationException($"
  ++ [34]
  ++ pystr_of_string "Int32 truncated at offset {offset}: need 4 bytes, have {data.Length - offset}"
  ++ [34]
  ++ pystr_of_string ");"
  ++ [10].

Definition ReadInt64_if : pystr :=
  pystr_of_string "            if (offset + 8 > data.Length)"
  ++ [10].

Definition ReadInt64_throw : pystr :=
  pystr_of_string "                throw new InvalidOperationException($"
  ++ [34]
  ++ pystr_of_string "Int64 truncated at offset {offset}: need 8 bytes, have {data.Length - offset}"
  ++ [34]
  ++ pystr_of_string ");"
  ++ [10].

(** The inner loop [while j < len(lines) and j < i + 10]: the first line
    after line [i], within the next nine, that holds the length read. *)
Definition find_length_read (lines : list pystr) (i : nat) : option nat :=
  List.find (fun j => py_in var_length_read (nth j lines []))
    (seq (S i) (Nat.min (List.length lines) (i + 10) - S i)).

(** The [ReadString] and [ReadBytes] branches: the two lines go behind the
    length read unless it is the last line or 'truncated at offset' follows
    it. *)
Definition patch_length_read (lines : list pystr) (i : nat)
    (if_line throw_line : pystr) : list pystr :=
  match find_length_read lines i with
  | Some j =>
      if (S j <? List.length lines)%nat
         && negb (py_in truncated_marker (nth (S j) lines []))
      then list_insert (S (S j)) throw_line (list_insert (S j) if_line lines)
      else lines
  | None => lines
  end.

(** The body of a fixed-size branch: [lines[i + 2]] is read without a test
    of the length. *)
Definition patch_fixed (lines : list pystr) (i : nat)
    (if_line throw_line : pystr) : script_result (list pystr) :=
  match nth_error lines (S (S i)) with
  | None => IndexError
  | Some after =>
      if negb (py_in truncated_marker after)
      then Done (list_insert (S (S (S i))) throw_line
                   (list_insert (S (S i)) if_line lines))
      else Done lines
  end.

(** [elif pattern in lines[i] and '{' in lines[i + 1]: ...], with what the
    rest of the chain gives when the test fails; [lines[i + 1]] is read as
    soon as the pattern is in the line. *)
Definition elif_fixed (lines : list pystr) (i : nat)
    (pattern if_line throw_line : pystr)
    (otherwise : script_result (list pystr)) : script_result (list pystr) :=
  if py_in pattern (nth i lines [])
  then
    match nth_error lines (S i) with
    | None => IndexError
    | Some next =>
        if py_in (pystr_of_string "{") next
        then patch_fixed lines i if_line throw_line
        else otherwise
    end
  else otherwise.

(** One turn of the outer loop, at index [i < len(lines)]. *)
Definition loop_body (lines : list pystr) (i : nat)
  : script_result (list pystr) :=
  if py_in ReadString_prefix (nth i lines [])
  then Done (patch_length_read lines i length_if_line ReadString_throw)
  else if py_in ReadBytes_prefix (nth i lines [])
  then Done (patch_length_read lines i length_if_line ReadBytes_throw)
  else
    elif_fixed lines i ReadGuid_prefix ReadGuid_if ReadGuid_throw
      (elif_fixed lines i ReadBoolean_prefix ReadBoolean_if ReadBoolean_throw
         (elif_fixed lines i ReadInt32_pattern ReadInt32_if ReadInt32_throw
            (elif_fixed lines i ReadInt64_prefix ReadInt64_if ReadInt64_throw
               (Done lines)))).

(** The loop ends although the list grows: a turn that inserts two lines
    leaves behind it a line that holds one of the six patterns, and the
    lines it inserts hold none. *)
Definition patterns : list pystr :=
  [ ReadString_prefix; ReadBytes_prefix; ReadGuid_prefix; ReadBoolean_prefix;
    ReadInt32_pattern; ReadInt64_prefix ].

Definition inserted_lines : list pystr :=
  [ length_if_line; ReadString_throw; ReadBytes_throw;
    ReadGuid_if; ReadGuid_throw; ReadBoolean_if; ReadBoolean_throw;
    ReadInt32_if; ReadInt32_throw; ReadInt64_if; ReadInt64_throw ].

Definition holds_any (line : pystr) : bool :=
  existsb (fun pattern => py_in pattern line) patterns.

Definition line_weight (line : pystr) : nat :=
  if holds_any line then 3%nat else 1%nat.

Definition weight (lines : list pystr) (i : nat) : nat :=
  list_sum (List.map line_weight (skipn i lines)).

Lemma inserted_lines_plain c :
  In c inserted_lines -> line_weight c = 1%nat.
Proof.
  assert (H : forallb (fun c => negb (holds_any c)) inserted_lines = true)
    by (vm_compute; reflexivity).
  rewrite forallb_forall in H. intros Hc. apply H in Hc.
  unfold line_weight. apply negb_true_iff in Hc. now rewrite Hc.
Qed.

(** What a turn can do to the list. *)
Definition turn_shape (lines : list pystr) (i : nat) (lines' : list pystr)
  : Prop :=
  lines' = lines
  \/ (holds_any (nth i lines []) = true
      /\ exists k c1 c2,
           (i < k <= List.length lines)%nat
           /\ lines' = firstn k lines ++ c1 :: c2 :: skipn k lines
           /\ In c1 inserted_lines /\ In c2 inserted_lines).

Lemma patch_length_read_shape lines i c1 c2 :
  holds_any (nth i lines []) = true ->
  In c1 inserted_lines -> In c2 inserted_lines ->
  turn_shape lines i (patch_length_read lines i c1 c2).
Proof.
  intros Hh H1 H2. unfold patch_length_read.
  destruct (find_length_read lines i) as [j|] eqn:Ef; [|now left].
  destruct ((S j <? List.length lines)%nat && _) eqn:Ec; [|now left].
  apply andb_true_iff in Ec. destruct Ec as [Ec _]. apply Nat.ltb_lt in Ec.
  unfold find_length_read in Ef. apply find_some in Ef.
  destruct Ef as [Hin _]. apply in_seq in Hin.
  right. split; [exact Hh|]. exists (S j), c1, c2.
  split; [lia|]. split; [|now split]. apply insert_two. lia.
Qed.

Lemma patch_fixed_shape lines i c1 c2 lines' :
  holds_any (nth i lines []) = true ->
  In c1 inserted_lines -> In c2 inserted_lines ->
  patch_fixed lines i c1 c2 = Done lines' -> turn_shape lines i lines'.
Proof.
  intros Hh H1 H2. unfold patch_fixed.
  destruct (nth_error lines (S (S i))) as [after|] eqn:En; [|discriminate].
  assert (Hn : (S (S i) < List.length lines)%nat).
  { apply nth_error_Some. congruence. }
  destruct (negb _); intros [= <-]; [|now left].
  right. split; [exact Hh|]. exists (S (S i)), c1, c2.
  split; [lia|]. split; [|now split]. apply insert_two. lia.
Qed.

Lemma holds_any_of pattern line :
  In pattern patterns -> py_in pattern line = true -> holds_any line = true.
Proof. intros Hp H. apply existsb_exists. now exists pattern. Qed.

Ltac in_list := simpl In; repeat first [left; reflexivity | right].

Lemma elif_fixed_shape lines i pattern c1 c2 otherwise lines' :
  In pattern patterns ->
  In c1 inserted_lines -> In c2 inserted_lines ->
  (otherwise = Done lines' -> turn_shape lines i lines') ->
  elif_fixed lines i pattern c1 c2 otherwise = Done lines' ->
  turn_shape lines i lines'.
Proof.
  intros Hp H1 H2 Ho. unfold elif_fixed.
  destruct (py_in pattern (nth i lines [])) eqn:Ep; [|exact Ho].
  pose proof (holds_any_of pattern _ Hp Ep) as Hh.
  destruct (nth_error lines (S i)) as [next|]; [|discriminate].
  destruct (py_in _ next); [|exact Ho].
  now apply patch_fixed_shape.
Qed.

Lemma loop_body_shape lines i lines' :
  loop_body lines i = Done lines' -> turn_shape lines i lines'.
Proof.
  unfold loop_body.
  destruct (py_in ReadString_prefix (nth i lines [])) eqn:E1.
  { intros [= <-]. apply patch_length_read_shape;
      [apply (holds_any_of ReadString_prefix); [in_list|exact E1]
      |in_list|in_list]. }
  destruct (py_in ReadBytes_prefix (nth i lines [])) eqn:E2.
  { intros [= <-]. apply patch_length_read_shape;
      [apply (holds_any_of ReadBytes_prefix); [in_list|exact E2]
      |in_list|in_list]. }
  repeat (apply elif_fixed_shape; [in_list|in_list|in_list|]).
  intros [= <-]. now left.
Qed.

Lemma weight_cons (line : pystr) (rest : list pystr) :
  list_sum (List.map line_weight (line :: rest))
  = (line_weight line + list_sum (List.map line_weight rest))%nat.
Proof. reflexivity. Qed.

Lemma weight_turn lines i lines' :
  (i < List.length lines)%nat -> turn_shape lines i lines' ->
  (weight lines' (S i) < weight lines i)%nat.
Proof.
  intros Hi Hs. unfold weight.
  rewrite (skipn_nth [] lines i Hi), weight_cons.
  destruct Hs as [->|(Hh & k & c1 & c2 & Hk & -> & H1 & H2)].
  - assert (1 <= line_weight (nth i lines []))%nat
      by (unfold line_weight; destruct (holds_any _); lia).
    lia.
  - assert (Hw : line_weight (nth i lines []) = 3%nat)
      by (unfold line_weight; now rewrite Hh).
    rewrite Hw.
    rewrite <- (firstn_skipn k lines) at 3.
    rewrite !skipn_app, length_firstn.
    replace (S i - Nat.min k (List.length lines))%nat with 0%nat by lia.
    cbn [skipn]. rewrite !map_app, !list_sum_app, !weight_cons.
    rewrite (inserted_lines_plain c1 H1), (inserted_lines_plain c2 H2). lia.
Qed.

(** [while i < len(lines): ...; i += 1] *)
Equations? main_loop (lines : list pystr) (i : nat)
  : script_result (list pystr) by wf (weight lines i) lt :=
  main_loop lines i with inspect (i <? List.length lines)%nat := {
    | no => Done lines;
    | yes with inspect (loop_body lines i) := {
      | exist _ IndexError _ => IndexError;
      | exist _ (Done lines') _ => main_loop lines' (S i) }}.
Proof.
  match goal with H : (_ <? _)%nat = true |- _ => apply Nat.ltb_lt in H end.
  apply weight_turn; [assumption|]. now apply loop_body_shape.
Qed.

(** The script, from the lines it reads to the lines it writes. *)
Definition fix_bounds_v2 (lines : list pystr) : script_result (list pystr) :=
  main_loop
    (FixBoundsV2.add_bounds_check lines FixBoundsV2.ReadString_pattern
       FixBoundsV2.ReadString_check_code) 0.

End FixBoundsV2Script.

(** ** Notions the further properties are stated with *)

(** A step shows the buffer when its range lies inside the buffer and its
    [hex_bytes] is the hex text of the bytes of that range. *)
Definition shows (buf : list byte) (s : SerializationStep) : Prop :=
  0 <= offset s /\ 0 <= size s /\ offset s + size s <= len buf
  /\ hex_bytes s
     = _bytes_to_hex (slice buf (Z.to_nat (offset s)) (Z.to_nat (size s))).

(** A printable ASCII character, the ones [chr(b)] is kept for. *)
Definition printable (a : ascii) : Prop :=
  (32 <= nat_of_ascii a < 127)%nat.

(** A text [str.encode('utf-8')] accepts and whose length fits [<I]. *)
Definition text_encodable (s : pystr) : bool :=
  forallb Utf8.is_scalar s && (Utf8.byte_length s <=? 4294967295).

(** A value [_encode_value] returns on. *)
Definition value_encodable (v : pyvalue) : bool :=
  match v with
  | PyNone => true
  | PyBool _ => true
  | PyInt n => (-9223372036854775808 <=? n) && (n <=? 9223372036854775807)
  | PyFloat _ => true
  | PyStr s => text_encodable s
  | PyBytes b => len b <=? 4294967295
  | PyObject text => text_encodable text
  end.

(** A row [serialize] returns on. *)
Definition row_encodable (row : pydict) : bool :=
  (len row <=? 4294967295)
  && forallb (fun c => text_encodable (fst c) && value_encodable (snd c)) row.

(** [out] is [lines] with copies of [c] inserted and nothing else
    changed. *)
Inductive inserts_of (c : pystr) : list pystr -> list pystr -> Prop :=
| inserts_nil : inserts_of c [] []
| inserts_keep x lines out :
    inserts_of c lines out -> inserts_of c (x :: lines) (x :: out)
| inserts_new lines out :
    inserts_of c lines out -> inserts_of c lines (c :: out).

(** The line after, if any, holds the marker. *)
Definition marker_follows (rest : list pystr) : bool :=
  match rest with
  | [] => false
  | y :: _ => py_in truncated_marker y
  end.

(** What the loop of [add_bounds_check] comes to, line by line: a line that
    holds the pattern gets the check behind it unless the marker follows. *)
Fixpoint add_checks (start_pattern check_code : pystr) (lines : list pystr)
  : list pystr :=
  match lines with
  | [] => []
  | x :: rest =>
      if py_in start_pattern x && negb (marker_follows rest)
      then x :: check_code :: add_checks start_pattern check_code rest
      else x :: add_checks start_pattern check_code rest
  end.

(** Every line that holds the pattern has a line with the marker right
    behind it. *)
Fixpoint all_checked (start_pattern : pystr) (lines : list pystr) : Prop :=
  match lines with
  | [] => True
  | x :: rest =>
      (py_in start_pattern x = true -> marker_follows rest = true)
      /\ all_checked start_pattern rest
  end.

(** The two lines [find_and_fix_method] inserts, by its third argument. *)
Definition patch_lines (needed : FixBoundsV3.bytes_needed) : pystr * pystr :=
  match needed with
  | FixBoundsV3.NeedLength =>
      (FixBoundsV3.length_check_line, FixBoundsV3.length_throw_line)
  | FixBoundsV3.NeedBytes n =>
      (FixBoundsV3.fixed_check_line n, FixBoundsV3.fixed_throw_line n)
  end.

(** No line holds [pattern]. *)
Definition none_holds (pattern : pystr) (lines : list pystr) : bool :=
  forallb (fun l => negb (py_in pattern l)) lines.

(** A character [str] of an [int] is made of: a digit or the minus sign. *)
Definition digit_or_minus (c : Z) : bool :=
  (c =? 45) || ((48 <=? c) && (c <=? 57)).

(** Some [t] (116) is followed by an [r] (114), [prev] being the character
    before the text; 'truncated at offset' begins that way. *)
Fixpoint has_tr_from (prev : Z) (s : pystr) : bool :=
  match s with
  | [] => false
  | c :: rest => ((prev =? 116) && (c =? 114)) || has_tr_from c rest
  end.

(** [out] is [lines] with lines of [cs] inserted and nothing else
    changed. *)
Inductive inserts_among (cs : list pystr) : list pystr -> list pystr -> Prop :=
| among_nil : inserts_among cs [] []
| among_keep x lines out :
    inserts_among cs lines out -> inserts_among cs (x :: lines) (x :: out)
| among_new c lines out :
    In c cs -> inserts_among cs lines out -> inserts_among cs lines (c :: out).

(** No line holds one of the six patterns of the loop of
    [fix_bounds_v2.py]. *)
Definition plain (lines : list pystr) : bool :=
  forallb (fun l => negb (FixBoundsV2Script.holds_any l)) lines.

(** The two lines of the first fixed-size branch whose pattern is in the
    line, in the order of the [elif] chain. *)
Definition fixed_entry (line : pystr) : option (pystr * pystr) :=
  if py_in FixBoundsV2Script.ReadGuid_prefix line
  then Some (FixBoundsV2Script.ReadGuid_if, FixBoundsV2Script.ReadGuid_throw)
  else if py_in FixBoundsV2Script.ReadBoolean_prefix line
  then Some (FixBoundsV2Script.ReadBoolean_if,
             FixBoundsV2Script.ReadBoolean_throw)
  else if py_in FixBoundsV2Script.ReadInt32_pattern line
  then Some (FixBoundsV2Script.ReadInt32_if, FixBoundsV2Script.ReadInt32_throw)
  else if py_in FixBoundsV2Script.ReadInt64_prefix line
  then Some (FixBoundsV2Script.ReadInt64_if, FixBoundsV2Script.ReadInt64_throw)
  else None.

(** A C# fragment with an unpatched [ReadString]. *)
Definition unpatched_fragment : list pystr :=
  [ pystr_of_string "    // readers" ++ [10];
    pystr_of_string "        " ++ FixBoundsV2.ReadString_pattern ++ [10];
    pystr_of_string "        {" ++ [10];
    pystr_of_string "            var length = ReadInt32(data, ref offset);"
      ++ [10];
    pystr_of_string "        }" ++ [10] ].

(** The signatures the script passes for [ReadString] and [ReadGuid]. *)
Definition ReadString_signature : pystr :=
  pystr_of_string
    "private static string ReadString(ReadOnlySpan<byte> data, ref int offset)".

Definition ReadGuid_signature : pystr :=
  pystr_of_string
    "private static Guid ReadGuid(ReadOnlySpan<byte> data, ref int offset)".

(** A C# fragment with an unpatched [ReadGuid]. *)
Definition unpatched_guid_fragment : list pystr :=
  [ pystr_of_string "        " ++ ReadGuid_signature ++ [10];
    pystr_of_string "        {" ++ [10];
    pystr_of_string "            var value = new Guid(data.Slice(offset, 16));"
      ++ [10];
    pystr_of_string "        }" ++ [10] ].

(** A [ReadString] whose length read comes after ten lines of comment. *)
Definition late_read_fragment : list pystr :=
  (pystr_of_string "        " ++ ReadString_signature ++ [10])
  :: (pystr_of_string "        {" ++ [10])
  :: repeat (pystr_of_string "            // note" ++ [10]) 9
  ++ [ pystr_of_string "            var length = ReadInt32(data, ref offset);"
         ++ [10];
       pystr_of_string "        }" ++ [10] ].

(** * Proofs *)

Section Basics.

Lemma len_nil {A} : len (@nil A) = 0.
Proof. reflexivity. Qed.

Lemma len_cons {A} (x : A) l : len (x :: l) = 1 + len l.
Proof. unfold len. simpl List.length. lia. Qed.

Lemma len_app {A} (l1 l2 : list A) : len (l1 ++ l2) = len l1 + len l2.
Proof. unfold len. rewrite length_app. lia. Qed.

Lemma len_nonneg {A} (l : list A) : 0 <= len l.
Proof. unfold len. lia. Qed.

Lemma len_le_split n z : len (le_split n z) = Z.of_nat n.
Proof. unfold len. now rewrite length_le_split. Qed.

Lemma pybind_Ret_inv {A B} (m : pyresult A) (k : A -> pyresult B) b :
  pybind m k = Ret b -> exists a, m = Ret a /\ k a = Ret b.
Proof. destruct m; simpl; [eauto | discriminate]. Qed.

Lemma pack_I_Ret n :
  0 <= n <= 4294967295 -> Struct.pack_I n = Ret (le_split 4 n).
Proof.
  intros Hn. unfold Struct.pack_I.
  destruct (Z.leb_spec 0 n), (Z.leb_spec n 4294967295); simpl; trivial; lia.
Qed.

Lemma pack_I_inv n b :
  Struct.pack_I n = Ret b -> b = le_split 4 n /\ 0 <= n <= 4294967295.
Proof.
  unfold Struct.pack_I.
  destruct (Z.leb_spec 0 n), (Z.leb_spec n 4294967295); simpl;
    intros E; inversion E; split; trivial; lia.
Qed.

Lemma pack_i_inv n b :
  Struct.pack_i n = Ret b -> b = le_split 4 n /\ -2147483648 <= n <= 2147483647.
Proof.
  unfold Struct.pack_i.
  destruct (Z.leb_spec (-2147483648) n), (Z.leb_spec n 2147483647); simpl;
    intros E; inversion E; split; trivial; lia.
Qed.

Lemma pack_q_inv n b :
  Struct.pack_q n = Ret b ->
  b = le_split 8 n /\ -9223372036854775808 <= n <= 9223372036854775807.
Proof.
  unfold Struct.pack_q.
  destruct (Z.leb_spec (-9223372036854775808) n),
           (Z.leb_spec n 9223372036854775807); simpl;
    intros E; inversion E; split; trivial; lia.
Qed.

End Basics.

(** ** [_encode_value], branch by branch *)

Section EncodeValue.

Lemma encode_value_None : _encode_value PyNone = Ret (Null, []).
Proof. reflexivity. Qed.

Lemma encode_value_Bool b :
  _encode_value (PyBool b) = Ret (Boolean, [byte.of_Z (if b then 1 else 0)]).
Proof. reflexivity. Qed.

Lemma encode_value_Int n :
  _encode_value (PyInt n) =
  if (-2147483648 <=? n) && (n <=? 2147483647)
  then (p <- Struct.pack_i n ;; Ret (Int32, p))
  else (p <- Struct.pack_q n ;; Ret (Int64, p)).
Proof. reflexivity. Qed.

Lemma encode_value_Float bits :
  _encode_value (PyFloat bits) = Ret (Double, Struct.pack_d bits).
Proof. reflexivity. Qed.

Lemma encode_value_Str s :
  _encode_value (PyStr s) =
  (encoded <- Utf8.encode s ;;
   n <- Struct.pack_I (len encoded) ;;
   Ret (String, n ++ encoded)).
Proof. reflexivity. Qed.

Lemma encode_value_Bytes b :
  _encode_value (PyBytes b) =
  (n <- Struct.pack_I (len b) ;; Ret (Bytes, n ++ b)).
Proof. reflexivity. Qed.

Lemma encode_value_Object text :
  _encode_value (PyObject text) = _encode_value (PyStr text).
Proof. reflexivity. Qed.

End EncodeValue.


(** ** Sizes *)

Section Sizes.

Lemma encode_cp_len c b : Utf8.encode_cp c = Ret b -> len b = Utf8.width c.
Proof.
  unfold Utf8.encode_cp, Utf8.width.
  destruct (Z.ltb_spec c 0); [discriminate|].
  destruct (Z.ltb_spec c 128); [intros E; inversion E; reflexivity|].
  destruct (Z.ltb_spec c 2048); [intros E; inversion E; reflexivity|].
  destruct (Z.ltb_spec c 65536).
  - destruct (Utf8.is_surrogate c); intros E; inversion E; reflexivity.
  - destruct (Z.ltb_spec c 1114112); intros E; inversion E; reflexivity.
Qed.

Lemma utf8_encode_len s : forall b,
  Utf8.encode s = Ret b -> len b = Utf8.byte_length s.
Proof.
  induction s as [|c s IH]; simpl; intros b E.
  - inversion E. reflexivity.
  - apply pybind_Ret_inv in E. destruct E as (b1 & E1 & E).
    apply pybind_Ret_inv in E. destruct E as (b2 & E2 & E).
    inversion E. rewrite len_app, (encode_cp_len _ _ E1), (IH _ E2).
    reflexivity.
Qed.

Lemma encode_value_payload_len v m p :
  _encode_value v = Ret (m, p) -> len p = payload_size v.
Proof.
  destruct v as [|b|n|bits|s|b|text]; simpl payload_size.
  - rewrite encode_value_None. intros E; inversion E. reflexivity.
  - rewrite encode_value_Bool. intros E; inversion E. reflexivity.
  - rewrite encode_value_Int.
    destruct ((-2147483648 <=? n) && (n <=? 2147483647)); intros E;
      apply pybind_Ret_inv in E; destruct E as (q & Eq & E); inversion E; subst.
    + apply pack_i_inv in Eq. destruct Eq as [-> _]. apply len_le_split.
    + apply pack_q_inv in Eq. destruct Eq as [-> _]. apply len_le_split.
  - rewrite encode_value_Float. intros E; inversion E. apply len_le_split.
  - rewrite encode_value_Str. intros E.
    apply pybind_Ret_inv in E. destruct E as (e & Ee & E).
    apply pybind_Ret_inv in E. destruct E as (q & Eq & E). inversion E; subst.
    apply pack_I_inv in Eq. destruct Eq as [-> _].
    rewrite len_app, len_le_split, (utf8_encode_len _ _ Ee). reflexivity.
  - rewrite encode_value_Bytes. intros E.
    apply pybind_Ret_inv in E. destruct E as (q & Eq & E). inversion E; subst.
    apply pack_I_inv in Eq. destruct Eq as [-> _].
    rewrite len_app, len_le_split. reflexivity.
  - rewrite encode_value_Object, encode_value_Str. intros E.
    apply pybind_Ret_inv in E. destruct E as (e & Ee & E).
    apply pybind_Ret_inv in E. destruct E as (q & Eq & E). inversion E; subst.
    apply pack_I_inv in Eq. destruct Eq as [-> _].
    rewrite len_app, len_le_split, (utf8_encode_len _ _ Ee). reflexivity.
Qed.

Lemma wire_column_inv c bs :
  wire_column c = Ret bs ->
  exists nb m p,
    Utf8.encode (fst c) = Ret nb /\ 0 <= len nb <= 4294967295 /\
    _encode_value (snd c) = Ret (m, p) /\
    bs = le_split 4 (len nb) ++ nb ++ [byte.of_Z (marker_value m)] ++ p.
Proof.
  unfold wire_column. intros E.
  apply pybind_Ret_inv in E. destruct E as (nb & Enb & E).
  apply pybind_Ret_inv in E. destruct E as (nl & Enl & E).
  apply pybind_Ret_inv in E. destruct E as ([m p] & Emp & E).
  inversion E; subst. apply pack_I_inv in Enl. destruct Enl as [-> Hr].
  exists nb, m, p. auto.
Qed.

Lemma wire_column_len c bs :
  wire_column c = Ret bs ->
  len bs = 4 + Utf8.byte_length (fst c) + 1 + payload_size (snd c).
Proof.
  intros E. apply wire_column_inv in E.
  destruct E as (nb & m & p & Enb & _ & Emp & ->).
  rewrite !len_app, len_le_split, len_cons, len_nil.
  rewrite (utf8_encode_len _ _ Enb), (encode_value_payload_len _ _ _ Emp). lia.
Qed.

Lemma wire_columns_len row : forall bs,
  wire_columns row = Ret bs -> 4 + len bs = encoded_size row.
Proof.
  unfold encoded_size.
  induction row as [|c row IH]; cbn [wire_columns fold_right]; intros bs E.
  - inversion E. reflexivity.
  - apply pybind_Ret_inv in E. destruct E as (a & Ea & E).
    apply pybind_Ret_inv in E. destruct E as (b & Eb & E). inversion E.
    rewrite len_app, (wire_column_len _ _ Ea). specialize (IH _ Eb). lia.
Qed.

End Sizes.

(** ** The loop of [serialize] against the pure wire image *)

Section Loop.

Lemma serialize_column_buffer name v st :
  pymap buffer (serialize_column name v st) =
  pymap (app (buffer st)) (wire_column (name, v)).
Proof.
  unfold serialize_column, wire_column, pymap. simpl fst. simpl snd.
  destruct (Utf8.encode name) as [nb|]; simpl; trivial.
  destruct (Struct.pack_I (len nb)) as [nl|]; simpl; trivial.
  destruct (_encode_value v) as [[m p]|]; simpl; trivial.
  now rewrite <- !app_assoc.
Qed.

Lemma serialize_columns_buffer row : forall st,
  pymap buffer (serialize_columns row st) =
  pymap (app (buffer st)) (wire_columns row).
Proof.
  induction row as [|[name v] row IH]; intros st; simpl.
  - unfold pymap. simpl. now rewrite app_nil_r.
  - pose proof (serialize_column_buffer name v st) as Hc.
    destruct (serialize_column name v st) as [st1|e];
      destruct (wire_column (name, v)) as [a|e']; simpl in Hc |- *;
      try discriminate.
    + inversion Hc as [Hb]. rewrite IH, Hb. unfold pymap.
      destruct (wire_columns row); simpl; trivial. now rewrite app_assoc.
    + inversion Hc. reflexivity.
Qed.

(** [encode] is the packed column count followed by the columns. *)
Lemma encode_wire row :
  encode row =
  (header <- Struct.pack_I (len row) ;;
   body <- wire_columns row ;;
   Ret (header ++ body)).
Proof.
  unfold encode, serialize.
  destruct (Struct.pack_I (len row)) as [h|]; simpl; trivial.
  pose proof (serialize_columns_buffer row
    (mkLoop h [mkStep 0 4 (PyInt (len row)) (_bytes_to_hex h)] 4)) as Hb.
  unfold pymap in Hb. simpl in Hb.
  destruct (serialize_columns row _) as [st1|e];
    destruct (wire_columns row) as [b|e']; simpl in Hb |- *;
    try discriminate; inversion Hb; reflexivity.
Qed.

Lemma chained_app a l1 b l2 c :
  chained a l1 b -> chained b l2 c -> chained a (l1 ++ l2) c.
Proof.
  revert a. induction l1 as [|s l1 IH]; simpl; intros a H1 H2.
  - now subst.
  - destruct H1 as [-> H1]. split; eauto.
Qed.

(** One loop iteration keeps the steps end to end and the running offset
    equal to the buffer length. *)
Lemma serialize_column_steps name v st st' :
  serialize_column name v st = Ret st' ->
  cur st = len (buffer st) ->
  chained 0 (steps st) (cur st) ->
  cur st' = len (buffer st') /\ chained 0 (steps st') (cur st').
Proof.
  unfold serialize_column. intros E Hcur Hch.
  apply pybind_Ret_inv in E. destruct E as (nb & Enb & E).
  apply pybind_Ret_inv in E. destruct E as (nl & Enl & E).
  apply pybind_Ret_inv in E. destruct E as ([m p] & Emp & E).
  inversion E; subst; clear E. simpl.
  apply pack_I_inv in Enl. destruct Enl as [-> _].
  split.
  - rewrite !len_app, len_le_split, len_cons, len_nil. lia.
  - rewrite <- !app_assoc.
    eapply chained_app; [exact Hch|]. simpl. repeat split; lia.
Qed.

Lemma serialize_columns_steps row : forall st st',
  serialize_columns row st = Ret st' ->
  cur st = len (buffer st) ->
  chained 0 (steps st) (cur st) ->
  cur st' = len (buffer st') /\ chained 0 (steps st') (cur st').
Proof.
  induction row as [|[name v] row IH]; simpl; intros st st' E Hcur Hch.
  - inversion E; subst. auto.
  - apply pybind_Ret_inv in E. destruct E as (st1 & E1 & E).
    destruct (serialize_column_steps _ _ _ _ E1 Hcur Hch). eauto.
Qed.

Lemma serialize_columns_steps_length row : forall st st',
  serialize_columns row st = Ret st' ->
  (List.length (steps st) <= List.length (steps st'))%nat.
Proof.
  induction row as [|[name v] row IH]; simpl; intros st st' E.
  - inversion E; subst. lia.
  - apply pybind_Ret_inv in E. destruct E as (st1 & E1 & E).
    apply IH in E. unfold serialize_column in E1.
    apply pybind_Ret_inv in E1. destruct E1 as (nb & Enb & E1).
    apply pybind_Ret_inv in E1. destruct E1 as (nl & Enl & E1).
    apply pybind_Ret_inv in E1. destruct E1 as ([m p] & Emp & E1).
    inversion E1; subst; clear E1. simpl in E.
    rewrite !length_app in E. lia.
Qed.

Lemma serialize_chained row buf stps :
  serialize row = Ret (buf, stps) ->
  stps <> [] /\ chained 0 stps (len buf).
Proof.
  unfold serialize. intros E.
  apply pybind_Ret_inv in E. destruct E as (h & Eh & E).
  apply pybind_Ret_inv in E. destruct E as (st' & Es & E).
  inversion E; subst; clear E.
  apply pack_I_inv in Eh. destruct Eh as [-> _].
  split.
  - apply serialize_columns_steps_length in Es. simpl in Es.
    intros Hnil. rewrite Hnil in Es. simpl in Es. lia.
  - destruct (serialize_columns_steps _ _ _ Es) as [Hc Hs]; simpl.
    + now rewrite len_le_split.
    + auto.
    + now rewrite <- Hc.
Qed.

End Loop.

(** ** UTF-8: decoding inverts encoding *)

Section Utf8RoundTrip.

Lemma unsigned_of_Z_small x :
  0 <= x < 256 -> byte.unsigned (byte.of_Z x) = x.
Proof.
  intros H. rewrite byte.unsigned_of_Z. unfold byte.wrap.
  apply Z.mod_small. lia.
Qed.

Lemma is_cont_of_Z y :
  0 <= y < 64 -> Utf8.is_cont (byte.of_Z (128 + y)) = true.
Proof.
  intros H. unfold Utf8.is_cont. rewrite unsigned_of_Z_small by lia.
  apply andb_true_iff. split; [apply Z.leb_le | apply Z.ltb_lt]; lia.
Qed.

Lemma cont_bits_of_Z y :
  0 <= y < 64 -> Utf8.cont_bits (byte.of_Z (128 + y)) = y.
Proof.
  intros H. unfold Utf8.cont_bits. rewrite unsigned_of_Z_small by lia. lia.
Qed.

Lemma checked_scalar c w :
  Utf8.is_scalar c = true -> Utf8.width c = w -> Utf8.checked c w = c.
Proof.
  intros Hs Hw. unfold Utf8.checked. rewrite Hs, Hw, Z.eqb_refl. reflexivity.
Qed.

Ltac ltb_cases :=
  repeat match goal with
  | |- context [?a <? ?b] => destruct (Z.ltb_spec a b)
  | |- context [?a <=? ?b] => destruct (Z.leb_spec a b)
  end.

Lemma div_mod_64 c : c = 64 * (c / 64) + c mod 64 /\ 0 <= c mod 64 < 64.
Proof.
  split; [apply Z.div_mod | apply Z.mod_pos_bound]; lia.
Qed.

Lemma lead_class_1 x : 0 <= x < 128 -> Utf8.lead_class x = 1%nat.
Proof. intros H. unfold Utf8.lead_class. ltb_cases; trivial; lia. Qed.

Lemma lead_class_2 y : 0 <= y < 32 -> Utf8.lead_class (192 + y) = 2%nat.
Proof. intros H. unfold Utf8.lead_class. ltb_cases; trivial; lia. Qed.

Lemma lead_class_3 y : 0 <= y < 16 -> Utf8.lead_class (224 + y) = 3%nat.
Proof. intros H. unfold Utf8.lead_class. ltb_cases; trivial; lia. Qed.

Lemma lead_class_4 y : 0 <= y < 8 -> Utf8.lead_class (240 + y) = 4%nat.
Proof. intros H. unfold Utf8.lead_class. ltb_cases; trivial; lia. Qed.

Lemma decode_cp_1 c rest :
  0 <= c < 128 ->
  Utf8.decode (byte.of_Z c :: rest) = c :: Utf8.decode rest.
Proof.
  intros H. cbn [Utf8.decode]. rewrite unsigned_of_Z_small by lia.
  now rewrite lead_class_1.
Qed.

Lemma decode_cp_2 c rest :
  128 <= c < 2048 ->
  Utf8.decode (byte.of_Z (192 + c / 64) :: byte.of_Z (128 + c mod 64) :: rest)
  = c :: Utf8.decode rest.
Proof.
  intros H. destruct (div_mod_64 c) as [Hc Hm].
  assert (2 <= c / 64 < 32) by lia.
  cbn [Utf8.decode]. rewrite unsigned_of_Z_small by lia.
  rewrite lead_class_2 by lia.
  rewrite is_cont_of_Z, cont_bits_of_Z by lia.
  replace ((192 + c / 64 - 192) * 64 + c mod 64) with c by lia.
  rewrite checked_scalar; trivial.
  - unfold Utf8.is_scalar, Utf8.is_surrogate. ltb_cases; trivial; lia.
  - unfold Utf8.width. ltb_cases; trivial; lia.
Qed.

Lemma decode_cp_3 c rest :
  2048 <= c < 65536 -> Utf8.is_surrogate c = false ->
  Utf8.decode (byte.of_Z (224 + c / 4096)
                 :: byte.of_Z (128 + (c / 64) mod 64)
                 :: byte.of_Z (128 + c mod 64) :: rest)
  = c :: Utf8.decode rest.
Proof.
  intros H Hsur. destruct (div_mod_64 c) as [Hc Hm].
  destruct (div_mod_64 (c / 64)) as [Hc1 Hm1].
  assert (Hq : c / 64 / 64 = c / 4096)
    by (rewrite Z.div_div by lia; reflexivity).
  rewrite Hq in Hc1.
  assert (0 <= c / 4096 < 16) by lia.
  cbn [Utf8.decode]. rewrite unsigned_of_Z_small by lia.
  rewrite lead_class_3 by lia.
  rewrite !is_cont_of_Z, !cont_bits_of_Z by lia.
  cbn [andb].
  replace ((224 + c / 4096 - 224) * 4096 + c / 64 mod 64 * 64 + c mod 64)
    with c by lia.
  rewrite checked_scalar; trivial.
  - unfold Utf8.is_scalar. rewrite Hsur. ltb_cases; trivial; lia.
  - unfold Utf8.width. ltb_cases; trivial; lia.
Qed.

Lemma decode_cp_4 c rest :
  65536 <= c < 1114112 ->
  Utf8.decode (byte.of_Z (240 + c / 262144)
                 :: byte.of_Z (128 + (c / 4096) mod 64)
                 :: byte.of_Z (128 + (c / 64) mod 64)
                 :: byte.of_Z (128 + c mod 64) :: rest)
  = c :: Utf8.decode rest.
Proof.
  intros H. destruct (div_mod_64 c) as [Hc Hm].
  destruct (div_mod_64 (c / 64)) as [Hc1 Hm1].
  destruct (div_mod_64 (c / 4096)) as [Hc2 Hm2].
  assert (Hq : c / 64 / 64 = c / 4096)
    by (rewrite Z.div_div by lia; reflexivity).
  assert (Hq' : c / 4096 / 64 = c / 262144)
    by (rewrite Z.div_div by lia; reflexivity).
  rewrite Hq in Hc1. rewrite Hq' in Hc2.
  assert (0 <= c / 262144 < 8) by lia.
  cbn [Utf8.decode]. rewrite unsigned_of_Z_small by lia.
  rewrite lead_class_4 by lia.
  rewrite !is_cont_of_Z, !cont_bits_of_Z by lia.
  cbn [andb].
  replace ((240 + c / 262144 - 240) * 262144 + c / 4096 mod 64 * 4096 +
           c / 64 mod 64 * 64 + c mod 64) with c by lia.
  rewrite checked_scalar; trivial.
  - unfold Utf8.is_scalar, Utf8.is_surrogate. ltb_cases; trivial; lia.
  - unfold Utf8.width. ltb_cases; trivial; lia.
Qed.

Lemma decode_encode_cp c bs rest :
  Utf8.encode_cp c = Ret bs ->
  Utf8.decode (bs ++ rest) = c :: Utf8.decode rest.
Proof.
  unfold Utf8.encode_cp.
  destruct (Z.ltb_spec c 0); [discriminate|].
  destruct (Z.ltb_spec c 128).
  { intros E; inversion E. apply decode_cp_1. lia. }
  destruct (Z.ltb_spec c 2048).
  { intros E; inversion E. apply decode_cp_2. lia. }
  destruct (Z.ltb_spec c 65536).
  { destruct (Utf8.is_surrogate c) eqn:Hsur; [discriminate|].
    intros E; inversion E. apply decode_cp_3; trivial. lia. }
  destruct (Z.ltb_spec c 1114112); [|discriminate].
  intros E; inversion E. apply decode_cp_4. lia.
Qed.

Lemma utf8_decode_encode s : forall bs,
  Utf8.encode s = Ret bs -> Utf8.decode bs = s.
Proof.
  induction s as [|c s IH]; cbn [Utf8.encode]; intros bs E.
  - inversion E. reflexivity.
  - apply pybind_Ret_inv in E. destruct E as (b1 & E1 & E).
    apply pybind_Ret_inv in E. destruct E as (b2 & E2 & E).
    inversion E. rewrite (decode_encode_cp _ _ _ E1), (IH _ E2). reflexivity.
Qed.

Lemma encode_cp_scalar c :
  Utf8.is_scalar c = true -> exists bs, Utf8.encode_cp c = Ret bs.
Proof.
  unfold Utf8.is_scalar, Utf8.encode_cp. intros Hs.
  apply andb_true_iff in Hs. destruct Hs as [Hr Hsur].
  apply andb_true_iff in Hr. destruct Hr as [H0 H1].
  apply Z.leb_le in H0. apply Z.ltb_lt in H1.
  apply negb_true_iff in Hsur. rewrite Hsur.
  ltb_cases; eauto; lia.
Qed.

Lemma utf8_encode_scalars s :
  forallb Utf8.is_scalar s = true -> exists bs, Utf8.encode s = Ret bs.
Proof.
  induction s as [|c s IH]; cbn [forallb Utf8.encode]; intros H.
  - eauto.
  - apply andb_true_iff in H. destruct H as [Hc Hs].
    destruct (encode_cp_scalar _ Hc) as [b1 ->].
    destruct (IH Hs) as [b2 ->]. simpl. eauto.
Qed.

End Utf8RoundTrip.

(** ** The primitive reads *)

Section Primitives.
Import Decoder.

Lemma int32_small z : -2147483648 <= z <= 2147483647 -> int32 z = z.
Proof. intros H. unfold int32. rewrite Z.mod_small by lia. lia. Qed.

Lemma int64_small z :
  -9223372036854775808 <= z <= 9223372036854775807 -> int64 z = z.
Proof. intros H. unfold int64. rewrite Z.mod_small by lia. lia. Qed.

(** Reading back [le_split]: the value modulo the width, re-centred. *)
Lemma int32_le_split z :
  -2147483648 <= z <= 2147483647 -> int32 (le_combine (le_split 4 z)) = z.
Proof.
  intros H. rewrite le_combine_split. unfold int32.
  change (2 ^ (Z.of_nat 4 * 8)) with 4294967296.
  rewrite Zplus_mod_idemp_l, Z.mod_small by lia. lia.
Qed.

Lemma int64_le_split z :
  -9223372036854775808 <= z <= 9223372036854775807 ->
  int64 (le_combine (le_split 8 z)) = z.
Proof.
  intros H. rewrite le_combine_split. unfold int64.
  change (2 ^ (Z.of_nat 8 * 8)) with 18446744073709551616.
  rewrite Zplus_mod_idemp_l, Z.mod_small by lia. lia.
Qed.

Lemma unsigned_le_split n z :
  0 <= z < 2 ^ (Z.of_nat n * 8) -> le_combine (le_split n z) = z.
Proof. intros H. rewrite le_combine_split. now apply Z.mod_small. Qed.

Lemma fetch_app pre e post c :
  pos c = len pre ->
  fetch (len e) (pre ++ e ++ post) c =
  (Ok e, mkCursor (pos c + len e) (accesses c ++ [(pos c, len e)])).
Proof.
  intros Hpos. unfold fetch. rewrite Hpos.
  pose proof (len_nonneg pre). pose proof (len_nonneg e).
  pose proof (len_nonneg post).
  replace ((0 <=? len pre) && (0 <=? len e)
           && (len pre + len e <=? len (pre ++ e ++ post))) with true.
  - unfold len. rewrite !Nat2Z.id.
    rewrite skipn_app, skipn_all, Nat.sub_diag. cbn [skipn app].
    rewrite firstn_app, firstn_all, Nat.sub_diag. cbn [firstn].
    now rewrite app_nil_r.
  - symmetry. rewrite !andb_true_iff, !Z.leb_le, !len_app. lia.
Qed.

Lemma need_ok n data c :
  0 <= n -> 0 <= pos c -> pos c + n <= len data -> len data <= max_span ->
  need n data c = (Ok tt, c).
Proof.
  unfold need, max_span. intros Hn Hp Hle Hmax.
  rewrite int32_small by lia.
  destruct (Z.gtb_spec (pos c + n) (len data)); [lia | reflexivity].
Qed.

Lemma need_short n data c :
  0 <= n -> 0 <= pos c -> len data < pos c + n -> pos c + n <= max_span ->
  need n data c = (Fail TruncatedData, c).
Proof.
  unfold need, max_span. intros Hn Hp Hlt Hmax.
  rewrite int32_small by lia.
  destruct (Z.gtb_spec (pos c + n) (len data)); [reflexivity | lia].
Qed.

Lemma check_length_ok n data c :
  0 <= n -> 0 <= pos c -> pos c + n <= len data -> len data <= max_span ->
  check_length n data c = (Ok tt, c).
Proof.
  unfold check_length, max_span. intros Hn Hp Hle Hmax.
  destruct (Z.ltb_spec n 0); [lia|].
  rewrite int32_small by lia.
  destruct (Z.gtb_spec (pos c + n) (len data)); [lia | reflexivity].
Qed.

Lemma check_length_short n data c :
  0 <= n -> 0 <= pos c -> len data < pos c + n -> pos c + n <= max_span ->
  check_length n data c = (Fail TruncatedData, c).
Proof.
  unfold check_length, max_span. intros Hn Hp Hlt Hmax.
  destruct (Z.ltb_spec n 0); [lia|].
  rewrite int32_small by lia.
  destruct (Z.gtb_spec (pos c + n) (len data)); [reflexivity | lia].
Qed.

Lemma fixed_read_run {A} n (f : list byte -> A) pre e post c :
  len e = n -> pos c = len pre -> len (pre ++ e ++ post) <= max_span ->
  fixed_read n f (pre ++ e ++ post) c =
  (Ok (f e), mkCursor (pos c + n) (accesses c ++ [(pos c, n)])).
Proof.
  intros He Hpos Hmax. unfold fixed_read, bind.
  pose proof (len_nonneg pre). pose proof (len_nonneg e).
  pose proof (len_nonneg post).
  rewrite need_ok; trivial; try lia.
  - subst n. rewrite fetch_app by trivial. reflexivity.
  - rewrite !len_app. lia.
Qed.

Lemma fixed_read_short {A} n (f : list byte -> A) pre e1 c :
  len e1 < n -> pos c = len pre -> len pre + n <= max_span ->
  fixed_read n f (pre ++ e1) c = (Fail TruncatedData, c).
Proof.
  intros He Hpos Hmax. unfold fixed_read, bind.
  pose proof (len_nonneg pre). pose proof (len_nonneg e1).
  rewrite need_short; trivial; try lia.
  rewrite len_app. lia.
Qed.

Lemma decodes_fixed {A} n (f : list byte -> A) e :
  len e = n -> decodes (fixed_read n f) e (f e).
Proof.
  intros He pre post c Hpos Hmax.
  rewrite (fixed_read_run n f pre e post c He Hpos Hmax).
  eexists. split; [reflexivity|]. simpl. lia.
Qed.

Lemma truncates_fixed {A} n (f : list byte -> A) e :
  len e = n -> truncates (fixed_read n f) e.
Proof.
  intros He pre e1 e2 c -> Hne Hpos Hmax.
  exists c. apply fixed_read_short; trivial.
  - rewrite len_app in He. destruct e2; [congruence|].
    rewrite len_cons in He. pose proof (len_nonneg e2). lia.
  - rewrite len_app in Hmax. lia.
Qed.

End Primitives.

(** ** Composing readers *)

Section Combinators.
Import Decoder.

Lemma decodes_ret {A} (a : A) : decodes (ret a) [] a.
Proof.
  intros pre post c Hpos Hmax. exists c. split; [reflexivity|].
  rewrite len_nil. lia.
Qed.

Lemma truncates_nil {A} (m : reader A) : truncates m [].
Proof.
  intros pre e1 e2 c Heq Hne. symmetry in Heq.
  apply app_eq_nil in Heq. destruct Heq; contradiction.
Qed.

Lemma decodes_bind {A B} (m : reader A) (k : A -> reader B) e1 e2 a b :
  decodes m e1 a -> decodes (k a) e2 b -> decodes (bind m k) (e1 ++ e2) b.
Proof.
  intros Hm Hk pre post c Hpos Hmax.
  rewrite <- app_assoc in Hmax |- *.
  destruct (Hm pre (e2 ++ post) c Hpos Hmax) as (c1 & E1 & P1).
  unfold bind. rewrite E1.
  assert (Hpos1 : pos c1 = len (pre ++ e1)) by (rewrite len_app; lia).
  rewrite app_assoc in Hmax |- *.
  destruct (Hk (pre ++ e1) post c1 Hpos1 Hmax) as (c2 & E2 & P2).
  exists c2. split; [exact E2|]. rewrite len_app. lia.
Qed.

Lemma truncates_bind {A B} (m : reader A) (k : A -> reader B) e1 e2 a :
  decodes m e1 a -> truncates m e1 -> truncates (k a) e2 ->
  truncates (bind m k) (e1 ++ e2).
Proof.
  intros Hm Tm Tk pre x y c Heq Hne Hpos Hmax.
  apply app_eq_app in Heq. destruct Heq as (l & [[-> ->] | [-> ->]]).
  - (* the buffer ends inside [e1], or exactly at its end *)
    destruct l as [|z l].
    + rewrite app_nil_r in *. cbn [app] in Hne.
      rewrite <- (app_nil_r (pre ++ x)), <- app_assoc.
      assert (Hmax1 : len (pre ++ x ++ []) <= max_span).
      { rewrite !len_app in *. rewrite len_nil. pose proof (len_nonneg e2). lia. }
      destruct (Hm pre [] c Hpos Hmax1) as (c1 & E1 & P1).
      unfold bind. rewrite E1.
      assert (Hpos1 : pos c1 = len (pre ++ x)) by (rewrite len_app; lia).
      rewrite app_nil_r.
      rewrite <- (app_nil_r (pre ++ x)).
      apply (Tk (pre ++ x) [] e2 c1); trivial.
      now rewrite <- app_assoc.
    + assert (Hmax1 : len (pre ++ x ++ z :: l) <= max_span).
      { rewrite !len_app in *. pose proof (len_nonneg e2). lia. }
      destruct (Tm pre x (z :: l) c eq_refl ltac:(discriminate) Hpos Hmax1)
        as (c1 & E1).
      unfold bind. rewrite E1. eauto.
  - (* the buffer ends inside [e2] *)
    assert (Hmax1 : len (pre ++ e1 ++ l) <= max_span).
    { rewrite !len_app in *. pose proof (len_nonneg y). lia. }
    destruct (Hm pre l c Hpos Hmax1) as (c1 & E1 & P1).
    unfold bind. rewrite E1.
    assert (Hpos1 : pos c1 = len (pre ++ e1)) by (rewrite len_app; lia).
    rewrite app_assoc.
    apply (Tk (pre ++ e1) l y c1); trivial.
    now rewrite <- app_assoc.
Qed.

Lemma decodes_bind_ret {A B} (m : reader A) (f : A -> B) e a :
  decodes m e a -> decodes (bind m (fun x => ret (f x))) e (f a).
Proof.
  intros Hm. rewrite <- (app_nil_r e).
  eapply decodes_bind; [exact Hm | apply decodes_ret].
Qed.

Lemma truncates_bind_ret {A B} (m : reader A) (f : A -> B) e :
  truncates m e -> truncates (bind m (fun x => ret (f x))) e.
Proof.
  intros Tm pre e1 e2 c Heq Hne Hpos Hmax.
  destruct (Tm pre e1 e2 c Heq Hne Hpos Hmax) as (c1 & E1).
  unfold bind. rewrite E1. eauto.
Qed.

End Combinators.

(** ** Length-prefixed reads *)

Section LengthPrefixed.
Import Decoder.

Lemma ReadInt32_run pre e post c :
  len e = 4 -> pos c = len pre -> len (pre ++ e ++ post) <= max_span ->
  ReadInt32 (pre ++ e ++ post) c =
  (Ok (int32 (le_combine e)), mkCursor (pos c + 4) (accesses c ++ [(pos c, 4)])).
Proof. exact (fixed_read_run 4 (fun b => int32 (le_combine b)) pre e post c). Qed.

Lemma ReadInt32_short pre e1 c :
  len e1 < 4 -> pos c = len pre -> len pre + 4 <= max_span ->
  ReadInt32 (pre ++ e1) c = (Fail TruncatedData, c).
Proof. exact (fixed_read_short 4 (fun b => int32 (le_combine b)) pre e1 c). Qed.

Lemma ReadBytes_decodes payload :
  decodes ReadBytes (le_split 4 (len payload) ++ payload) payload.
Proof.
  intros pre post c Hpos Hmax.
  pose proof (len_nonneg pre). pose proof (len_nonneg payload).
  pose proof (len_nonneg post).
  assert (Hsz : len pre + 4 + len payload + len post <= max_span).
  { rewrite !len_app, len_le_split in Hmax. lia. }
  unfold max_span in Hsz.
  rewrite <- app_assoc in Hmax |- *.
  unfold ReadBytes, bind.
  rewrite ReadInt32_run by (trivial; apply len_le_split).
  rewrite int32_le_split by lia.
  rewrite check_length_ok
    by (cbn [pos]; rewrite ?len_app, ?len_le_split; unfold max_span; lia).
  rewrite app_assoc.
  rewrite fetch_app by (cbn [pos]; rewrite len_app, len_le_split; lia).
  eexists. split; [reflexivity|].
  cbn [pos]. rewrite len_app, len_le_split. lia.
Qed.

Lemma ReadBytes_truncates payload :
  truncates ReadBytes (le_split 4 (len payload) ++ payload).
Proof.
  intros pre e1 e2 c Heq Hne Hpos Hmax.
  pose proof (len_nonneg pre). pose proof (len_nonneg payload).
  assert (Hsz : len pre + 4 + len payload <= max_span).
  { rewrite !len_app, len_le_split in Hmax. lia. }
  assert (Hcut : len e1 < 4 \/
                 exists l, e1 = le_split 4 (len payload) ++ l
                           /\ payload = l ++ e2).
  { apply app_eq_app in Heq. destruct Heq as (l & [[Ha Hb] | [Ha Hb]]).
    - destruct l as [|z l].
      + right. exists []. rewrite app_nil_r in Ha |- *. cbn [app] in Hb |- *.
        split; congruence.
      + left. apply (f_equal len) in Ha.
        rewrite len_le_split, len_app, len_cons in Ha.
        pose proof (len_nonneg l). lia.
    - right. exists l. auto. }
  unfold ReadBytes, bind.
  destruct Hcut as [Hshort | (l & -> & Hp)].
  - rewrite ReadInt32_short by (trivial; lia). eauto.
  - assert (Hl : 0 < len e2).
    { destruct e2; [contradiction|]. rewrite len_cons.
      pose proof (len_nonneg e2). lia. }
    pose proof (len_nonneg l).
    assert (Hpl : len payload = len l + len e2) by (rewrite Hp; apply len_app).
    unfold max_span in Hsz.
    rewrite ReadInt32_run
      by (trivial; rewrite ?len_app, ?len_le_split; unfold max_span; lia).
    rewrite int32_le_split by lia.
    rewrite check_length_short
      by (cbn [pos]; rewrite ?len_app, ?len_le_split; unfold max_span; lia).
    eauto.
Qed.

Lemma ReadString_as_bytes data c :
  ReadString data c =
  bind ReadBytes (fun b => ret (Utf8.decode b)) data c.
Proof.
  unfold ReadString, ReadBytes, bind.
  destruct (ReadInt32 data c) as [[n| |] c1]; trivial.
  destruct (check_length n data c1) as [[[]| |] c2]; trivial.
Qed.

Lemma ReadString_decodes s bs :
  Utf8.encode s = Ret bs ->
  decodes ReadString (le_split 4 (len bs) ++ bs) s.
Proof.
  intros E pre post c Hpos Hmax. rewrite ReadString_as_bytes.
  rewrite <- (utf8_decode_encode _ _ E).
  exact (decodes_bind_ret ReadBytes Utf8.decode _ _
           (ReadBytes_decodes bs) pre post c Hpos Hmax).
Qed.

Lemma ReadString_truncates bs :
  truncates ReadString (le_split 4 (len bs) ++ bs).
Proof.
  intros pre e1 e2 c Heq Hne Hpos Hmax. rewrite ReadString_as_bytes.
  exact (truncates_bind_ret ReadBytes Utf8.decode _
           (ReadBytes_truncates bs) pre e1 e2 c Heq Hne Hpos Hmax).
Qed.

End LengthPrefixed.

(** ** Values, columns and rows *)

Section RowReaders.
Import Decoder.

Lemma marker_byte m :
  le_combine [byte.of_Z (marker_value m)] = marker_value m.
Proof. destruct m; reflexivity. Qed.

(** What [read_value] yields on the payload [_encode_value] wrote. *)
Lemma read_value_encoded v m p :
  _encode_value v = Ret (m, p) ->
  exists dv, decodes (read_value (marker_value m)) p dv
             /\ truncates (read_value (marker_value m)) p
             /\ (representable_value v = true -> denote dv = v).
Proof.
  assert (HStr : forall s, _encode_value (PyStr s) = Ret (m, p) ->
    decodes (read_value (marker_value m)) p (VString s)
    /\ truncates (read_value (marker_value m)) p).
  { intros s. rewrite encode_value_Str. intros E.
    apply pybind_Ret_inv in E. destruct E as (e & Ee & E).
    apply pybind_Ret_inv in E. destruct E as (q & Eq & E). inversion E; subst.
    apply pack_I_inv in Eq. destruct Eq as [-> _].
    cbn [marker_value read_value]. split.
    - apply (decodes_bind_ret ReadString VString).
      now apply ReadString_decodes.
    - apply (truncates_bind_ret ReadString VString).
      apply ReadString_truncates. }
  destruct v as [|b|n|bits|s|b|text]; cbn [representable_value].
  - rewrite encode_value_None. intros E; inversion E; subst.
    exists VNull. repeat split; [apply decodes_ret | apply truncates_nil].
  - rewrite encode_value_Bool. intros E; inversion E; subst.
    exists (VBoolean b). cbn [marker_value read_value].
    repeat split.
    + apply (decodes_bind_ret ReadBoolean VBoolean).
      destruct b;
        exact (decodes_fixed 1 (fun x => negb (le_combine x =? 0)) [_] eq_refl).
    + apply (truncates_bind_ret ReadBoolean VBoolean).
      exact (truncates_fixed 1 (fun x => negb (le_combine x =? 0)) [_] eq_refl).
  - rewrite encode_value_Int.
    destruct ((-2147483648 <=? n) && (n <=? 2147483647)) eqn:H32; intros E;
      apply pybind_Ret_inv in E; destruct E as (q & Eq & E); inversion E; subst.
    + apply pack_i_inv in Eq. destruct Eq as [-> Hn].
      exists (VInt32 n). cbn [marker_value read_value].
      repeat split.
      * apply (decodes_bind_ret ReadInt32 VInt32).
        pose proof (decodes_fixed 4 (fun x => int32 (le_combine x))
                      (le_split 4 n) (len_le_split 4 n)) as H.
        cbv beta in H. rewrite int32_le_split in H by lia. exact H.
      * apply (truncates_bind_ret ReadInt32 VInt32).
        exact (truncates_fixed 4 _ _ (len_le_split 4 n)).
    + apply pack_q_inv in Eq. destruct Eq as [-> Hn].
      exists (VInt64 n). cbn [marker_value read_value].
      repeat split.
      * apply (decodes_bind_ret ReadInt64 VInt64).
        pose proof (decodes_fixed 8 (fun x => int64 (le_combine x))
                      (le_split 8 n) (len_le_split 8 n)) as H.
        cbv beta in H. rewrite int64_le_split in H by lia. exact H.
      * apply (truncates_bind_ret ReadInt64 VInt64).
        exact (truncates_fixed 8 _ _ (len_le_split 8 n)).
  - rewrite encode_value_Float. intros E; inversion E; subst.
    exists (VDouble (le_combine (le_split 8 bits))).
    cbn [marker_value read_value]. unfold Struct.pack_d. repeat split.
    + apply (decodes_bind_ret ReadDouble VDouble).
      exact (decodes_fixed 8 le_combine _ (len_le_split 8 bits)).
    + apply (truncates_bind_ret ReadDouble VDouble).
      exact (truncates_fixed 8 _ _ (len_le_split 8 bits)).
    + intros Hr. apply andb_true_iff in Hr. destruct Hr as [Hlo Hhi].
      apply Z.leb_le in Hlo. apply Z.ltb_lt in Hhi.
      cbn [denote]. rewrite (unsigned_le_split 8 bits) by (simpl; lia).
      reflexivity.
  - intros E. exists (VString s). destruct (HStr s E). auto.
  - rewrite encode_value_Bytes. intros E.
    apply pybind_Ret_inv in E. destruct E as (q & Eq & E). inversion E; subst.
    apply pack_I_inv in Eq. destruct Eq as [-> _].
    exists (VBytes b). cbn [marker_value read_value].
    repeat split.
    + apply (decodes_bind_ret ReadBytes VBytes). apply ReadBytes_decodes.
    + apply (truncates_bind_ret ReadBytes VBytes). apply ReadBytes_truncates.
  - rewrite encode_value_Object. intros E. exists (VString text).
    destruct (HStr text E). repeat split; trivial. discriminate.
Qed.

Lemma ReadMarker_decodes m :
  decodes ReadMarker [byte.of_Z (marker_value m)] (marker_value m).
Proof.
  pose proof (decodes_fixed 1 le_combine [byte.of_Z (marker_value m)] eq_refl) as H.
  rewrite marker_byte in H. exact H.
Qed.

Lemma read_column_encoded c bs :
  wire_column c = Ret bs ->
  exists dc, decodes read_column bs dc /\ truncates read_column bs
             /\ (representable_value (snd c) = true ->
                 (fst dc, denote (snd dc)) = c).
Proof.
  intros E. apply wire_column_inv in E.
  destruct E as (nb & m & p & Enb & _ & Emp & ->).
  destruct (read_value_encoded _ _ _ Emp) as (dv & Dv & Tv & Hdv).
  exists (fst c, dv).
  pose proof (ReadString_decodes _ _ Enb) as Dn.
  pose proof (ReadString_truncates nb) as Tn.
  pose proof (ReadMarker_decodes m) as Dm.
  assert (Tm : truncates ReadMarker [byte.of_Z (marker_value m)])
    by exact (truncates_fixed 1 le_combine [_] eq_refl).
  replace (le_split 4 (len nb) ++ nb ++ [byte.of_Z (marker_value m)] ++ p)
    with ((le_split 4 (len nb) ++ nb)
            ++ [byte.of_Z (marker_value m)] ++ p ++ [])
    by (now rewrite app_nil_r, <- app_assoc).
  unfold read_column. repeat split.
  - eapply decodes_bind; [exact Dn|].
    eapply decodes_bind; [exact Dm|].
    eapply decodes_bind; [exact Dv|]. apply decodes_ret.
  - eapply truncates_bind; [exact Dn | exact Tn |].
    eapply truncates_bind; [exact Dm | exact Tm |].
    eapply truncates_bind; [exact Dv | exact Tv |]. apply truncates_nil.
  - intros Hr. destruct c; cbn [fst snd] in *. now rewrite Hdv.
Qed.

Lemma read_columns_encoded (row : pydict) : forall bs,
  wire_columns row = Ret bs ->
  exists drow, decodes (read_columns (List.length row)) bs drow
               /\ truncates (read_columns (List.length row)) bs
               /\ (forallb (fun c => representable_value (snd c)) row = true ->
                   denote_row drow = row).
Proof.
  induction row as [|c row IH]; cbn [forallb wire_columns]; intros bs E.
  - inversion E; subst. exists []. repeat split;
      [apply decodes_ret | apply truncates_nil].
  - apply pybind_Ret_inv in E. destruct E as (a & Ea & E).
    apply pybind_Ret_inv in E. destruct E as (b & Eb & E).
    inversion E; subst; clear E.
    destruct (read_column_encoded _ _ Ea) as (dc & Dc & Tc & Hdc).
    destruct (IH _ Eb) as (drow & Dr & Tr & Hdrow).
    exists (dc :: drow).
    cbn [List.length read_columns].
    replace (a ++ b) with (a ++ b ++ []) by now rewrite app_nil_r.
    repeat split.
    + eapply decodes_bind; [exact Dc|].
      eapply decodes_bind; [exact Dr|]. apply decodes_ret.
    + eapply truncates_bind; [exact Dc | exact Tc |].
      eapply truncates_bind; [exact Dr | exact Tr |]. apply truncates_nil.
    + intros Hr. apply andb_true_iff in Hr. destruct Hr as [Hc Hrow].
      unfold denote_row in *. cbn [List.map].
      now rewrite (Hdc Hc), (Hdrow Hrow).
Qed.

Lemma ReadUInt32_decodes n :
  0 <= n <= 4294967295 -> decodes ReadUInt32 (le_split 4 n) n.
Proof.
  intros Hn.
  pose proof (decodes_fixed 4 le_combine (le_split 4 n) (len_le_split 4 n)) as H.
  rewrite (unsigned_le_split 4 n) in H by (simpl; lia). exact H.
Qed.

(** The whole row: [read_row] on [encode row]. *)
Lemma read_row_encoded (row : pydict) buf :
  encode row = Ret buf ->
  exists drow, decodes read_row buf drow /\ truncates read_row buf
               /\ (forallb (fun c => representable_value (snd c)) row = true ->
                   denote_row drow = row).
Proof.
  intros E. rewrite encode_wire in E.
  apply pybind_Ret_inv in E. destruct E as (h & Eh & E).
  apply pybind_Ret_inv in E. destruct E as (body & Eb & E).
  inversion E; subst; clear E.
  apply pack_I_inv in Eh. destruct Eh as [-> Hn].
  destruct (read_columns_encoded _ _ Eb) as (drow & Dr & Tr & Hd).
  exists drow.
  pose proof (ReadUInt32_decodes _ Hn) as Dc.
  assert (Tc : truncates ReadUInt32 (le_split 4 (len row)))
    by exact (truncates_fixed 4 le_combine _ (len_le_split 4 _)).
  assert (Hk : read_columns (Z.to_nat (len row)) = read_columns (List.length row))
    by (unfold len; now rewrite Nat2Z.id).
  unfold read_row. repeat split; trivial.
  - eapply decodes_bind; [exact Dc|]. now rewrite Hk.
  - eapply truncates_bind; [exact Dc | exact Tc |]. now rewrite Hk.
Qed.

End RowReaders.

(** ** Every access of the reader is inside the buffer, unless it panics *)

Section Safety.
Import Decoder.

Lemma safe_ret {A} (a : A) : safe (ret a).
Proof. intros data c H _. exact H. Qed.

Lemma safe_fail {A} f : safe (@fail A f).
Proof. intros data c H _. exact H. Qed.

Lemma safe_need n : safe (need n).
Proof.
  intros data c H _. unfold need.
  destruct (int32 (pos c + n) >? len data); exact H.
Qed.

Lemma safe_check_length n : safe (check_length n).
Proof.
  intros data c H _. unfold check_length.
  destruct (n <? 0); [exact H|].
  destruct (int32 (pos c + n) >? len data); exact H.
Qed.

Lemma safe_fetch n : safe (fetch n).
Proof.
  intros data c H. unfold fetch.
  destruct ((0 <=? pos c) && (0 <=? n) && (pos c + n <=? len data)) eqn:Hc;
    cbn [fst snd accesses]; intros Hp; [|contradiction].
  apply andb_true_iff in Hc. destruct Hc as [Hc H3].
  apply andb_true_iff in Hc. destruct Hc as [H1 H2].
  apply Z.leb_le in H1, H2, H3.
  apply Forall_app. split; [exact H|].
  constructor; [|constructor]. unfold in_bounds. cbn [fst snd]. lia.
Qed.

Lemma safe_bind {A B} (m : reader A) (k : A -> reader B) :
  safe m -> (forall a, safe (k a)) -> safe (bind m k).
Proof.
  intros Hm Hk data c H. specialize (Hm data c H). unfold bind.
  destruct (m data c) as [[a|f|] c1]; cbn [fst snd] in *; intros Hp.
  - apply Hk; [apply Hm; discriminate | exact Hp].
  - apply Hm. discriminate.
  - contradiction.
Qed.

Ltac safe_tac :=
  repeat first
    [ apply safe_ret | apply safe_fail | apply safe_need
    | apply safe_check_length | apply safe_fetch
    | apply safe_bind; [|intros ?] ].

Lemma safe_ReadInt32 : safe ReadInt32.
Proof. unfold ReadInt32. safe_tac. Qed.

Lemma safe_ReadBytes : safe ReadBytes.
Proof. unfold ReadBytes. safe_tac. Qed.

Lemma safe_ReadString : safe ReadString.
Proof. unfold ReadString. safe_tac. Qed.

Lemma safe_read_value marker : safe (read_value marker).
Proof.
  unfold read_value.
  repeat match goal with
  | |- safe (match ?x with _ => _ end) => destruct x
  end;
  safe_tac.
Qed.

Lemma safe_read_column : safe read_column.
Proof.
  unfold read_column, ReadMarker. safe_tac. apply safe_read_value.
Qed.

Lemma safe_read_columns n : safe (read_columns n).
Proof.
  induction n as [|n IH]; cbn [read_columns]; safe_tac.
  - apply safe_read_value.
  - exact IH.
Qed.

Lemma safe_read_row : safe read_row.
Proof.
  unfold read_row, ReadUInt32. safe_tac. apply safe_read_columns.
Qed.

(** Unless [decode] panics, it never touched a byte outside the buffer. *)
Lemma decode_in_bounds data :
  decode data <> Panic -> Forall (in_bounds data) (decode_accesses data).
Proof.
  intros H. unfold decode_accesses, run.
  apply safe_read_row; [constructor | exact H].
Qed.

End Safety.

(** ** Representable rows encode *)

Section Encodable.

Lemma width_pos c : 1 <= Utf8.width c.
Proof.
  unfold Utf8.width.
  destruct (c <? 128); [lia|]. destruct (c <? 2048); [lia|].
  destruct (c <? 65536); lia.
Qed.

Lemma byte_length_nonneg s : 0 <= Utf8.byte_length s.
Proof.
  unfold Utf8.byte_length.
  induction s as [|c s IH]; cbn [fold_right]; [lia|].
  pose proof (width_pos c). lia.
Qed.

Lemma payload_size_nonneg v : 0 <= payload_size v.
Proof.
  destruct v as [|b|n|bits|s|b|text]; cbn [payload_size]; try lia.
  - destruct ((-2147483648 <=? n) && (n <=? 2147483647)); lia.
  - pose proof (byte_length_nonneg s). lia.
  - pose proof (len_nonneg b). lia.
  - pose proof (byte_length_nonneg text). lia.
Qed.

Lemma encoded_size_cons c row :
  encoded_size (c :: row) =
  (4 + Utf8.byte_length (fst c) + 1 + payload_size (snd c)) + encoded_size row.
Proof. unfold encoded_size. cbn [fold_right]. lia. Qed.

Lemma encoded_size_bounds row : 4 + 5 * len row <= encoded_size row.
Proof.
  induction row as [|c row IH].
  - unfold encoded_size, len. cbn. lia.
  - rewrite encoded_size_cons, len_cons.
    pose proof (byte_length_nonneg (fst c)).
    pose proof (payload_size_nonneg (snd c)). lia.
Qed.

Lemma str_encodes s :
  forallb Utf8.is_scalar s = true -> 4 + Utf8.byte_length s <= max_span ->
  exists bs, Utf8.encode s = Ret bs
             /\ Struct.pack_I (len bs) = Ret (le_split 4 (len bs)).
Proof.
  intros Hs Hsz. destruct (utf8_encode_scalars _ Hs) as [bs E].
  exists bs. split; trivial. apply pack_I_Ret.
  rewrite (utf8_encode_len _ _ E). pose proof (byte_length_nonneg s).
  unfold max_span in Hsz. lia.
Qed.

Lemma representable_value_encodes v :
  representable_value v = true -> payload_size v <= max_span ->
  exists m p, _encode_value v = Ret (m, p).
Proof.
  destruct v as [|b|n|bits|s|b|text]; cbn [representable_value payload_size];
    intros Hr Hsz.
  - rewrite encode_value_None. eauto.
  - rewrite encode_value_Bool. eauto.
  - rewrite encode_value_Int. apply andb_true_iff in Hr.
    destruct Hr as [Hlo Hhi].
    destruct ((-2147483648 <=? n) && (n <=? 2147483647)) eqn:H32.
    + unfold Struct.pack_i. rewrite H32. simpl. eauto.
    + unfold Struct.pack_q. rewrite Hlo, Hhi. simpl. eauto.
  - rewrite encode_value_Float. eauto.
  - rewrite encode_value_Str.
    destruct (str_encodes s Hr Hsz) as (bs & -> & Hp).
    cbn [pybind]. rewrite Hp. simpl. eauto.
  - rewrite encode_value_Bytes. rewrite pack_I_Ret; [simpl; eauto|].
    pose proof (len_nonneg b). unfold max_span in Hsz. lia.
  - discriminate.
Qed.

Lemma representable_columns_encode (row : pydict) :
  forallb (fun c => forallb Utf8.is_scalar (fst c)
                    && representable_value (snd c)) row = true ->
  encoded_size row <= max_span ->
  exists bs, wire_columns row = Ret bs.
Proof.
  induction row as [|c row IH]; cbn [forallb wire_columns]; intros Hr Hsz.
  - eauto.
  - apply andb_true_iff in Hr. destruct Hr as [Hc Hrow].
    apply andb_true_iff in Hc. destruct Hc as [Hname Hval].
    rewrite encoded_size_cons in Hsz.
    pose proof (encoded_size_bounds row). pose proof (len_nonneg row).
    pose proof (byte_length_nonneg (fst c)).
    pose proof (payload_size_nonneg (snd c)).
    assert (Hn : 4 + Utf8.byte_length (fst c) <= max_span) by lia.
    assert (Hp' : payload_size (snd c) <= max_span) by lia.
    assert (Hr' : encoded_size row <= max_span) by lia.
    destruct (str_encodes _ Hname Hn) as (nb & Enb & Hp).
    destruct (representable_value_encodes _ Hval Hp') as (m & p & Ev).
    destruct (IH Hrow Hr') as (bs & Ebs).
    unfold wire_column. rewrite Enb. cbn [pybind]. rewrite Hp. cbn [pybind].
    rewrite Ev. cbn [pybind]. rewrite Ebs. cbn [pybind]. eauto.
Qed.

Lemma representable_encodes row :
  representable row = true ->
  exists buf, encode row = Ret buf /\ len buf = encoded_size row.
Proof.
  unfold representable. intros Hr.
  apply andb_true_iff in Hr. destruct Hr as [Hcols Hsz].
  apply Z.leb_le in Hsz.
  destruct (representable_columns_encode _ Hcols Hsz) as (bs & Ebs).
  rewrite encode_wire.
  pose proof (encoded_size_bounds row). pose proof (len_nonneg row).
  rewrite pack_I_Ret by (unfold max_span in Hsz; lia).
  cbn [pybind]. rewrite Ebs. cbn [pybind].
  eexists. split; [reflexivity|].
  rewrite len_app, len_le_split. apply (wire_columns_len _ _ Ebs).
Qed.

Lemma representable_values (row : pydict) :
  representable row = true ->
  forallb (fun c => representable_value (snd c)) row = true.
Proof.
  unfold representable. intros Hr.
  apply andb_true_iff in Hr. destruct Hr as [Hcols _].
  induction row as [|c row IH]; cbn [forallb] in *; trivial.
  apply andb_true_iff in Hcols. destruct Hcols as [Hc Hrow].
  apply andb_true_iff in Hc. destruct Hc as [_ Hv].
  rewrite Hv. cbn [andb]. auto.
Qed.

End Encodable.

(** ** Step lists *)

Section Steps.

Lemma chained_consecutive l : forall start stop,
  chained start l stop ->
  forall i a b,
    nth_error l i = Some a -> nth_error l (S i) = Some b ->
    offset b = offset a + size a.
Proof.
  induction l as [|s l IH]; intros start stop Hc i a b Ha Hb.
  - destruct i; discriminate.
  - cbn [chained] in Hc. destruct Hc as [_ Hc].
    destruct i as [|i].
    + cbn [nth_error] in Ha, Hb. inversion Ha; subst a.
      destruct l as [|s' l]; [discriminate|].
      cbn [nth_error] in Hb. inversion Hb; subst b.
      cbn [chained] in Hc. tauto.
    + cbn [nth_error] in Ha. eapply IH; eauto.
Qed.

Lemma chained_last l : forall start stop d,
  chained start l stop -> l <> [] ->
  offset (last l d) + size (last l d) = stop.
Proof.
  induction l as [|s l IH]; intros start stop d Hc Hne; [contradiction|].
  cbn [chained] in Hc. destruct Hc as [_ Hc].
  destruct l as [|s' l].
  - cbn [chained last] in *. exact Hc.
  - change (last (s :: s' :: l) d) with (last (s' :: l) d).
    eapply IH; [exact Hc | discriminate].
Qed.

End Steps.

Lemma wire_columns_app (l1 l2 : pydict) :
  wire_columns (l1 ++ l2) =
  (a <- wire_columns l1 ;; b <- wire_columns l2 ;; Ret (a ++ b)).
Proof.
  induction l1 as [|c l1 IH]; cbn [app wire_columns].
  - destruct (wire_columns l2); reflexivity.
  - rewrite IH. destruct (wire_column c) as [a|]; cbn [pybind]; trivial.
    destruct (wire_columns l1) as [b|]; cbn [pybind]; trivial.
    destruct (wire_columns l2) as [d|]; cbn [pybind]; trivial.
    now rewrite app_assoc.
Qed.

Lemma serialize_encode row buf stps :
  serialize row = Ret (buf, stps) -> encode row = Ret buf.
Proof. unfold encode. intros ->. reflexivity. Qed.

(** * The properties of the specification *)

(** C1. Round trip: for every representable row, [encode] succeeds and
    [decode] of its output yields the same columns, in the same order, with
    the same names and the same values. *)
Theorem round_trip (row : pydict) :
  representable row = true ->
  exists buf drow,
    encode row = Ret buf
    /\ Decoder.decode buf = Decoder.Ok drow
    /\ Decoder.denote_row drow = row.
Proof.
  intros Hr.
  destruct (representable_encodes _ Hr) as (buf & E & Hlen).
  destruct (read_row_encoded _ _ E) as (drow & D & _ & Hd).
  exists buf, drow. repeat split; trivial.
  - assert (Hmax : len ([] ++ buf ++ []) <= max_span).
    { cbn [app]. rewrite app_nil_r, Hlen. unfold representable in Hr.
      apply andb_true_iff in Hr. destruct Hr as [_ Hsz]. now apply Z.leb_le. }
    destruct (D [] [] (Decoder.mkCursor 0 []) eq_refl Hmax) as (c' & Ec & _).
    cbn [app] in Ec. rewrite app_nil_r in Ec.
    unfold Decoder.decode, Decoder.run. now rewrite Ec.
  - apply Hd. now apply representable_values.
Qed.

Lemma round_trip_witness :
  representable sample_row = true
  /\ exists buf drow,
       encode sample_row = Ret buf
       /\ Decoder.decode buf = Decoder.Ok drow
       /\ Decoder.denote_row drow = sample_row.
Proof.
  split; [vm_compute; reflexivity|].
  apply (round_trip sample_row). vm_compute; reflexivity.
Defined.

(** C2. Truncation safety: for every row whose encoding fits a byte span,
    [decode] of any proper prefix of [encode row] fails with
    [TruncatedData], and every buffer range it accessed lies inside the
    prefix. *)
Theorem truncation_safety (row : pydict) (buf : list byte) (k : nat) :
  encode row = Ret buf ->
  len buf <= max_span ->
  (k < List.length buf)%nat ->
  Decoder.decode (firstn k buf) = Decoder.Fail Decoder.TruncatedData
  /\ Forall (Decoder.in_bounds (firstn k buf))
            (Decoder.decode_accesses (firstn k buf)).
Proof.
  intros E Hmax Hk.
  destruct (read_row_encoded _ _ E) as (drow & _ & T & _).
  assert (Hne : skipn k buf <> []).
  { intros Hnil. apply (f_equal (@List.length byte)) in Hnil.
    rewrite length_skipn in Hnil. simpl in Hnil. lia. }
  destruct (T [] (firstn k buf) (skipn k buf) (Decoder.mkCursor 0 [])
              (eq_sym (firstn_skipn k buf)) Hne eq_refl Hmax) as (c' & Ec).
  cbn [app] in Ec.
  assert (Hd : Decoder.decode (firstn k buf)
               = Decoder.Fail Decoder.TruncatedData).
  { unfold Decoder.decode, Decoder.run. now rewrite Ec. }
  split; trivial.
  apply decode_in_bounds. rewrite Hd. discriminate.
Qed.

Lemma truncation_safety_witness :
  Decoder.decode (firstn 30 sample_bytes) = Decoder.Fail Decoder.TruncatedData
  /\ Forall (Decoder.in_bounds (firstn 30 sample_bytes))
            (Decoder.decode_accesses (firstn 30 sample_bytes)).
Proof.
  apply (truncation_safety sample_row sample_bytes 30).
  - vm_compute; reflexivity.
  - vm_compute; discriminate.
  - vm_compute; lia.
Defined.

(** C3. Rejection of bad length fields.  The guard
    [length < 0 || offset + length > data.Length] adds two C# [int]s.  On
    [crafted_buffer] the [String] length field reads 2147483647 at offset
    14: it is not negative, and 14 + 2147483647 exceeds the 14 bytes of the
    buffer, but in 32 bits the sum is -2147483635, so the guard lets it
    through and the reader goes on to the payload copy with that length:
    [decode] does not end in [InvalidLength] or [TruncatedData], and the
    last range it asked for is 2147483647 bytes at offset 14. *)
Theorem length_guard_wraps :
  Decoder.int32 (le_combine (firstn 4 (skipn 10 crafted_buffer))) = 2147483647
  /\ 14 + 2147483647 > len crafted_buffer
  /\ Decoder.int32 (14 + 2147483647) = -2147483635
  /\ fst (Decoder.check_length 2147483647 crafted_buffer
            (Decoder.mkCursor 14 [])) = Decoder.Ok tt
  /\ Decoder.decode crafted_buffer = Decoder.Panic
  /\ Decoder.decode_accesses crafted_buffer =
     [(0, 4); (4, 4); (8, 1); (9, 1); (10, 4); (14, 2147483647)].
Proof. vm_compute. repeat split. Qed.

(** C4. Minimality: the buffer [serialize] returns is exactly 4 bytes of
    column count plus, for each column, 4 + the UTF-8 length of the name
    + 1 + the payload size of the value; nothing else is written. *)
Theorem encoded_length_exact (row : pydict) buf stps :
  serialize row = Ret (buf, stps) ->
  len buf = encoded_size row.
Proof.
  intros E. apply serialize_encode in E. rewrite encode_wire in E.
  apply pybind_Ret_inv in E. destruct E as (h & Eh & E).
  apply pybind_Ret_inv in E. destruct E as (body & Eb & E).
  inversion E; subst; clear E.
  apply pack_I_inv in Eh. destruct Eh as [-> _].
  rewrite len_app, len_le_split. apply (wire_columns_len _ _ Eb).
Qed.

Lemma encoded_length_exact_witness :
  len (fst example_1_serialized) = encoded_size example_1_row.
Proof.
  apply (encoded_length_exact example_1_row
           (fst example_1_serialized) (snd example_1_serialized)).
  vm_compute; reflexivity.
Defined.

(** C5, as stated, fails: 2^63 is an integer outside the signed 32-bit
    range, and it is not encoded with the Int64 marker; [struct.pack('<q')]
    raises. *)
Lemma wide_int_raises :
  (-2147483648 <=? 9223372036854775808) && (9223372036854775808 <=? 2147483647)
    = false
  /\ _encode_value (PyInt 9223372036854775808) = Raise StructError.
Proof. split; reflexivity. Qed.

(** C5, amended.  An integer in the signed 32-bit range is encoded with the
    Int32 marker and its 4-byte signed little-endian form; any other integer
    in the signed 64-bit range with the Int64 marker and its 8-byte signed
    little-endian form; an integer outside the signed 64-bit range is not
    encoded: [struct.pack] raises. *)
Theorem int_width_selection (n : Z) :
  (-2147483648 <= n <= 2147483647 ->
     _encode_value (PyInt n) = Ret (Int32, le_split 4 n)
     /\ len (le_split 4 n) = 4
     /\ Decoder.int32 (le_combine (le_split 4 n)) = n)
  /\ (~ (-2147483648 <= n <= 2147483647) ->
      -9223372036854775808 <= n <= 9223372036854775807 ->
     _encode_value (PyInt n) = Ret (Int64, le_split 8 n)
     /\ len (le_split 8 n) = 8
     /\ Decoder.int64 (le_combine (le_split 8 n)) = n)
  /\ (~ (-9223372036854775808 <= n <= 9223372036854775807) ->
     _encode_value (PyInt n) = Raise StructError).
Proof.
  rewrite encode_value_Int. unfold Struct.pack_i, Struct.pack_q.
  repeat split.
  - destruct (Z.leb_spec (-2147483648) n), (Z.leb_spec n 2147483647);
      try lia. reflexivity.
  - now apply int32_le_split.
  - destruct (Z.leb_spec (-2147483648) n), (Z.leb_spec n 2147483647);
      destruct (Z.leb_spec (-9223372036854775808) n),
               (Z.leb_spec n 9223372036854775807); try lia; reflexivity.
  - now apply int64_le_split.
  - destruct (Z.leb_spec (-2147483648) n), (Z.leb_spec n 2147483647);
      destruct (Z.leb_spec (-9223372036854775808) n),
               (Z.leb_spec n 9223372036854775807); try lia; reflexivity.
Qed.

Lemma int_width_selection_witness :
  (_encode_value (PyInt 42) = Ret (Int32, le_split 4 42)
   /\ len (le_split 4 42) = 4
   /\ Decoder.int32 (le_combine (le_split 4 42)) = 42)
  /\ (_encode_value (PyInt 9000000000) = Ret (Int64, le_split 8 9000000000)
      /\ len (le_split 8 9000000000) = 8
      /\ Decoder.int64 (le_combine (le_split 8 9000000000)) = 9000000000)
  /\ _encode_value (PyInt (-9223372036854775809)) = Raise StructError.
Proof.
  split; [|split].
  - apply (proj1 (int_width_selection 42)). lia.
  - apply (proj1 (proj2 (int_width_selection 9000000000))); lia.
  - apply (proj2 (proj2 (int_width_selection (-9223372036854775809)))). lia.
Defined.

(** C6. Unknown-type fallback: a value of no modelled type is encoded as
    the [String] encoding of [str(value)]: marker 6, then the 4-byte length
    and the UTF-8 bytes of the text; the payload, when it fits a span,
    decodes to the [String] value holding that text.  When the text cannot be
    encoded, the error is raised, not swallowed. *)
Theorem unknown_type_fallback (text : pystr) :
  (forall bs, Utf8.encode text = Ret bs -> len bs <= 4294967295 ->
     _encode_value (PyObject text) = Ret (String, le_split 4 (len bs) ++ bs)
     /\ marker_value String = 6
     /\ (4 + len bs <= max_span ->
         Decoder.decode_value (marker_value String) (le_split 4 (len bs) ++ bs)
         = Decoder.Ok (Decoder.VString text)))
  /\ (forall bs, Utf8.encode text = Ret bs -> 4294967295 < len bs ->
     _encode_value (PyObject text) = Raise StructError)
  /\ (forall e, Utf8.encode text = Raise e ->
     _encode_value (PyObject text) = Raise e).
Proof.
  rewrite encode_value_Object, encode_value_Str. repeat split.
  - rewrite H. cbn [pybind]. rewrite pack_I_Ret; [reflexivity|].
    pose proof (len_nonneg bs). lia.
  - intros Hfit.
    pose proof (ReadString_decodes _ _ H) as D.
    pose proof (decodes_bind_ret Decoder.ReadString Decoder.VString _ _ D) as D'.
    assert (Hmax : len ([] ++ (le_split 4 (len bs) ++ bs) ++ []) <= max_span).
    { cbn [app]. rewrite app_nil_r, len_app, len_le_split. lia. }
    destruct (D' [] [] (Decoder.mkCursor 0 []) eq_refl Hmax) as (c' & Ec & _).
    cbn [app] in Ec. rewrite app_nil_r in Ec.
    unfold Decoder.decode_value, Decoder.run.
    cbn [marker_value Decoder.read_value]. now rewrite Ec.
  - intros bs E Hbig. rewrite E. cbn [pybind]. unfold Struct.pack_I.
    destruct (Z.leb_spec 0 (len bs)), (Z.leb_spec (len bs) 4294967295);
      try lia; reflexivity.
  - intros e E. rewrite E. reflexivity.
Qed.

Lemma unknown_type_fallback_witness :
  _encode_value (PyObject (pystr_of_string "Point(1, 2)"))
  = Ret (String, le_split 4 11
                   ++ List.map byte.of_Z [80; 111; 105; 110; 116; 40; 49; 44; 32; 50; 41])
  /\ marker_value String = 6
  /\ Decoder.decode_value (marker_value String)
       (le_split 4 11
          ++ List.map byte.of_Z [80; 111; 105; 110; 116; 40; 49; 44; 32; 50; 41])
     = Decoder.Ok (Decoder.VString (pystr_of_string "Point(1, 2)")).
Proof.
  assert (H1 : Utf8.encode (pystr_of_string "Point(1, 2)")
               = Ret (List.map byte.of_Z
                        [80; 111; 105; 110; 116; 40; 49; 44; 32; 50; 41]))
    by (vm_compute; reflexivity).
  assert (H2 : len (List.map byte.of_Z
                      [80; 111; 105; 110; 116; 40; 49; 44; 32; 50; 41])
               <= 4294967295)
    by (vm_compute; discriminate).
  assert (H3 : 4 + len (List.map byte.of_Z
                          [80; 111; 105; 110; 116; 40; 49; 44; 32; 50; 41])
               <= max_span)
    by (vm_compute; discriminate).
  destruct (proj1 (unknown_type_fallback (pystr_of_string "Point(1, 2)")) _ H1 H2)
    as (HA & HB & HD).
  exact (conj HA (conj HB (HD H3))).
Defined.

(** C7. The row of example 1, [{"UserId": 42, "Name": "John Doe",
    "Active": True}]: the buffer starts with the column count 3 as four
    little-endian bytes; the first column's marker, at offset 14, is 1
    (Int32), followed by 42 as four little-endian bytes; the buffer is 52
    bytes long. *)
Theorem example_1_encoding :
  exists buf stps,
    serialize example_1_row = Ret (buf, stps)
    /\ firstn 4 buf = [Byte.x03; Byte.x00; Byte.x00; Byte.x00]
    /\ le_combine (firstn 4 buf) = 3
    /\ nth_error buf 14 = Some Byte.x01
    /\ byte.unsigned Byte.x01 = marker_value Int32
    /\ firstn 4 (skipn 15 buf) = [Byte.x2a; Byte.x00; Byte.x00; Byte.x00]
    /\ le_combine (firstn 4 (skipn 15 buf)) = 42
    /\ len buf = 52.
Proof.
  exists (fst example_1_serialized), (snd example_1_serialized).
  vm_compute. repeat split.
Qed.

(** C8. Unicode fidelity: the three strings of example 2 are written with
    length prefixes 5, 6 and 4, their UTF-8 byte counts (they have 4, 2 and
    1 characters), followed by exactly their UTF-8 bytes, and each payload
    decodes back to the string it came from. *)
Theorem unicode_fidelity :
  (len cafe = 4
   /\ _encode_value (PyStr cafe)
      = Ret (String, le_split 4 5
                       ++ [Byte.x43; Byte.x61; Byte.x66; Byte.xc3; Byte.xa9])
   /\ Decoder.decode_value (marker_value String)
        (le_split 4 5 ++ [Byte.x43; Byte.x61; Byte.x66; Byte.xc3; Byte.xa9])
      = Decoder.Ok (Decoder.VString cafe))
  /\ (len nihon = 2
      /\ _encode_value (PyStr nihon)
         = Ret (String, le_split 4 6
                          ++ [Byte.xe6; Byte.x97; Byte.xa5;
                              Byte.xe6; Byte.x9c; Byte.xac])
      /\ Decoder.decode_value (marker_value String)
           (le_split 4 6 ++ [Byte.xe6; Byte.x97; Byte.xa5;
                             Byte.xe6; Byte.x9c; Byte.xac])
         = Decoder.Ok (Decoder.VString nihon))
  /\ (len rocket = 1
      /\ _encode_value (PyStr rocket)
         = Ret (String, le_split 4 4
                          ++ [Byte.xf0; Byte.x9f; Byte.x9a; Byte.x80])
      /\ Decoder.decode_value (marker_value String)
           (le_split 4 4 ++ [Byte.xf0; Byte.x9f; Byte.x9a; Byte.x80])
         = Decoder.Ok (Decoder.VString rocket)).
Proof. vm_compute. repeat split. Qed.

(** C9. Booleans: a [bool] passes the [int] instance test and the 32-bit
    range test, yet [_encode_value] returns the Boolean marker (4) with the
    one byte 0 or 1 and never the Int32 marker, because the [bool] test
    comes first; in the buffer of any row that holds the boolean, its column
    is the name field followed by the bytes 4 and 0 or 1. *)
Theorem bool_before_int (b : bool) :
  isinstance (PyBool b) TInt = true
  /\ -2147483648 <= int_value (PyBool b) <= 2147483647
  /\ _encode_value (PyBool b)
     = Ret (Boolean, [byte.of_Z (if b then 1 else 0)])
  /\ marker_value Boolean = 4
  /\ (forall p, _encode_value (PyBool b) <> Ret (Int32, p))
  /\ (forall (before after : pydict) (name : pystr) buf stps,
        serialize (before ++ (name, PyBool b) :: after) = Ret (buf, stps) ->
        exists hb nb tb,
          wire_columns before = Ret hb
          /\ Utf8.encode name = Ret nb
          /\ wire_columns after = Ret tb
          /\ buf = le_split 4 (len (before ++ (name, PyBool b) :: after))
                     ++ hb
                     ++ (le_split 4 (len nb) ++ nb
                           ++ [byte.of_Z 4; byte.of_Z (if b then 1 else 0)])
                     ++ tb).
Proof.
  split; [reflexivity|].
  split; [destruct b; cbn [int_value]; lia|].
  split; [apply encode_value_Bool|].
  split; [reflexivity|].
  split; [intros p; rewrite encode_value_Bool; discriminate|].
  intros before after name buf stps E.
  apply serialize_encode in E. rewrite encode_wire in E.
  apply pybind_Ret_inv in E. destruct E as (h & Eh & E).
  apply pybind_Ret_inv in E. destruct E as (body & Eb & E).
  inversion E; subst; clear E.
  apply pack_I_inv in Eh. destruct Eh as [-> _].
  rewrite wire_columns_app in Eb.
  apply pybind_Ret_inv in Eb. destruct Eb as (hb & Ehb & Eb).
  apply pybind_Ret_inv in Eb. destruct Eb as (rest & Er & Eb).
  inversion Eb; subst; clear Eb.
  cbn [wire_columns] in Er.
  apply pybind_Ret_inv in Er. destruct Er as (col & Ec & Er).
  apply pybind_Ret_inv in Er. destruct Er as (tb & Etb & Er).
  inversion Er; subst; clear Er.
  apply wire_column_inv in Ec. cbn [fst snd] in Ec.
  destruct Ec as (nb & m & p & Enb & _ & Emp & ->).
  rewrite encode_value_Bool in Emp. inversion Emp; subst.
  exists hb, nb, tb. repeat split; trivial.
Qed.

Lemma bool_before_int_witness :
  exists hb nb tb,
    wire_columns (firstn 2 example_1_row) = Ret hb
    /\ Utf8.encode (pystr_of_string "Active") = Ret nb
    /\ wire_columns [] = Ret tb
    /\ fst example_1_serialized
       = le_split 4 (len (firstn 2 example_1_row
                            ++ (pystr_of_string "Active", PyBool true) :: []))
           ++ hb
           ++ (le_split 4 (len nb) ++ nb ++ [byte.of_Z 4; byte.of_Z 1])
           ++ tb.
Proof.
  apply (proj2 (proj2 (proj2 (proj2 (proj2 (bool_before_int true)))))
           (firstn 2 example_1_row) [] (pystr_of_string "Active")
           (fst example_1_serialized) (snd example_1_serialized)).
  vm_compute; reflexivity.
Defined.

(** C10. The steps [serialize] returns tile the buffer: there is a first
    step and its offset is 0; each later step starts where the step before
    it ends; the last step ends at the length of the buffer. *)
Theorem steps_tile_buffer (row : pydict) buf stps :
  serialize row = Ret (buf, stps) ->
  exists first rest,
    stps = first :: rest
    /\ offset first = 0
    /\ (forall i a b,
          nth_error stps i = Some a -> nth_error stps (S i) = Some b ->
          offset b = offset a + size a)
    /\ offset (last stps first) + size (last stps first) = len buf.
Proof.
  intros E. destruct (serialize_chained _ _ _ E) as [Hne Hc].
  destruct stps as [|first rest]; [contradiction|].
  exists first, rest.
  split; [reflexivity|].
  split; [cbn [chained] in Hc; tauto|].
  split.
  - apply (chained_consecutive _ _ _ Hc).
  - apply (chained_last _ _ _ first Hc). discriminate.
Qed.

Lemma steps_tile_buffer_witness :
  exists first rest,
    snd example_1_serialized = first :: rest
    /\ offset first = 0
    /\ (forall i a b,
          nth_error (snd example_1_serialized) i = Some a ->
          nth_error (snd example_1_serialized) (S i) = Some b ->
          offset b = offset a + size a)
    /\ offset (last (snd example_1_serialized) first)
       + size (last (snd example_1_serialized) first)
       = len (fst example_1_serialized).
Proof.
  apply (steps_tile_buffer example_1_row
           (fst example_1_serialized) (snd example_1_serialized)).
  vm_compute; reflexivity.
Defined.

(** * Further properties *)

(** When the sum [offset + length] stays within a C# [int], the patched
    guard does what it is for: a length field that is negative, or that
    asks for more bytes than remain, makes [ReadBytes] and [ReadString]
    fail with [InvalidLength] or [TruncatedData], and the only range they
    have asked for by then is the four bytes of the length field. *)
Theorem bad_length_rejected (pre e post : list byte) (c : Decoder.cursor) :
  len e = 4 ->
  Decoder.pos c = len pre ->
  len (pre ++ e ++ post) <= max_span ->
  Decoder.int32 (le_combine e) < 0
  \/ (len post < Decoder.int32 (le_combine e)
      /\ len pre + 4 + Decoder.int32 (le_combine e) <= max_span) ->
  exists f,
    (f = Decoder.InvalidLength \/ f = Decoder.TruncatedData)
    /\ Decoder.ReadBytes (pre ++ e ++ post) c
       = (Decoder.Fail f,
          Decoder.mkCursor (Decoder.pos c + 4)
            (Decoder.accesses c ++ [(Decoder.pos c, 4)]))
    /\ Decoder.ReadString (pre ++ e ++ post) c
       = (Decoder.Fail f,
          Decoder.mkCursor (Decoder.pos c + 4)
            (Decoder.accesses c ++ [(Decoder.pos c, 4)])).
Proof.
  intros He Hpos Hmax Hbad.
  pose proof (len_nonneg pre). pose proof (len_nonneg post).
  assert (Hlen : len (pre ++ e ++ post) = len pre + 4 + len post)
    by (rewrite !len_app; lia).
  assert (HR : forall f,
    Decoder.check_length (Decoder.int32 (le_combine e)) (pre ++ e ++ post)
      (Decoder.mkCursor (Decoder.pos c + 4)
         (Decoder.accesses c ++ [(Decoder.pos c, 4)]))
    = (Decoder.Fail f,
       Decoder.mkCursor (Decoder.pos c + 4)
         (Decoder.accesses c ++ [(Decoder.pos c, 4)])) ->
    Decoder.ReadBytes (pre ++ e ++ post) c
    = (Decoder.Fail f,
       Decoder.mkCursor (Decoder.pos c + 4)
         (Decoder.accesses c ++ [(Decoder.pos c, 4)]))
    /\ Decoder.ReadString (pre ++ e ++ post) c
       = (Decoder.Fail f,
          Decoder.mkCursor (Decoder.pos c + 4)
            (Decoder.accesses c ++ [(Decoder.pos c, 4)]))).
  { intros f Hc. rewrite ReadString_as_bytes.
    unfold Decoder.ReadBytes, Decoder.bind.
    rewrite ReadInt32_run by trivial. rewrite Hc. auto. }
  destruct Hbad as [Hneg | [Hover Hfit]].
  - exists Decoder.InvalidLength. split; [auto|]. apply HR.
    unfold Decoder.check_length.
    destruct (Z.ltb_spec (Decoder.int32 (le_combine e)) 0); [reflexivity | lia].
  - exists Decoder.TruncatedData. split; [auto|]. apply HR.
    apply check_length_short; cbn [Decoder.pos]; lia.
Qed.

Lemma bad_length_rejected_witness :
  exists f,
    (f = Decoder.InvalidLength \/ f = Decoder.TruncatedData)
    /\ Decoder.ReadBytes
         ([] ++ [Byte.x08; Byte.x00; Byte.x00; Byte.x00] ++ [Byte.x41])
         (Decoder.mkCursor 0 [])
       = (Decoder.Fail f, Decoder.mkCursor (0 + 4) ([] ++ [(0, 4)]))
    /\ Decoder.ReadString
         ([] ++ [Byte.x08; Byte.x00; Byte.x00; Byte.x00] ++ [Byte.x41])
         (Decoder.mkCursor 0 [])
       = (Decoder.Fail f, Decoder.mkCursor (0 + 4) ([] ++ [(0, 4)])).
Proof.
  apply (bad_length_rejected [] [Byte.x08; Byte.x00; Byte.x00; Byte.x00]
           [Byte.x41] (Decoder.mkCursor 0 [])).
  - reflexivity.
  - reflexivity.
  - vm_compute; discriminate.
  - right. split; vm_compute; [reflexivity | discriminate].
Defined.

(** Two representable rows with the same encoding are the same row: the
    format is self-describing, nothing of a row is lost in its bytes. *)
Theorem encode_injective (row1 row2 : pydict) (buf : list byte) :
  representable row1 = true ->
  representable row2 = true ->
  encode row1 = Ret buf ->
  encode row2 = Ret buf ->
  row1 = row2.
Proof.
  intros R1 R2 E1 E2.
  destruct (representable_encodes _ R1) as (b1 & E1' & Hlen).
  rewrite E1 in E1'. inversion E1'; subst b1.
  assert (Hmax : len ([] ++ buf ++ []) <= max_span).
  { cbn [app]. rewrite app_nil_r, Hlen. unfold representable in R1.
    apply andb_true_iff in R1. destruct R1 as [_ Hsz]. now apply Z.leb_le. }
  destruct (read_row_encoded _ _ E1) as (d1 & D1 & _ & H1).
  destruct (read_row_encoded _ _ E2) as (d2 & D2 & _ & H2).
  destruct (D1 [] [] (Decoder.mkCursor 0 []) eq_refl Hmax) as (c1 & Ec1 & _).
  destruct (D2 [] [] (Decoder.mkCursor 0 []) eq_refl Hmax) as (c2 & Ec2 & _).
  rewrite Ec1 in Ec2. inversion Ec2; subst d2.
  rewrite <- (H1 (representable_values _ R1)).
  rewrite <- (H2 (representable_values _ R2)). reflexivity.
Qed.

Lemma encode_injective_witness : sample_row = sample_row.
Proof.
  apply (encode_injective sample_row sample_row sample_bytes);
    vm_compute; reflexivity.
Defined.

(** [serialize] returns one step for the column count and four for each
    column. *)
Theorem steps_count (row : pydict) buf stps :
  serialize row = Ret (buf, stps) ->
  List.length stps = (1 + 4 * List.length row)%nat.
Proof.
  unfold serialize. intros E.
  apply pybind_Ret_inv in E. destruct E as (h & _ & E).
  apply pybind_Ret_inv in E. destruct E as (st' & Es & E).
  inversion E; subst; clear E.
  assert (G : forall (r : pydict) st st1,
    serialize_columns r st = Ret st1 ->
    List.length (steps st1) = (List.length (steps st) + 4 * List.length r)%nat).
  { induction r as [|[name v] r IH]; cbn [serialize_columns]; intros st st1 E.
    - inversion E; subst. cbn [List.length]. lia.
    - apply pybind_Ret_inv in E. destruct E as (st2 & E2 & E).
      apply IH in E. unfold serialize_column in E2.
      apply pybind_Ret_inv in E2. destruct E2 as (nb & _ & E2).
      apply pybind_Ret_inv in E2. destruct E2 as (nl & _ & E2).
      apply pybind_Ret_inv in E2. destruct E2 as ([m p] & _ & E2).
      inversion E2; subst; clear E2. cbn [steps] in E.
      rewrite !length_app in E. cbn [List.length] in *. lia. }
  apply G in Es. cbn [steps List.length] in Es. lia.
Qed.

Lemma steps_count_witness :
  List.length (snd example_1_serialized)
  = (1 + 4 * List.length example_1_row)%nat.
Proof.
  apply (steps_count example_1_row
           (fst example_1_serialized) (snd example_1_serialized)).
  vm_compute; reflexivity.
Defined.


(** ** The hex text of a byte string *)

Section HexText.

Lemma string_length_app (a b : string) :
  String.length (a ++ b) = (String.length a + String.length b)%nat.
Proof. induction a as [|c a IH]; cbn [String.append String.length]; lia. Qed.

(** A hex digit tells its value: the sixteen digits are distinct. *)
Lemma hex_digit_inj (a b : Z) :
  0 <= a < 16 -> 0 <= b < 16 -> hex_digit a = hex_digit b -> a = b.
Proof.
  intros Ha Hb E.
  rewrite <- (Z2Nat.id a), <- (Z2Nat.id b) in E |- * by lia.
  assert (Ha' : (Z.to_nat a < 16)%nat) by lia.
  assert (Hb' : (Z.to_nat b < 16)%nat) by lia.
  revert E Ha' Hb'. generalize (Z.to_nat a) (Z.to_nat b). intros n m E Hn Hm.
  unfold hex_digit in E. rewrite !Nat2Z.id in E.
  do 16 (destruct n as [|n];
         [do 16 (destruct m as [|m]; [first [reflexivity | discriminate]|]); lia|]).
  lia.
Qed.

Lemma hex_of_byte_inj (a b : byte) : hex_of_byte a = hex_of_byte b -> a = b.
Proof.
  unfold hex_of_byte. intros E. inversion E as [[Hhi Hlo]].
  pose proof (byte.unsigned_range a) as Ra.
  pose proof (byte.unsigned_range b) as Rb.
  change (2 ^ 8) with 256 in Ra, Rb.
  apply hex_digit_inj in Hhi;
    [|split; [apply Z.div_pos | apply Z.div_lt_upper_bound]; lia ..].
  apply hex_digit_inj in Hlo; [|apply Z.mod_pos_bound; lia ..].
  apply byte.unsigned_inj.
  rewrite (Z.div_mod (byte.unsigned a) 16), (Z.div_mod (byte.unsigned b) 16)
    by lia.
  now rewrite Hhi, Hlo.
Qed.

Lemma bytes_to_hex_cons2 a b l :
  _bytes_to_hex (a :: b :: l)
  = String.String (hex_digit (byte.unsigned a / 16))
      (String.String (hex_digit (byte.unsigned a mod 16))
         (String.String " "%char (_bytes_to_hex (b :: l)))).
Proof. reflexivity. Qed.

Lemma bytes_to_hex_length data :
  String.length (_bytes_to_hex data) = (3 * List.length data - 1)%nat.
Proof.
  induction data as [|a [|b l] IH]; [reflexivity | reflexivity |].
  rewrite bytes_to_hex_cons2. cbn [String.length]. rewrite IH.
  cbn [List.length]. lia.
Qed.

End HexText.

(** The hex text [_bytes_to_hex] returns tells the bytes: two byte strings
    with the same hex text are the same byte string. *)
Theorem bytes_to_hex_injective (a b : list byte) :
  _bytes_to_hex a = _bytes_to_hex b -> a = b.
Proof.
  revert b. induction a as [|x [|y a] IH]; intros [|x' [|y' b]] E;
    try reflexivity; try discriminate E.
  - f_equal. now apply hex_of_byte_inj.
  - rewrite !bytes_to_hex_cons2 in E. inversion E as [[Hhi Hlo Hrest]].
    apply IH in Hrest. rewrite Hrest. f_equal.
    apply hex_of_byte_inj. unfold hex_of_byte. now rewrite Hhi, Hlo.
Qed.

Lemma bytes_to_hex_injective_witness :
  le_split 2 42 = [Byte.x2a; Byte.x00].
Proof.
  apply (bytes_to_hex_injective (le_split 2 42) [Byte.x2a; Byte.x00]).
  reflexivity.
Defined.


(** ** The steps against the buffer *)

Section StepsShowBuffer.

Lemma slice_app_inside {A} (buf more : list A) (o n : nat) :
  (o + n <= List.length buf)%nat -> slice (buf ++ more) o n = slice buf o n.
Proof.
  intros H. unfold slice. rewrite skipn_app, firstn_app, length_skipn.
  replace (n - (List.length buf - o))%nat with 0%nat by lia.
  cbn [firstn]. now rewrite app_nil_r.
Qed.

Lemma slice_app_end {A} (buf new : list A) :
  slice (buf ++ new) (List.length buf) (List.length new) = new.
Proof.
  unfold slice. rewrite skipn_app, skipn_all, Nat.sub_diag. cbn [skipn app].
  apply firstn_all.
Qed.

Lemma shows_app buf more s : shows buf s -> shows (buf ++ more) s.
Proof.
  unfold shows. intros (Ho & Hs & Hle & Hx).
  pose proof (len_nonneg more). rewrite len_app.
  repeat split; try lia.
  rewrite slice_app_inside; [exact Hx|]. unfold len in Hle. lia.
Qed.

(** Writing [new] to the buffer and logging it as a step at the current
    offset keeps every step showing the buffer. *)
Lemma shows_push buf stps new off sz v :
  Forall (shows buf) stps -> off = len buf -> sz = len new ->
  Forall (shows (buf ++ new))
    (stps ++ [mkStep off sz v (_bytes_to_hex new)]).
Proof.
  intros H -> ->. apply Forall_app. split.
  - eapply Forall_impl; [|exact H]. intros s. apply shows_app.
  - constructor; [|constructor]. unfold shows. cbn [offset size hex_bytes].
    pose proof (len_nonneg buf). pose proof (len_nonneg new).
    rewrite len_app. repeat split; try lia.
    unfold len. rewrite !Nat2Z.id. now rewrite slice_app_end.
Qed.

Lemma serialize_column_shows name v st st' :
  serialize_column name v st = Ret st' ->
  cur st = len (buffer st) ->
  Forall (shows (buffer st)) (steps st) ->
  Forall (shows (buffer st')) (steps st').
Proof.
  unfold serialize_column. intros E Hcur Hsh.
  apply pybind_Ret_inv in E. destruct E as (nb & Enb & E).
  apply pybind_Ret_inv in E. destruct E as (nl & Enl & E).
  apply pybind_Ret_inv in E. destruct E as ([m p] & Emp & E).
  inversion E; subst; clear E. cbn [buffer steps].
  apply pack_I_inv in Enl. destruct Enl as [-> _].
  apply shows_push; [|rewrite !len_app, len_le_split, len_cons, len_nil; lia
                     |reflexivity].
  apply shows_push; [|rewrite !len_app, len_le_split; lia | reflexivity].
  apply shows_push; [|rewrite !len_app, len_le_split; lia | reflexivity].
  apply shows_push; [exact Hsh | exact Hcur | now rewrite len_le_split].
Qed.

Lemma serialize_columns_shows row : forall st st',
  serialize_columns row st = Ret st' ->
  cur st = len (buffer st) ->
  chained 0 (steps st) (cur st) ->
  Forall (shows (buffer st)) (steps st) ->
  Forall (shows (buffer st')) (steps st').
Proof.
  induction row as [|[name v] row IH]; cbn [serialize_columns];
    intros st st' E Hcur Hch Hsh.
  - inversion E; subst. exact Hsh.
  - apply pybind_Ret_inv in E. destruct E as (st1 & E1 & E).
    destruct (serialize_column_steps _ _ _ _ E1 Hcur Hch) as [Hcur1 Hch1].
    eapply IH; eauto. eapply serialize_column_shows; eauto.
Qed.

End StepsShowBuffer.

(** Every step [serialize] returns shows the buffer it returns: the range
    [offset, offset + size) of the step lies inside the buffer, and the
    step's [hex_bytes] is the hex text of exactly the bytes in that range. *)
Theorem steps_show_buffer (row : pydict) buf stps :
  serialize row = Ret (buf, stps) ->
  forall s, In s stps ->
    0 <= offset s /\ 0 <= size s /\ offset s + size s <= len buf
    /\ hex_bytes s
       = _bytes_to_hex (slice buf (Z.to_nat (offset s)) (Z.to_nat (size s))).
Proof.
  unfold serialize. intros E.
  apply pybind_Ret_inv in E. destruct E as (h & Eh & E).
  apply pybind_Ret_inv in E. destruct E as (st' & Es & E).
  inversion E; subst; clear E.
  apply pack_I_inv in Eh. destruct Eh as [-> _].
  assert (H : Forall (shows (buffer st')) (steps st')).
  { eapply serialize_columns_shows; [exact Es | | |]; cbn [buffer steps cur].
    - now rewrite len_le_split.
    - cbn [chained offset size]. lia.
    - apply (shows_push [] [] (le_split 4 (len row)) 0 4);
        [constructor | reflexivity | now rewrite len_le_split]. }
  intros s Hs. exact (proj1 (Forall_forall _ _) H s Hs).
Qed.

Lemma steps_show_buffer_witness :
  Forall (shows (fst example_1_serialized)) (snd example_1_serialized).
Proof.
  apply Forall_forall.
  apply (steps_show_buffer example_1_row
           (fst example_1_serialized) (snd example_1_serialized)).
  vm_compute; reflexivity.
Defined.


(** ** When the serializer returns *)

Section Domain.

Lemma encode_cp_Ret_scalar c bs :
  Utf8.encode_cp c = Ret bs -> Utf8.is_scalar c = true.
Proof.
  unfold Utf8.encode_cp, Utf8.is_scalar, Utf8.is_surrogate.
  destruct (Z.ltb_spec c 0); [discriminate|].
  destruct (Z.ltb_spec c 128), (Z.ltb_spec c 2048), (Z.ltb_spec c 65536),
    (Z.ltb_spec c 1114112), (Z.leb_spec 0 c), (Z.leb_spec 55296 c),
    (Z.leb_spec c 57343); cbn [andb negb]; intros E;
    first [reflexivity | discriminate | lia].
Qed.

Lemma utf8_encode_Ret_scalars s : forall bs,
  Utf8.encode s = Ret bs -> forallb Utf8.is_scalar s = true.
Proof.
  induction s as [|c s IH]; cbn [Utf8.encode forallb]; intros bs E; trivial.
  apply pybind_Ret_inv in E. destruct E as (b1 & E1 & E).
  apply pybind_Ret_inv in E. destruct E as (b2 & E2 & E).
  now rewrite (encode_cp_Ret_scalar _ _ E1), (IH _ E2).
Qed.

(** The length-prefixed UTF-8 form of a text, as names, [str] values and
    the fallback write it. *)
Lemma prefixed_text_iff s :
  (exists r, (encoded <- Utf8.encode s ;;
              n <- Struct.pack_I (len encoded) ;;
              Ret (n ++ encoded)) = Ret r)
  <-> text_encodable s = true.
Proof.
  unfold text_encodable. rewrite andb_true_iff, Z.leb_le. split.
  - intros (r & E).
    apply pybind_Ret_inv in E. destruct E as (e & Ee & E).
    apply pybind_Ret_inv in E. destruct E as (q & Eq & _).
    apply pack_I_inv in Eq. destruct Eq as [_ Hq].
    rewrite (utf8_encode_len _ _ Ee) in Hq.
    split; [eapply utf8_encode_Ret_scalars; eauto | lia].
  - intros [Hs Hl]. destruct (utf8_encode_scalars _ Hs) as (bs & E).
    rewrite E. cbn [pybind]. rewrite pack_I_Ret; [cbn [pybind]; eauto|].
    rewrite (utf8_encode_len _ _ E). pose proof (byte_length_nonneg s). lia.
Qed.

Lemma encode_value_returns_iff v :
  (exists r, _encode_value v = Ret r) <-> value_encodable v = true.
Proof.
  assert (HS : forall s, (exists r, _encode_value (PyStr s) = Ret r)
                         <-> text_encodable s = true).
  { intros s. rewrite <- prefixed_text_iff, encode_value_Str. split.
    - intros ([m p] & E).
      destruct (Utf8.encode s) as [e|]; [|discriminate]. cbn [pybind] in *.
      destruct (Struct.pack_I (len e)) as [q|]; [|discriminate].
      cbn [pybind]. eauto.
    - intros (r & E).
      destruct (Utf8.encode s) as [e|]; [|discriminate]. cbn [pybind] in *.
      destruct (Struct.pack_I (len e)) as [q|]; [|discriminate].
      cbn [pybind]. eauto. }
  destruct v as [|b|n|bits|s|b|text]; cbn [value_encodable].
  - rewrite encode_value_None. split; eauto.
  - rewrite encode_value_Bool. split; eauto.
  - rewrite encode_value_Int. unfold Struct.pack_i, Struct.pack_q.
    destruct (Z.leb_spec (-2147483648) n), (Z.leb_spec n 2147483647),
      (Z.leb_spec (-9223372036854775808) n),
      (Z.leb_spec n 9223372036854775807); cbn [andb pybind];
      split; intros G; try lia; eauto;
      first [discriminate | destruct G; discriminate].
  - rewrite encode_value_Float. split; eauto.
  - apply HS.
  - rewrite encode_value_Bytes, Z.leb_le. split.
    + intros (r & E). apply pybind_Ret_inv in E. destruct E as (q & Eq & _).
      apply pack_I_inv in Eq. lia.
    + intros H. rewrite pack_I_Ret; [cbn [pybind]; eauto|].
      pose proof (len_nonneg b). lia.
  - rewrite encode_value_Object. apply HS.
Qed.

Lemma wire_column_returns_iff c :
  (exists bs, wire_column c = Ret bs)
  <-> text_encodable (fst c) && value_encodable (snd c) = true.
Proof.
  rewrite andb_true_iff, <- prefixed_text_iff, <- encode_value_returns_iff.
  unfold wire_column. split.
  - intros (bs & E).
    destruct (Utf8.encode (fst c)) as [e|]; [|discriminate]. cbn [pybind] in *.
    destruct (Struct.pack_I (len e)) as [q|]; [|discriminate].
    cbn [pybind] in *.
    destruct (_encode_value (snd c)) as [r|]; [|discriminate]. eauto.
  - intros [(r & E) (r' & E')].
    destruct (Utf8.encode (fst c)) as [e|]; [|discriminate]. cbn [pybind] in *.
    destruct (Struct.pack_I (len e)) as [q|]; [|discriminate].
    cbn [pybind]. rewrite E'. destruct r'. cbn [pybind]. eauto.
Qed.

Lemma wire_columns_returns_iff (row : pydict) :
  (exists bs, wire_columns row = Ret bs)
  <-> forallb (fun c => text_encodable (fst c) && value_encodable (snd c)) row
      = true.
Proof.
  induction row as [|c row IH]; cbn [wire_columns forallb].
  - split; eauto.
  - rewrite andb_true_iff, <- IH, <- wire_column_returns_iff. split.
    + intros (bs & E).
      destruct (wire_column c) as [a|]; [|discriminate]. cbn [pybind] in E.
      destruct (wire_columns row) as [b|]; [|discriminate]. eauto.
    + intros [(a & ->) (b & ->)]. cbn [pybind]. eauto.
Qed.

Lemma encode_serialize row buf :
  encode row = Ret buf -> exists stps, serialize row = Ret (buf, stps).
Proof.
  unfold encode. destruct (serialize row) as [[b s]|]; cbn [pybind fst];
    intros E; inversion E; eauto.
Qed.

End Domain.

(** The markers [_encode_value] can return are the seven that have a
    branch: never DateTime (5) or Decimal (8), so the type name a step
    shows is never "Unknown". *)
Theorem markers_emitted (v : pyvalue) m p :
  _encode_value v = Ret (m, p) ->
  In m [Null; Int32; Int64; Double; Boolean; String; Bytes]
  /\ m <> DateTime /\ m <> Decimal
  /\ _get_type_name (marker_value m) <> "Unknown"%string.
Proof.
  intros E.
  assert (H : In m [Null; Int32; Int64; Double; Boolean; String; Bytes]).
  { destruct v as [|b|n|bits|s|b|text].
    - rewrite encode_value_None in E. inversion E. cbn; auto 10.
    - rewrite encode_value_Bool in E. inversion E. cbn; auto 10.
    - rewrite encode_value_Int in E.
      destruct ((-2147483648 <=? n) && (n <=? 2147483647));
        apply pybind_Ret_inv in E; destruct E as (q & _ & E); inversion E;
        cbn; auto 10.
    - rewrite encode_value_Float in E. inversion E. cbn; auto 10.
    - rewrite encode_value_Str in E.
      apply pybind_Ret_inv in E. destruct E as (e & _ & E).
      apply pybind_Ret_inv in E. destruct E as (q & _ & E). inversion E.
      cbn; auto 10.
    - rewrite encode_value_Bytes in E.
      apply pybind_Ret_inv in E. destruct E as (q & _ & E). inversion E.
      cbn; auto 10.
    - rewrite encode_value_Object, encode_value_Str in E.
      apply pybind_Ret_inv in E. destruct E as (e & _ & E).
      apply pybind_Ret_inv in E. destruct E as (q & _ & E). inversion E.
      cbn; auto 10. }
  split; [exact H|].
  cbn [In] in H.
  repeat split; intros C;
    repeat (destruct H as [H|H]; [subst m; discriminate C|]); contradiction.
Qed.

Lemma markers_emitted_witness :
  In String [Null; Int32; Int64; Double; Boolean; String; Bytes]
  /\ String <> DateTime /\ String <> Decimal
  /\ _get_type_name (marker_value String) <> "Unknown"%string.
Proof.
  apply (markers_emitted (PyObject (pystr_of_string "1+2j")) String
           (le_split 4 4 ++ List.map byte.of_Z [49; 43; 50; 106])).
  vm_compute; reflexivity.
Defined.

(** [serialize] returns exactly on the rows whose column count fits 32
    bits and whose every column has an encodable name (no lone surrogate,
    UTF-8 length below 2^32) and an encodable value (an int within 64 bits,
    an encodable text for a [str] or for the [str()] of another object, a
    [bytes] shorter than 2^32); on every other row it raises. *)
Theorem serialize_returns_iff (row : pydict) :
  (exists buf stps, serialize row = Ret (buf, stps))
  <-> row_encodable row = true.
Proof.
  unfold row_encodable.
  rewrite andb_true_iff, Z.leb_le, <- wire_columns_returns_iff. split.
  - intros (buf & stps & E). apply serialize_encode in E.
    rewrite encode_wire in E.
    apply pybind_Ret_inv in E. destruct E as (h & Eh & E).
    apply pybind_Ret_inv in E. destruct E as (body & Eb & _).
    apply pack_I_inv in Eh. split; [lia | eauto].
  - intros [Hn (body & Eb)].
    assert (E : encode row = Ret (le_split 4 (len row) ++ body)).
    { rewrite encode_wire, pack_I_Ret by (pose proof (len_nonneg row); lia).
      cbn [pybind]. rewrite Eb. reflexivity. }
    destruct (encode_serialize _ _ E) as (stps & Es). eauto.
Qed.

Lemma serialize_returns_iff_witness :
  exists buf stps, serialize sample_row = Ret (buf, stps).
Proof.
  apply (proj2 (serialize_returns_iff sample_row)). vm_compute; reflexivity.
Defined.

(** Rows compose: the buffer of [r1 ++ r2] is the count of all the columns
    followed by the columns of [r1] and the columns of [r2] as each row
    encodes them on its own (its buffer without the four count bytes);
    a column's bytes do not depend on the columns around it. *)
Theorem serialize_app (r1 r2 : pydict) buf stps :
  serialize (r1 ++ r2) = Ret (buf, stps) ->
  exists b1 s1 b2 s2,
    serialize r1 = Ret (b1, s1)
    /\ serialize r2 = Ret (b2, s2)
    /\ buf = le_split 4 (len r1 + len r2) ++ skipn 4 b1 ++ skipn 4 b2.
Proof.
  intros E. apply serialize_encode in E. rewrite encode_wire in E.
  apply pybind_Ret_inv in E. destruct E as (h & Eh & E).
  apply pybind_Ret_inv in E. destruct E as (body & Eb & E).
  inversion E; subst; clear E.
  apply pack_I_inv in Eh. destruct Eh as [-> Hn].
  rewrite wire_columns_app in Eb.
  apply pybind_Ret_inv in Eb. destruct Eb as (x1 & E1 & Eb).
  apply pybind_Ret_inv in Eb. destruct Eb as (x2 & E2 & Eb).
  inversion Eb; subst; clear Eb.
  rewrite len_app in Hn |- *.
  pose proof (len_nonneg r1). pose proof (len_nonneg r2).
  assert (G : forall (r : pydict) x, wire_columns r = Ret x ->
            len r <= 4294967295 ->
            exists b s, serialize r = Ret (b, s) /\ skipn 4 b = x).
  { intros r x Ex Hr.
    assert (Ee : encode r = Ret (le_split 4 (len r) ++ x)).
    { rewrite encode_wire, pack_I_Ret by (pose proof (len_nonneg r); lia).
      cbn [pybind]. now rewrite Ex. }
    destruct (encode_serialize _ _ Ee) as (s & Es).
    exists (le_split 4 (len r) ++ x), s. split; [exact Es|].
    rewrite skipn_app, length_le_split, skipn_all2
      by (rewrite length_le_split; lia).
    reflexivity. }
  destruct (G r1 x1 E1) as (b1 & s1 & Es1 & <-); [lia|].
  destruct (G r2 x2 E2) as (b2 & s2 & Es2 & <-); [lia|].
  exists b1, s1, b2, s2. auto.
Qed.

Lemma serialize_app_witness :
  exists b1 s1 b2 s2,
    serialize (firstn 1 example_1_row) = Ret (b1, s1)
    /\ serialize (skipn 1 example_1_row) = Ret (b2, s2)
    /\ fst example_1_serialized
       = le_split 4 (len (firstn 1 example_1_row)
                     + len (skipn 1 example_1_row))
           ++ skipn 4 b1 ++ skipn 4 b2.
Proof.
  apply (serialize_app (firstn 1 example_1_row) (skipn 1 example_1_row)
           (fst example_1_serialized) (snd example_1_serialized)).
  vm_compute; reflexivity.
Defined.

(** ** The hex dump *)

Section HexDump.

Lemma firstn_plus {A} (a b : nat) : forall l : list A,
  firstn (a + b) l = firstn a l ++ firstn b (skipn a l).
Proof.
  induction a as [|a IH]; intros l; [reflexivity|].
  destruct l as [|x l]; cbn [Nat.add firstn skipn app].
  - now rewrite firstn_nil.
  - now rewrite IH.
Qed.

Lemma chunks_concat (data : list byte) (m : nat) :
  List.concat
    (List.map (fun i => slice data i 16)
       (List.map (fun k => (16 * k)%nat) (seq 0 m)))
  = firstn (16 * m) data.
Proof.
  induction m as [|m IH]; [reflexivity|].
  rewrite seq_S, !map_app, concat_app, IH. cbn [List.map List.concat Nat.add].
  rewrite app_nil_r. unfold slice.
  replace (16 * S m)%nat with (16 * m + 16)%nat by lia.
  now rewrite firstn_plus.
Qed.

Lemma ceil16 (n : nat) :
  (n <= 16 * ((n + 15) / 16) < n + 16)%nat.
Proof.
  pose proof (Nat.div_mod_eq (n + 15) 16).
  pose proof (Nat.mod_upper_bound (n + 15) 16). lia.
Qed.

Lemma string_of_list_ascii_length l :
  String.length (string_of_list_ascii l) = List.length l.
Proof. induction l as [|a l IH]; cbn; [reflexivity | now rewrite IH]. Qed.

Lemma ascii_or_dot_printable b : printable (ascii_or_dot b).
Proof.
  unfold printable, ascii_or_dot.
  destruct (Z.leb_spec 32 (byte.unsigned b)), (Z.ltb_spec (byte.unsigned b) 127);
    cbn [andb]; try (cbn; lia).
  rewrite ascii_of_byte_via_nat, nat_ascii_embedding.
  - unfold byte.unsigned in *. rewrite Byte.to_nat_via_N. lia.
  - rewrite Byte.to_nat_via_N. pose proof (Byte.to_N_bounded b). lia.
Qed.

End HexDump.

(** The hex dump of [print_visualization] goes through every byte once,
    in order: the chunks of its lines, put end to end, are the data; there
    are ceil(n / 16) lines (none for empty data); line [k] starts at offset
    [16 * k], inside the data, and holds 16 bytes, or what is left on the
    last line, never none. *)
Theorem hex_dump_covers (data : list byte) :
  List.concat (List.map snd (hex_dump_chunks data)) = data
  /\ List.length (hex_dump_chunks data) = ((List.length data + 15) / 16)%nat
  /\ (forall k i chunk,
        nth_error (hex_dump_chunks data) k = Some (i, chunk) ->
        i = (16 * k)%nat
        /\ (i < List.length data)%nat
        /\ chunk = slice data i 16
        /\ List.length chunk = Nat.min 16 (List.length data - i)
        /\ (1 <= List.length chunk <= 16)%nat).
Proof.
  unfold hex_dump_chunks, range_by_16.
  pose proof (ceil16 (List.length data)) as Hc.
  split; [|split].
  - rewrite (map_map (fun i => (i, slice data i 16)) snd). cbn [snd].
    rewrite chunks_concat. apply firstn_all2. lia.
  - now rewrite !length_map, length_seq.
  - intros k i chunk E. rewrite map_map in E.
    rewrite nth_error_map in E.
    destruct (nth_error (seq 0 ((List.length data + 15) / 16)) k) as [j|] eqn:Ej;
      [|discriminate].
    cbn [option_map] in E.
    assert (Hi : i = (16 * j)%nat) by congruence.
    assert (Hch : chunk = slice data i 16) by congruence.
    clear E.
    assert (Hk : (k < (List.length data + 15) / 16)%nat).
    { assert (Hl : nth_error (seq 0 ((List.length data + 15) / 16)) k <> None)
        by (rewrite Ej; discriminate).
      apply nth_error_Some in Hl. now rewrite length_seq in Hl. }
    assert (j = k).
    { pose proof (nth_error_nth _ _ 0%nat Ej) as Hn.
      rewrite seq_nth in Hn by exact Hk. lia. }
    subst j.
    assert (Hlen : List.length chunk = Nat.min 16 (List.length data - i)).
    { rewrite Hch. unfold slice. now rewrite length_firstn, length_skipn. }
    split; [exact Hi|]. split; [lia|]. split; [exact Hch|].
    split; [exact Hlen|]. rewrite Hlen. lia.
Qed.

(** In the hex dump the two columns line up: the hex column of every line
    is exactly 48 characters (at most 47 of hex text, padded), and the text
    column has one character per byte, each a printable ASCII character
    (a byte outside 32..126 shows as a dot). *)
Theorem hex_dump_aligned (data : list byte) :
  Forall (fun c =>
            String.length (fst (hex_dump_line (snd c))) = 48%nat
            /\ String.length (snd (hex_dump_line (snd c)))
               = List.length (snd c)
            /\ Forall printable
                 (list_ascii_of_string (snd (hex_dump_line (snd c)))))
         (hex_dump_chunks data).
Proof.
  apply Forall_forall. intros [i chunk] Hin.
  destruct (In_nth_error _ _ Hin) as (k & Ek).
  destruct (proj2 (proj2 (hex_dump_covers data)) k i chunk Ek)
    as (_ & _ & _ & _ & Hl).
  cbn [fst snd hex_dump_line]. split; [|split].
  - unfold ljust. rewrite string_length_app, string_of_list_ascii_length,
      repeat_length, bytes_to_hex_length. lia.
  - unfold ascii_part. now rewrite string_of_list_ascii_length, length_map.
  - unfold ascii_part. rewrite list_ascii_of_string_of_list_ascii.
    apply Forall_forall. intros a Ha. apply in_map_iff in Ha.
    destruct Ha as (b & <- & _). apply ascii_or_dot_printable.
Qed.


(** ** [add_bounds_check] (fix_bounds_v2.py) *)

Section AddBoundsCheck.
Import FixBoundsV2.

Lemma firstn_S_nth {A} (d : A) (l : list A) (i : nat) :
  (i < List.length l)%nat -> firstn (S i) l = firstn i l ++ [nth i l d].
Proof.
  revert i. induction l as [|x l IH]; intros [|i] H; cbn [List.length] in H;
    try lia; [reflexivity|].
  cbn [firstn nth app]. f_equal. apply IH. lia.
Qed.

Lemma marker_follows_skipn (lines : list pystr) (j : nat) :
  marker_follows (skipn j lines)
  = (j <? List.length lines)%nat && py_in truncated_marker (nth j lines []).
Proof.
  destruct (Nat.ltb_spec j (List.length lines)) as [H|H].
  - now rewrite (skipn_nth [] lines j H).
  - now rewrite skipn_all2.
Qed.

(** The loop from index [i] leaves the lines before [i] alone and treats
    the rest line by line. *)
Lemma add_bounds_check_loop_spec lines pat chk i :
  add_bounds_check_loop lines pat chk i
  = firstn i lines ++ add_checks pat chk (skipn i lines).
Proof.
  funelim (add_bounds_check_loop lines pat chk i).
  - (* past the end *)
    pose proof (proj1 (Nat.ltb_ge _ _) e) as Hge.
    rewrite firstn_all2, skipn_all2 by lia. now rewrite app_nil_r.
  - (* the line does not hold the pattern *)
    rewrite H. pose proof (proj1 (Nat.ltb_lt _ _) e) as Hlt.
    rewrite (skipn_nth [] lines i Hlt). cbn [add_checks].
    rewrite e0. cbn [andb].
    rewrite (firstn_S_nth [] lines i Hlt), <- app_assoc. reflexivity.
  - (* the line holds the pattern and the marker follows *)
    rewrite H. pose proof (proj1 (Nat.ltb_lt _ _) e) as Hlt.
    rewrite (skipn_nth [] lines i Hlt). cbn [add_checks].
    rewrite marker_follows_skipn, e0, e1. cbn [negb andb].
    rewrite (firstn_S_nth [] lines i Hlt), <- app_assoc. reflexivity.
  - (* the line holds the pattern: the check is inserted *)
    rewrite H. pose proof (proj1 (Nat.ltb_lt _ _) e) as Hlt.
    assert (Hle : (S i <= List.length lines)%nat) by lia.
    destruct (firstn_list_insert check_code lines (S i) Hle) as [-> ->].
    rewrite (skipn_nth [] lines i Hlt). cbn [add_checks].
    rewrite marker_follows_skipn, e0, e1. cbn [negb andb].
    rewrite (firstn_S_nth [] lines i Hlt), <- !app_assoc. reflexivity.
Qed.

Lemma add_bounds_check_spec lines pat chk :
  add_bounds_check lines pat chk = add_checks pat chk lines.
Proof. unfold add_bounds_check. now rewrite add_bounds_check_loop_spec. Qed.

Lemma marker_follows_add_checks pat chk lines :
  marker_follows (add_checks pat chk lines) = marker_follows lines.
Proof.
  destruct lines as [|x rest]; [reflexivity|]. cbn [add_checks].
  destruct (py_in pat x && negb (marker_follows rest)); reflexivity.
Qed.

Lemma add_checks_inserts pat chk lines :
  inserts_of chk lines (add_checks pat chk lines).
Proof.
  induction lines as [|x rest IH]; cbn [add_checks]; [constructor|].
  destruct (py_in pat x && negb (marker_follows rest));
    repeat constructor; exact IH.
Qed.

Lemma add_checks_no_pattern pat chk lines :
  forallb (fun l => negb (py_in pat l)) lines = true ->
  add_checks pat chk lines = lines.
Proof.
  induction lines as [|x rest IH]; cbn [add_checks forallb]; [reflexivity|].
  intros E. apply andb_true_iff in E. destruct E as [E1 E2].
  apply negb_true_iff in E1. rewrite E1. cbn [andb]. now rewrite IH.
Qed.

Lemma add_checks_all_checked pat chk lines :
  py_in truncated_marker chk = true ->
  py_in pat chk = false ->
  all_checked pat (add_checks pat chk lines).
Proof.
  intros Hm Hp. induction lines as [|x rest IH]; cbn [add_checks]; [exact I|].
  destruct (py_in pat x) eqn:Ex; cbn [andb].
  - destruct (marker_follows rest) eqn:Er; cbn [negb all_checked].
    + split; [|exact IH]. intros _.
      now rewrite marker_follows_add_checks.
    + split; [intros _; exact Hm|]. split; [|exact IH].
      rewrite Hp. discriminate.
  - cbn [all_checked]. split; [|exact IH]. rewrite Ex. discriminate.
Qed.

Lemma all_checked_fixed pat chk lines :
  all_checked pat lines -> add_checks pat chk lines = lines.
Proof.
  induction lines as [|x rest IH]; cbn [add_checks all_checked];
    [reflexivity|].
  intros [E1 E2]. rewrite (IH E2).
  destruct (py_in pat x); cbn [andb]; [|reflexivity].
  now rewrite (E1 eq_refl).
Qed.

Lemma all_checked_nth pat lines :
  all_checked pat lines ->
  forall i l, nth_error lines i = Some l -> py_in pat l = true ->
  exists l', nth_error lines (S i) = Some l'
             /\ py_in truncated_marker l' = true.
Proof.
  induction lines as [|x rest IH]; intros Hc [|i] l E Hp;
    cbn [nth_error] in E; try discriminate.
  - injection E as ->. destruct Hc as [Hx _]. specialize (Hx Hp).
    destruct rest as [|y rest]; [discriminate|].
    exists y. split; [reflexivity|exact Hx].
  - destruct Hc as [_ Hc]. exact (IH Hc i l E Hp).
Qed.

End AddBoundsCheck.

(** [add_bounds_check] only ever inserts copies of [check_code]: the lines
    it was given are all kept, in their order; and when no line holds the
    pattern the list comes back as it was. *)
Theorem add_bounds_check_only_inserts
    (lines : list pystr) (start_pattern check_code : pystr) :
  inserts_of check_code lines
    (FixBoundsV2.add_bounds_check lines start_pattern check_code)
  /\ (forallb (fun l => negb (py_in start_pattern l)) lines = true ->
      FixBoundsV2.add_bounds_check lines start_pattern check_code = lines).
Proof.
  rewrite add_bounds_check_spec. split.
  - apply add_checks_inserts.
  - apply add_checks_no_pattern.
Qed.

(** When the inserted code holds the text 'truncated at offset' and not the
    pattern (as the script's arguments do), every line of the result that
    holds the pattern has a line with 'truncated at offset' right behind
    it. *)
Theorem add_bounds_check_checked
    (lines : list pystr) (start_pattern check_code : pystr)
    (Hmarker : py_in truncated_marker check_code = true)
    (Hfresh : py_in start_pattern check_code = false) :
  forall i l,
    nth_error (FixBoundsV2.add_bounds_check lines start_pattern check_code) i
    = Some l ->
    py_in start_pattern l = true ->
    exists l',
      nth_error (FixBoundsV2.add_bounds_check lines start_pattern check_code)
        (S i) = Some l'
      /\ py_in truncated_marker l' = true.
Proof.
  rewrite add_bounds_check_spec. apply all_checked_nth.
  now apply add_checks_all_checked.
Qed.

Lemma add_bounds_check_checked_witness :
  py_in truncated_marker FixBoundsV2.ReadString_check_code = true
  /\ py_in FixBoundsV2.ReadString_pattern FixBoundsV2.ReadString_check_code
     = false
  /\ forall i l,
       nth_error (FixBoundsV2.add_bounds_check unpatched_fragment
                    FixBoundsV2.ReadString_pattern
                    FixBoundsV2.ReadString_check_code) i = Some l ->
       py_in FixBoundsV2.ReadString_pattern l = true ->
       exists l',
         nth_error (FixBoundsV2.add_bounds_check unpatched_fragment
                      FixBoundsV2.ReadString_pattern
                      FixBoundsV2.ReadString_check_code) (S i) = Some l'
         /\ py_in truncated_marker l' = true.
Proof.
  split; [vm_compute; reflexivity|]. split; [vm_compute; reflexivity|].
  apply (add_bounds_check_checked unpatched_fragment
           FixBoundsV2.ReadString_pattern FixBoundsV2.ReadString_check_code);
    vm_compute; reflexivity.
Defined.

(** Under the same two conditions a second run changes nothing:
    [add_bounds_check] applied to its own result returns it as it is. *)
Theorem add_bounds_check_idempotent
    (lines : list pystr) (start_pattern check_code : pystr)
    (Hmarker : py_in truncated_marker check_code = true)
    (Hfresh : py_in start_pattern check_code = false) :
  FixBoundsV2.add_bounds_check
    (FixBoundsV2.add_bounds_check lines start_pattern check_code)
    start_pattern check_code
  = FixBoundsV2.add_bounds_check lines start_pattern check_code.
Proof.
  rewrite !add_bounds_check_spec. apply all_checked_fixed.
  now apply add_checks_all_checked.
Qed.

Lemma add_bounds_check_idempotent_witness :
  FixBoundsV2.add_bounds_check
    (FixBoundsV2.add_bounds_check unpatched_fragment
       FixBoundsV2.ReadString_pattern FixBoundsV2.ReadString_check_code)
    FixBoundsV2.ReadString_pattern FixBoundsV2.ReadString_check_code
  = FixBoundsV2.add_bounds_check unpatched_fragment
      FixBoundsV2.ReadString_pattern FixBoundsV2.ReadString_check_code.
Proof.
  apply (add_bounds_check_idempotent unpatched_fragment
           FixBoundsV2.ReadString_pattern FixBoundsV2.ReadString_check_code);
    vm_compute; reflexivity.
Defined.

(** ** [find_and_fix_method] (fix_bounds_v3.py) *)

Section FindAndFix.
Import FixBoundsV3.

Lemma skipn_app_2 {A} (l1 l2 : list A) (n : nat) :
  skipn (List.length l1 + n) (l1 ++ l2) = skipn n l2.
Proof.
  rewrite skipn_app, skipn_all2 by lia.
  now replace (List.length l1 + n - List.length l1)%nat with n by lia.
Qed.

Lemma scan_skip lines sig needed a n rest :
  (forall k, (a <= k < a + n)%nat -> py_in sig (nth k lines []) = false) ->
  scan lines sig needed (seq a n ++ rest) = scan lines sig needed rest.
Proof.
  revert a. induction n as [|n IH]; intros a H; cbn [seq app scan];
    [reflexivity|].
  rewrite H by lia. apply IH. intros k Hk. apply H. lia.
Qed.

Lemma none_holds_nth sig pre post k :
  none_holds sig pre = true -> (k < List.length pre)%nat ->
  py_in sig (nth k (pre ++ post) []) = false.
Proof.
  intros H Hk. rewrite app_nth1 by exact Hk.
  unfold none_holds in H. rewrite forallb_forall in H.
  apply negb_true_iff, H, nth_In, Hk.
Qed.

Lemma first_holder sig lines :
  none_holds sig lines = true
  \/ exists pre x post,
       lines = pre ++ x :: post /\ none_holds sig pre = true
       /\ py_in sig x = true.
Proof.
  induction lines as [|x rest IH]; [now left|].
  destruct (py_in sig x) eqn:Ex.
  - right. exists [], x, rest. now repeat split.
  - destruct IH as [IH|(pre & y & post & -> & Hpre & Hy)].
    + left. unfold none_holds. cbn [forallb]. now rewrite Ex.
    + right. exists (x :: pre), y, post. repeat split; [|exact Hy].
      unfold none_holds. cbn [forallb]. now rewrite Ex.
Qed.

Lemma none_holds_not_found sig needed lines :
  none_holds sig lines = true ->
  find_and_fix_method lines sig needed = Done (NotFound, lines).
Proof.
  intros H. unfold find_and_fix_method.
  rewrite <- (app_nil_r (seq 0 (List.length lines))).
  rewrite scan_skip; [reflexivity|].
  intros k Hk. rewrite <- (app_nil_r lines).
  apply none_holds_nth; [exact H|lia].
Qed.

Lemma find_at_first pre x post sig needed :
  none_holds sig pre = true -> py_in sig x = true ->
  find_and_fix_method (pre ++ x :: post) sig needed
  = match fix_at (pre ++ x :: post) needed (List.length pre) with
    | IndexError => IndexError
    | Done (Some r) => Done r
    | Done None =>
        scan (pre ++ x :: post) sig needed
          (seq (S (List.length pre)) (List.length post))
    end.
Proof.
  intros Hpre Hx. unfold find_and_fix_method.
  rewrite length_app. cbn [List.length]. rewrite seq_app.
  rewrite scan_skip
    by (intros k Hk; apply none_holds_nth; [exact Hpre|lia]).
  cbn [seq scan Nat.add]. now rewrite nth_middle, Hx.
Qed.

Lemma fix_at_last pre x needed :
  fix_at (pre ++ [x]) needed (List.length pre) = IndexError.
Proof.
  unfold fix_at.
  assert (E : nth_error (pre ++ [x]) (S (List.length pre)) = None).
  { apply nth_error_None. rewrite length_app. cbn [List.length]. lia. }
  now rewrite E.
Qed.

Lemma nth_error_second {A} (pre : list A) x next rest :
  nth_error (pre ++ x :: next :: rest) (S (List.length pre)) = Some next.
Proof.
  rewrite nth_error_app2 by lia.
  now replace (S (List.length pre) - List.length pre)%nat with 1%nat by lia.
Qed.

Lemma skipn_second {A} (pre : list A) x next rest :
  skipn (S (List.length pre)) (pre ++ x :: next :: rest) = next :: rest
  /\ skipn (S (S (List.length pre))) (pre ++ x :: next :: rest) = rest
  /\ firstn (S (List.length pre)) (pre ++ x :: next :: rest) = pre ++ [x]
  /\ firstn (S (S (List.length pre))) (pre ++ x :: next :: rest)
     = pre ++ [x; next].
Proof.
  replace (S (S (List.length pre))) with (List.length pre + 2)%nat by lia.
  replace (S (List.length pre)) with (List.length pre + 1)%nat by lia.
  rewrite !skipn_app_2, !firstn_app_2. now repeat split.
Qed.

(** The fixed-size branch at the first line that holds the signature. *)
Lemma fix_at_fixed pre x next rest n :
  fix_at (pre ++ x :: next :: rest) (NeedBytes n) (List.length pre)
  = if marker_follows
         (if py_in (pystr_of_string "{") next then rest else next :: rest)
    then Done (Some (AlreadyPatched, pre ++ x :: next :: rest))
    else Done (Some (Patched,
           pre ++ x ::
             (if py_in (pystr_of_string "{") next
              then next :: fixed_check_line n :: fixed_throw_line n :: rest
              else fixed_check_line n :: fixed_throw_line n :: next :: rest))).
Proof.
  unfold fix_at. rewrite nth_error_second.
  destruct (skipn_second pre x next rest) as (S1 & S2 & F1 & F2).
  assert (Hlen : List.length (pre ++ x :: next :: rest)
                 = (List.length pre + 2 + List.length rest)%nat).
  { rewrite length_app. cbn [List.length]. lia. }
  destruct (py_in (pystr_of_string "{") next); cbn [negb].
  - rewrite <- marker_follows_skipn, S2.
    destruct (marker_follows rest); [reflexivity|].
    rewrite insert_two by lia. rewrite S2, F2, <- app_assoc. reflexivity.
  - rewrite <- marker_follows_skipn, S1.
    destruct (marker_follows (next :: rest)); [reflexivity|].
    rewrite insert_two by lia. rewrite S1, F1, <- app_assoc. reflexivity.
Qed.

Lemma find_fixed pre x next rest sig n :
  none_holds sig pre = true -> py_in sig x = true ->
  find_and_fix_method (pre ++ x :: next :: rest) sig (NeedBytes n)
  = if marker_follows
         (if py_in (pystr_of_string "{") next then rest else next :: rest)
    then Done (AlreadyPatched, pre ++ x :: next :: rest)
    else Done (Patched,
           pre ++ x ::
             (if py_in (pystr_of_string "{") next
              then next :: fixed_check_line n :: fixed_throw_line n :: rest
              else fixed_check_line n :: fixed_throw_line n :: next :: rest)).
Proof.
  intros Hpre Hx. rewrite (find_at_first _ _ _ _ _ Hpre Hx), fix_at_fixed.
  now destruct (marker_follows _).
Qed.

Lemma find_last pre x sig needed :
  none_holds sig pre = true -> py_in sig x = true ->
  find_and_fix_method (pre ++ [x]) sig needed = IndexError.
Proof.
  intros Hpre Hx. now rewrite (find_at_first _ _ _ _ _ Hpre Hx), fix_at_last.
Qed.

(** *** The inserted lines never hold the marker *)

Lemma pystr_of_string_cons a s :
  pystr_of_string (String.String a s)
  = Z.of_N (N_of_ascii a) :: pystr_of_string s.
Proof. reflexivity. Qed.

Lemma uint_digits d :
  forallb digit_or_minus (pystr_of_string (NilEmpty.string_of_uint d)) = true.
Proof.
  induction d; cbn [NilEmpty.string_of_uint]; [reflexivity|..];
    rewrite pystr_of_string_cons; cbn [forallb]; rewrite IHd; reflexivity.
Qed.

Lemma str_int_digits n : forallb digit_or_minus (str_int n) = true.
Proof.
  unfold str_int.
  assert (U : forall d, forallb digit_or_minus
                          (pystr_of_string (NilZero.string_of_uint d)) = true).
  { intros d. unfold NilZero.string_of_uint.
    destruct d; try apply uint_digits. reflexivity. }
  destruct (Z.to_int n) as [d|d]; cbn [NilZero.string_of_int]; [apply U|].
  rewrite pystr_of_string_cons. cbn [forallb]. rewrite U. reflexivity.
Qed.

Lemma digit_not c x :
  digit_or_minus x = false -> digit_or_minus c = true -> (x =? c) = false.
Proof.
  intros Hx Hc. apply Z.eqb_neq. intros ->. congruence.
Qed.

Lemma py_in_single c s : py_in [c] s = existsb (Z.eqb c) s.
Proof.
  induction s as [|a s IH]; [reflexivity|].
  cbn [py_in starts_with existsb]. rewrite IH.
  now destruct s; rewrite andb_true_r.
Qed.

Lemma digits_lack x D :
  digit_or_minus x = false -> forallb digit_or_minus D = true ->
  existsb (Z.eqb x) D = false.
Proof.
  intros Hx. induction D as [|c D IH]; cbn [forallb existsb]; [reflexivity|].
  intros H. apply andb_true_iff in H. destruct H as [Hc HD].
  now rewrite (digit_not c x Hx Hc), IH.
Qed.

Lemma last_cons {A} (l : list A) (a d : A) : last (a :: l) d = last l a.
Proof.
  revert a d. induction l as [|b l IH]; intros a d; [reflexivity|].
  change (last (a :: b :: l) d) with (last (b :: l) d).
  now rewrite !IH.
Qed.

Lemma has_tr_app p A X :
  has_tr_from p (A ++ X) = has_tr_from p A || has_tr_from (last A p) X.
Proof.
  revert p. induction A as [|a A IH]; intros p; [reflexivity|].
  rewrite last_cons. cbn [app has_tr_from]. now rewrite IH, orb_assoc.
Qed.

Lemma has_tr_digits D Y p :
  forallb digit_or_minus D = true -> (p =? 116) = false ->
  has_tr_from p (D ++ 32 :: Y) = has_tr_from 32 Y.
Proof.
  revert p. induction D as [|c D IH]; intros p HD Hp.
  - cbn [app has_tr_from]. now rewrite Hp.
  - cbn [forallb] in HD. apply andb_true_iff in HD. destruct HD as [Hc HD].
    cbn [app has_tr_from]. rewrite Hp. cbn [andb orb].
    apply IH; [exact HD|]. rewrite Z.eqb_sym.
    now apply (digit_not c 116).
Qed.

Lemma marker_has_tr s p :
  py_in truncated_marker s = true -> has_tr_from p s = true.
Proof.
  revert p. induction s as [|a s IH]; intros p H; [discriminate H|].
  cbn [py_in] in H. apply orb_true_iff in H. destruct H as [H|H].
  - change truncated_marker with (116 :: 114 :: skipn 2 truncated_marker) in H.
    cbn [starts_with] in H. apply andb_true_iff in H. destruct H as [Ha H].
    apply Z.eqb_eq in Ha. subst a.
    destruct s as [|b s]; [discriminate H|].
    apply andb_true_iff in H. destruct H as [Hb _].
    apply Z.eqb_eq in Hb. subst b.
    cbn [has_tr_from]. apply orb_true_iff. right. reflexivity.
  - cbn [has_tr_from]. apply orb_true_iff. right. now apply IH.
Qed.

Lemma fixed_check_line_plain n :
  py_in truncated_marker (fixed_check_line n) = false
  /\ py_in (pystr_of_string "{") (fixed_check_line n) = false.
Proof.
  split.
  - destruct (py_in truncated_marker (fixed_check_line n)) eqn:E;
      [|reflexivity].
    apply (marker_has_tr _ 0) in E. rewrite <- E.
    assert (F : fixed_check_line n
                = (indent ++ pystr_of_string "if (offset + ")
                  ++ str_int n
                  ++ 32 :: pystr_of_string "> data.Length)" ++ [10]).
    { unfold fixed_check_line. rewrite <- app_assoc. reflexivity. }
    rewrite F, has_tr_app.
    rewrite has_tr_digits; [reflexivity|apply str_int_digits|reflexivity].
  - change (pystr_of_string "{") with [123]. rewrite py_in_single.
    unfold fixed_check_line. rewrite !existsb_app.
    rewrite (digits_lack 123 (str_int n) eq_refl (str_int_digits n)).
    reflexivity.
Qed.

(** *** The length branch *)

Lemma find_seq_first (f : nat -> bool) b m j :
  (forall k, (b <= k < j)%nat -> f k = false) -> f j = true ->
  (b <= j < b + m)%nat -> List.find f (seq b m) = Some j.
Proof.
  revert b. induction m as [|m IH]; intros b Hlt Hj Hr; [lia|].
  cbn [seq List.find]. destruct (Nat.eq_dec b j) as [->|Hne].
  - now rewrite Hj.
  - rewrite Hlt by lia. apply IH; [|exact Hj|lia].
    intros k Hk. apply Hlt. lia.
Qed.

Lemma none_holds_tail P lines A T k :
  lines = A ++ T -> none_holds P T = true -> (List.length A <= k)%nat ->
  (k <? List.length lines)%nat && py_in P (nth k lines []) = false.
Proof.
  intros -> H Hk.
  destruct (Nat.ltb_spec k (List.length (A ++ T))) as [Hlt|]; [|reflexivity].
  cbn [andb]. rewrite app_nth2 by lia.
  unfold none_holds in H. rewrite forallb_forall in H.
  apply negb_true_iff, H, nth_In. rewrite length_app in Hlt. lia.
Qed.

Lemma none_holds_head P lines A T k :
  lines = A ++ T -> none_holds P A = true -> (k < List.length A)%nat ->
  py_in P (nth k lines []) = false.
Proof. intros -> H Hk. now apply none_holds_nth. Qed.

Lemma none_holds_app P A B :
  none_holds P (A ++ B) = none_holds P A && none_holds P B.
Proof. apply forallb_app. Qed.

Lemma fix_at_length pre sigl mid varl rest :
  none_holds var_length_line (sigl :: mid) = true ->
  py_in var_length_line varl = true ->
  (List.length mid <= 8)%nat ->
  none_holds truncated_marker (mid ++ varl :: rest) = true ->
  fix_at (pre ++ sigl :: mid ++ varl :: rest) NeedLength (List.length pre)
  = Done (Some (Patched,
      pre ++ sigl :: mid ++ varl :: length_check_line :: length_throw_line
        :: rest)).
Proof.
  intros Hvar Hv Hmid Hmark.
  set (lines := pre ++ sigl :: mid ++ varl :: rest).
  set (i := List.length pre).
  set (j := (i + 1 + List.length mid)%nat).
  assert (L1 : lines = (pre ++ [sigl]) ++ (mid ++ varl :: rest)).
  { subst lines. now rewrite <- app_assoc. }
  assert (L2 : lines = pre ++ ((sigl :: mid) ++ varl :: rest)).
  { reflexivity. }
  assert (L3 : lines = (pre ++ sigl :: mid ++ [varl]) ++ rest).
  { subst lines. rewrite <- app_assoc. cbn [app].
    now rewrite <- app_assoc. }
  assert (Hlen : List.length lines = (j + 1 + List.length rest)%nat).
  { subst lines j i. rewrite length_app. cbn [List.length].
    rewrite length_app. cbn [List.length]. lia. }
  assert (Hl3 : List.length (pre ++ sigl :: mid ++ [varl]) = S j).
  { subst j i. rewrite length_app. cbn [List.length].
    rewrite length_app. cbn [List.length]. lia. }
  assert (Hall : forall b, (i <= b <= S i)%nat ->
    (if (S b <? List.length lines)%nat
        && py_in truncated_marker (nth (S b) lines [])
     then Done (Some (AlreadyPatched, lines))
     else match find_var_length lines b with
          | Some j' =>
              Done (Some (Patched,
                list_insert (S (S j')) length_throw_line
                  (list_insert (S j') length_check_line lines)))
          | None => Done None
          end)
    = Done (Some (Patched,
        pre ++ sigl :: mid ++ varl :: length_check_line :: length_throw_line
          :: rest))).
  { intros b Hb.
    rewrite (none_holds_tail truncated_marker lines _ _ (S b) L1 Hmark)
      by (rewrite length_app; cbn [List.length]; lia).
    assert (Ef : find_var_length lines b = Some j).
    { unfold find_var_length. apply find_seq_first.
      - intros k Hk. rewrite L2.
        replace k with (List.length pre + (k - i))%nat by lia.
        rewrite app_nth2_plus.
        apply (none_holds_head _ _ (sigl :: mid) (varl :: rest) _ eq_refl Hvar).
        cbn [List.length]. lia.
      - rewrite L2.
        replace j with (List.length pre + List.length (sigl :: mid))%nat
          by (cbn [List.length]; lia).
        rewrite app_nth2_plus, nth_middle. exact Hv.
      - lia. }
    rewrite Ef, insert_two by lia.
    rewrite L3. replace (S j) with (List.length (pre ++ sigl :: mid ++ [varl]) + 0)%nat
      by lia.
    rewrite firstn_app_2, skipn_app_2. cbn [firstn skipn].
    rewrite app_nil_r, <- app_assoc. cbn [app].
    now rewrite <- app_assoc. }
  unfold fix_at. fold lines. fold i.
  destruct (nth_error lines (S i)) as [next|] eqn:En.
  - destruct (negb (py_in (pystr_of_string "{") next)); apply Hall; lia.
  - apply nth_error_None in En. lia.
Qed.

Lemma find_length pre sigl mid varl rest sig :
  none_holds sig pre = true -> py_in sig sigl = true ->
  none_holds var_length_line (sigl :: mid) = true ->
  py_in var_length_line varl = true ->
  (List.length mid <= 8)%nat ->
  none_holds truncated_marker (mid ++ varl :: rest) = true ->
  find_and_fix_method (pre ++ sigl :: mid ++ varl :: rest) sig NeedLength
  = Done (Patched,
      pre ++ sigl :: mid ++ varl :: length_check_line :: length_throw_line
        :: rest).
Proof.
  intros Hpre Hsig Hvar Hv Hmid Hmark.
  rewrite (find_at_first _ _ _ _ _ Hpre Hsig).
  now rewrite fix_at_length.
Qed.

(** *** Every way a call can end *)

Lemma holder_in_firstn sig lines i k :
  (i < k)%nat -> (i < List.length lines)%nat ->
  py_in sig (nth i lines []) = true ->
  existsb (py_in sig) (firstn k lines) = true.
Proof.
  intros Hik Hi H. apply existsb_exists. exists (nth i lines []).
  split; [|exact H].
  rewrite <- (firstn_skipn k lines) at 1.
  rewrite app_nth1 by (rewrite length_firstn; lia).
  apply nth_In. rewrite length_firstn. lia.
Qed.

Lemma fix_at_outcomes lines sig needed i :
  (i < List.length lines)%nat -> py_in sig (nth i lines []) = true ->
  match fix_at lines needed i with
  | IndexError => exists pre x, lines = pre ++ [x] /\ py_in sig x = true
  | Done None => needed = NeedLength
  | Done (Some (AlreadyPatched, out)) =>
      out = lines /\ existsb (py_in truncated_marker) lines = true
  | Done (Some (NotFound, out)) => False
  | Done (Some (Patched, out)) =>
      exists pre post,
        lines = pre ++ post
        /\ out = pre ++ fst (patch_lines needed) :: snd (patch_lines needed)
                   :: post
        /\ existsb (py_in sig) pre = true
  end.
Proof.
  intros Hi Hsig. unfold fix_at.
  destruct (nth_error lines (S i)) as [next|] eqn:En.
  2: { apply nth_error_None in En.
       exists (firstn i lines), (nth i lines []). split; [|exact Hsig].
       rewrite <- (firstn_skipn i lines) at 1. f_equal.
       rewrite (skipn_nth [] lines i Hi). f_equal.
       apply skipn_all2. exact En. }
  assert (Hn : (S i < List.length lines)%nat).
  { apply nth_error_Some. congruence. }
  set (b := if negb (py_in (pystr_of_string "{") next) then i else S i).
  assert (Hb : (i <= b <= S i)%nat).
  { subst b. destruct (negb _); lia. }
  clearbody b.
  destruct ((S b <? List.length lines)%nat
            && py_in truncated_marker (nth (S b) lines [])) eqn:Ec.
  - split; [reflexivity|]. apply andb_true_iff in Ec. destruct Ec as [E1 E2].
    apply Nat.ltb_lt in E1. apply existsb_exists.
    exists (nth (S b) lines []). split; [now apply nth_In|exact E2].
  - destruct needed as [|n].
    + destruct (find_var_length lines b) as [j|] eqn:Ef; [|reflexivity].
      unfold find_var_length in Ef. apply find_some in Ef.
      destruct Ef as [Hin _]. apply in_seq in Hin.
      rewrite insert_two by lia.
      exists (firstn (S j) lines), (skipn (S j) lines).
      split; [symmetry; apply firstn_skipn|]. split; [reflexivity|].
      apply (holder_in_firstn sig lines i); [lia|exact Hi|exact Hsig].
    + rewrite insert_two by lia.
      exists (firstn (S b) lines), (skipn (S b) lines).
      split; [symmetry; apply firstn_skipn|]. split; [reflexivity|].
      apply (holder_in_firstn sig lines i); [lia|exact Hi|exact Hsig].
Qed.

Lemma scan_outcomes lines sig needed indices :
  Forall (fun i => (i < List.length lines)%nat) indices ->
  match scan lines sig needed indices with
  | IndexError => exists pre x, lines = pre ++ [x] /\ py_in sig x = true
  | Done (AlreadyPatched, out) =>
      out = lines /\ existsb (py_in truncated_marker) lines = true
  | Done (NotFound, out) =>
      out = lines
      /\ (forall n, needed = NeedBytes n ->
          forall i, In i indices -> py_in sig (nth i lines []) = false)
  | Done (Patched, out) =>
      exists pre post,
        lines = pre ++ post
        /\ out = pre ++ fst (patch_lines needed) :: snd (patch_lines needed)
                   :: post
        /\ existsb (py_in sig) pre = true
  end.
Proof.
  induction indices as [|i rest IH]; intros Hall; cbn [scan].
  - split; [reflexivity|]. intros _ _ i [].
  - inversion Hall as [|? ? Hi Hrest]; subst. specialize (IH Hrest).
    destruct (py_in sig (nth i lines [])) eqn:Es.
    + pose proof (fix_at_outcomes lines sig needed i Hi Es) as Ho.
      destruct (fix_at lines needed i) as [[[[| |] out]|]|];
        try exact Ho; try contradiction.
      subst needed.
      destruct (scan lines sig NeedLength rest) as [[[| |] out]|];
        try exact IH.
      split; [apply IH|]. intros n Hn. discriminate Hn.
    + destruct (scan lines sig needed rest) as [[[| |] out]|]; try exact IH.
      destruct IH as [-> IH]. split; [reflexivity|].
      intros n Hn k [<-|Hk]; [exact Es|]. exact (IH n Hn k Hk).
Qed.

(** *** The length read out of reach *)

Lemma find_none_seq (f : nat -> bool) b m :
  (forall k, (b <= k < b + m)%nat -> f k = false) ->
  List.find f (seq b m) = None.
Proof.
  revert b. induction m as [|m IH]; intros b H; [reflexivity|].
  cbn [seq List.find]. rewrite H by lia. apply IH.
  intros k Hk. apply H. lia.
Qed.

Lemma fix_at_length_miss pre sigl mid rest :
  (10 <= List.length mid)%nat ->
  none_holds var_length_line (sigl :: mid) = true ->
  none_holds truncated_marker mid = true ->
  fix_at (pre ++ sigl :: mid ++ rest) NeedLength (List.length pre)
  = Done None.
Proof.
  intros Hmid Hvar Hmark.
  set (lines := pre ++ sigl :: mid ++ rest).
  set (i := List.length pre).
  assert (L1 : lines = (pre ++ [sigl]) ++ (mid ++ rest)).
  { subst lines. now rewrite <- app_assoc. }
  assert (L2 : lines = pre ++ ((sigl :: mid) ++ rest)).
  { reflexivity. }
  assert (Hlen : List.length lines
                 = (i + 1 + List.length mid + List.length rest)%nat).
  { subst lines i. rewrite length_app. cbn [List.length].
    rewrite length_app. lia. }
  assert (Hall : forall b, (i <= b <= S i)%nat ->
    (if (S b <? List.length lines)%nat
        && py_in truncated_marker (nth (S b) lines [])
     then Done (Some (AlreadyPatched, lines))
     else match find_var_length lines b with
          | Some j' =>
              Done (Some (Patched,
                list_insert (S (S j')) length_throw_line
                  (list_insert (S j') length_check_line lines)))
          | None => Done None
          end)
    = Done None).
  { intros b Hb.
    assert (Em : py_in truncated_marker (nth (S b) lines []) = false).
    { rewrite L1.
      replace (S b) with (List.length (pre ++ [sigl]) + (b - i))%nat
        by (rewrite length_app; cbn [List.length]; lia).
      rewrite app_nth2_plus.
      apply (none_holds_head _ _ mid rest _ eq_refl Hmark). lia. }
    rewrite Em, andb_false_r.
    assert (Ef : find_var_length lines b = None).
    { unfold find_var_length. apply find_none_seq.
      intros k Hk. rewrite L2.
      replace k with (List.length pre + (k - i))%nat by lia.
      rewrite app_nth2_plus.
      apply (none_holds_head _ _ (sigl :: mid) rest _ eq_refl Hvar).
      cbn [List.length]. lia. }
    now rewrite Ef. }
  unfold fix_at. fold lines. fold i.
  destruct (nth_error lines (S i)) as [next|] eqn:En.
  - destruct (negb (py_in (pystr_of_string "{") next)); apply Hall; lia.
  - apply nth_error_None in En. lia.
Qed.

End FindAndFix.

(** However a call of [find_and_fix_method] ends, no line is lost or
    changed.  It stops on an IndexError only when the last line holds the
    signature; it reports 'Could not find' or 'already has bounds check'
    with the list untouched, the first (for a fixed size) only when no line
    holds the signature, the second only when some line holds 'truncated at
    offset'; and when it patches, the result is the list with the two new
    lines side by side, somewhere behind a line that holds the signature. *)
Theorem find_and_fix_outcomes
    (lines : list pystr) (method_signature : pystr)
    (needed : FixBoundsV3.bytes_needed) :
  match FixBoundsV3.find_and_fix_method lines method_signature needed with
  | IndexError =>
      exists pre x, lines = pre ++ [x] /\ py_in method_signature x = true
  | Done (FixBoundsV3.NotFound, out) =>
      out = lines
      /\ (forall n, needed = FixBoundsV3.NeedBytes n ->
          none_holds method_signature lines = true)
  | Done (FixBoundsV3.AlreadyPatched, out) =>
      out = lines /\ existsb (py_in truncated_marker) lines = true
  | Done (FixBoundsV3.Patched, out) =>
      exists pre post,
        lines = pre ++ post
        /\ out = pre ++ fst (patch_lines needed) :: snd (patch_lines needed)
                   :: post
        /\ existsb (py_in method_signature) pre = true
  end.
Proof.
  unfold FixBoundsV3.find_and_fix_method.
  assert (Hall : Forall (fun i => (i < List.length lines)%nat)
                   (seq 0 (List.length lines))).
  { apply Forall_forall. intros i Hi. apply in_seq in Hi. lia. }
  pose proof (scan_outcomes lines method_signature needed _ Hall) as H.
  destruct (FixBoundsV3.scan lines method_signature needed
              (seq 0 (List.length lines))) as [[[| |] out]|];
    try exact H.
  destruct H as [-> H]. split; [reflexivity|]. intros n Hn.
  apply forallb_forall. intros x Hx. apply negb_true_iff.
  destruct (In_nth lines x [] Hx) as (i & Hi & <-).
  apply (H n Hn). apply in_seq. lia.
Qed.

(** When the first line that holds the signature is the last line of the
    file, the call stops on an IndexError ([lines[i + 1]] does not
    exist), whatever the third argument. *)
Theorem signature_on_last_line_raises
    (pre : list pystr) (x method_signature : pystr)
    (needed : FixBoundsV3.bytes_needed)
    (Hpre : none_holds method_signature pre = true)
    (Hsig : py_in method_signature x = true) :
  FixBoundsV3.find_and_fix_method (pre ++ [x]) method_signature needed
  = IndexError.
Proof.
  (* the scan goes by the lines of [pre] and stops at [x] *)
  rewrite (find_at_first pre x [] method_signature needed Hpre Hsig).
  (* [lines[i + 1]] is past the end *)
  now rewrite fix_at_last.
Qed.

Lemma signature_on_last_line_raises_witness :
  FixBoundsV3.find_and_fix_method
    ([pystr_of_string "    // readers" ++ [10]]
     ++ [pystr_of_string "        " ++ ReadGuid_signature])
    ReadGuid_signature (FixBoundsV3.NeedBytes 16)
  = IndexError.
Proof.
  apply (signature_on_last_line_raises
           [pystr_of_string "    // readers" ++ [10]]
           (pystr_of_string "        " ++ ReadGuid_signature)
           ReadGuid_signature (FixBoundsV3.NeedBytes 16));
    vm_compute; reflexivity.
Defined.

(** A fixed-size call, at the first line [sigl] that holds the signature,
    with [next] the line after it.  The brace is taken to be on [next] when
    [next] holds one, else on [sigl]; if the line after the brace holds
    'truncated at offset' nothing changes, else the two check lines are
    put right after the brace line. *)
Theorem fixed_size_patch
    (pre : list pystr) (sigl next : pystr) (rest : list pystr)
    (method_signature : pystr) (n : Z)
    (Hpre : none_holds method_signature pre = true)
    (Hsig : py_in method_signature sigl = true) :
  FixBoundsV3.find_and_fix_method (pre ++ sigl :: next :: rest)
    method_signature (FixBoundsV3.NeedBytes n)
  = if marker_follows
         (if py_in (pystr_of_string "{") next then rest else next :: rest)
    then Done (FixBoundsV3.AlreadyPatched, pre ++ sigl :: next :: rest)
    else Done (FixBoundsV3.Patched,
           pre ++ sigl ::
             (if py_in (pystr_of_string "{") next
              then next :: FixBoundsV3.fixed_check_line n
                     :: FixBoundsV3.fixed_throw_line n :: rest
              else FixBoundsV3.fixed_check_line n
                     :: FixBoundsV3.fixed_throw_line n :: next :: rest)).
Proof.
  rewrite (find_at_first pre sigl (next :: rest) method_signature
             (FixBoundsV3.NeedBytes n) Hpre Hsig).
  rewrite fix_at_fixed.
  now destruct (marker_follows _).
Qed.

Lemma fixed_size_patch_witness :
  FixBoundsV3.find_and_fix_method unpatched_guid_fragment
    ReadGuid_signature (FixBoundsV3.NeedBytes 16)
  = Done (FixBoundsV3.Patched,
      [ pystr_of_string "        " ++ ReadGuid_signature ++ [10];
        pystr_of_string "        {" ++ [10];
        FixBoundsV3.fixed_check_line 16;
        FixBoundsV3.fixed_throw_line 16;
        pystr_of_string "            var value = new Guid(data.Slice(offset, 16));"
          ++ [10];
        pystr_of_string "        }" ++ [10] ]).
Proof.
  exact (fixed_size_patch []
           (pystr_of_string "        " ++ ReadGuid_signature ++ [10])
           (pystr_of_string "        {" ++ [10])
           [ pystr_of_string
               "            var value = new Guid(data.Slice(offset, 16));"
               ++ [10];
             pystr_of_string "        }" ++ [10] ]
           ReadGuid_signature 16 eq_refl eq_refl).
Defined.

(** The fixed-size patch is not recognised afterwards: the two lines it
    inserts do not hold 'truncated at offset' (the check line has no such
    text and the message says 'Truncated'), so a second call on the
    patched list inserts the same two lines once more. *)
Theorem fixed_patch_repeats
    (lines : list pystr) (method_signature : pystr) (n : Z)
    (out : list pystr)
    (Hrun : FixBoundsV3.find_and_fix_method lines method_signature
              (FixBoundsV3.NeedBytes n)
            = Done (FixBoundsV3.Patched, out)) :
  exists pre post,
    lines = pre ++ post
    /\ out = pre ++ FixBoundsV3.fixed_check_line n
                :: FixBoundsV3.fixed_throw_line n :: post
    /\ FixBoundsV3.find_and_fix_method out method_signature
         (FixBoundsV3.NeedBytes n)
       = Done (FixBoundsV3.Patched,
           pre ++ FixBoundsV3.fixed_check_line n
             :: FixBoundsV3.fixed_throw_line n
             :: FixBoundsV3.fixed_check_line n
             :: FixBoundsV3.fixed_throw_line n :: post).
Proof.
  destruct (first_holder method_signature lines)
    as [Hn | (pre & x & post & -> & Hpre & Hx)].
  - rewrite (none_holds_not_found _ _ _ Hn) in Hrun. discriminate Hrun.
  - destruct post as [|next rest].
    + rewrite (find_last _ _ _ _ Hpre Hx) in Hrun. discriminate Hrun.
    + rewrite (find_fixed _ _ _ _ _ n Hpre Hx) in Hrun.
      destruct (marker_follows _) eqn:Em; [discriminate Hrun|].
      injection Hrun as <-.
      destruct (fixed_check_line_plain n) as [Pm Pb].
      destruct (py_in (pystr_of_string "{") next) eqn:Eb.
      * exists (pre ++ [x; next]), rest.
        rewrite <- !app_assoc. cbn [app].
        split; [reflexivity|]. split; [reflexivity|].
        rewrite (find_fixed pre x next _ _ n Hpre Hx), Eb.
        cbn [marker_follows]. now rewrite Pm.
      * exists (pre ++ [x]), (next :: rest).
        rewrite <- !app_assoc. cbn [app].
        split; [reflexivity|]. split; [reflexivity|].
        rewrite (find_fixed pre x _ _ _ n Hpre Hx), Pb.
        cbn [marker_follows]. now rewrite Pm.
Qed.

Lemma fixed_patch_repeats_witness :
  exists pre post,
    unpatched_guid_fragment = pre ++ post
    /\ (firstn 2 unpatched_guid_fragment
        ++ FixBoundsV3.fixed_check_line 16
        :: FixBoundsV3.fixed_throw_line 16
        :: skipn 2 unpatched_guid_fragment)
       = pre ++ FixBoundsV3.fixed_check_line 16
           :: FixBoundsV3.fixed_throw_line 16 :: post
    /\ FixBoundsV3.find_and_fix_method
         (firstn 2 unpatched_guid_fragment
          ++ FixBoundsV3.fixed_check_line 16
          :: FixBoundsV3.fixed_throw_line 16
          :: skipn 2 unpatched_guid_fragment)
         ReadGuid_signature (FixBoundsV3.NeedBytes 16)
       = Done (FixBoundsV3.Patched,
           pre ++ FixBoundsV3.fixed_check_line 16
             :: FixBoundsV3.fixed_throw_line 16
             :: FixBoundsV3.fixed_check_line 16
             :: FixBoundsV3.fixed_throw_line 16 :: post).
Proof.
  apply (fixed_patch_repeats unpatched_guid_fragment ReadGuid_signature 16).
  vm_compute. reflexivity.
Defined.

(** A length call, at the first line [sigl] that holds the signature, in a
    part of the file with no 'truncated at offset' line: when at most
    eight lines [mid] lie between [sigl] and the first line with the
    length read, the two check lines are put right behind that line. *)
Theorem length_patch_after_read
    (pre : list pystr) (sigl : pystr) (mid : list pystr) (varl : pystr)
    (rest : list pystr) (method_signature : pystr)
    (Hpre : none_holds method_signature pre = true)
    (Hsig : py_in method_signature sigl = true)
    (Hmid : none_holds FixBoundsV3.var_length_line (sigl :: mid) = true)
    (Hvar : py_in FixBoundsV3.var_length_line varl = true)
    (Hnear : (List.length mid <= 8)%nat)
    (Hnew : none_holds truncated_marker (mid ++ varl :: rest) = true) :
  FixBoundsV3.find_and_fix_method (pre ++ sigl :: mid ++ varl :: rest)
    method_signature FixBoundsV3.NeedLength
  = Done (FixBoundsV3.Patched,
      pre ++ sigl :: mid ++ varl :: FixBoundsV3.length_check_line
        :: FixBoundsV3.length_throw_line :: rest).
Proof.
  rewrite (find_at_first pre sigl (mid ++ varl :: rest) method_signature
             FixBoundsV3.NeedLength Hpre Hsig).
  now rewrite (fix_at_length pre sigl mid varl rest Hmid Hvar Hnear Hnew).
Qed.

Lemma length_patch_after_read_witness :
  FixBoundsV3.find_and_fix_method
    (firstn 1 unpatched_fragment
     ++ nth 1 unpatched_fragment []
     :: [nth 2 unpatched_fragment []]
     ++ nth 3 unpatched_fragment [] :: skipn 4 unpatched_fragment)
    ReadString_signature FixBoundsV3.NeedLength
  = Done (FixBoundsV3.Patched,
      firstn 1 unpatched_fragment
      ++ nth 1 unpatched_fragment []
      :: [nth 2 unpatched_fragment []]
      ++ nth 3 unpatched_fragment [] :: FixBoundsV3.length_check_line
      :: FixBoundsV3.length_throw_line :: skipn 4 unpatched_fragment).
Proof.
  apply (length_patch_after_read (firstn 1 unpatched_fragment)
           (nth 1 unpatched_fragment []) [nth 2 unpatched_fragment []]
           (nth 3 unpatched_fragment []) (skipn 4 unpatched_fragment)
           ReadString_signature);
    vm_compute; try reflexivity; lia.
Defined.

(** The length patch is not recognised either: under the same conditions a
    second call on the patched list puts the two lines in once more. *)
Theorem length_patch_repeats
    (pre : list pystr) (sigl : pystr) (mid : list pystr) (varl : pystr)
    (rest : list pystr) (method_signature : pystr)
    (Hpre : none_holds method_signature pre = true)
    (Hsig : py_in method_signature sigl = true)
    (Hmid : none_holds FixBoundsV3.var_length_line (sigl :: mid) = true)
    (Hvar : py_in FixBoundsV3.var_length_line varl = true)
    (Hnear : (List.length mid <= 8)%nat)
    (Hnew : none_holds truncated_marker (mid ++ varl :: rest) = true) :
  FixBoundsV3.find_and_fix_method
    (pre ++ sigl :: mid ++ varl :: FixBoundsV3.length_check_line
       :: FixBoundsV3.length_throw_line :: rest)
    method_signature FixBoundsV3.NeedLength
  = Done (FixBoundsV3.Patched,
      pre ++ sigl :: mid ++ varl :: FixBoundsV3.length_check_line
        :: FixBoundsV3.length_throw_line :: FixBoundsV3.length_check_line
        :: FixBoundsV3.length_throw_line :: rest).
Proof.
  apply find_length; try assumption.
  rewrite none_holds_app in Hnew |- *.
  apply andb_true_iff in Hnew. destruct Hnew as [H1 H2].
  rewrite H1. cbn [andb]. unfold none_holds in H2 |- *.
  cbn [forallb] in H2 |- *.
  apply andb_true_iff in H2. destruct H2 as [H2 H3].
  rewrite H2, H3. reflexivity.
Qed.

Lemma length_patch_repeats_witness :
  FixBoundsV3.find_and_fix_method
    (firstn 1 unpatched_fragment
     ++ nth 1 unpatched_fragment []
     :: [nth 2 unpatched_fragment []]
     ++ nth 3 unpatched_fragment [] :: FixBoundsV3.length_check_line
     :: FixBoundsV3.length_throw_line :: skipn 4 unpatched_fragment)
    ReadString_signature FixBoundsV3.NeedLength
  = Done (FixBoundsV3.Patched,
      firstn 1 unpatched_fragment
      ++ nth 1 unpatched_fragment []
      :: [nth 2 unpatched_fragment []]
      ++ nth 3 unpatched_fragment [] :: FixBoundsV3.length_check_line
      :: FixBoundsV3.length_throw_line :: FixBoundsV3.length_check_line
      :: FixBoundsV3.length_throw_line :: skipn 4 unpatched_fragment).
Proof.
  apply (length_patch_repeats (firstn 1 unpatched_fragment)
           (nth 1 unpatched_fragment []) [nth 2 unpatched_fragment []]
           (nth 3 unpatched_fragment []) (skipn 4 unpatched_fragment)
           ReadString_signature);
    vm_compute; try reflexivity; lia.
Defined.

(** The length read is looked for in ten lines only, counted from the
    brace line.  When ten or more lines without it follow the signature
    line (and no other line holds the signature), the call reports 'Could
    not find' and leaves the list as it was, wherever the read is. *)
Theorem length_read_out_of_reach
    (pre : list pystr) (sigl : pystr) (mid rest : list pystr)
    (method_signature : pystr)
    (Hpre : none_holds method_signature pre = true)
    (Hsig : py_in method_signature sigl = true)
    (Hpost : none_holds method_signature (mid ++ rest) = true)
    (Hfar : (10 <= List.length mid)%nat)
    (Hmid : none_holds FixBoundsV3.var_length_line (sigl :: mid) = true)
    (Hnew : none_holds truncated_marker mid = true) :
  FixBoundsV3.find_and_fix_method (pre ++ sigl :: mid ++ rest)
    method_signature FixBoundsV3.NeedLength
  = Done (FixBoundsV3.NotFound, pre ++ sigl :: mid ++ rest).
Proof.
  rewrite (find_at_first _ _ _ _ _ Hpre Hsig).
  rewrite (fix_at_length_miss pre sigl mid rest Hfar Hmid Hnew).
  rewrite <- (app_nil_r (seq _ _)).
  rewrite scan_skip; [reflexivity|].
  intros k Hk.
  change (pre ++ sigl :: mid ++ rest)
    with (pre ++ [sigl] ++ (mid ++ rest)).
  rewrite app_assoc.
  assert (Hl : List.length (pre ++ [sigl]) = S (List.length pre)).
  { rewrite length_app. cbn [List.length]. lia. }
  replace k with (List.length (pre ++ [sigl]) + (k - S (List.length pre)))%nat
    by lia.
  rewrite app_nth2_plus. rewrite <- (app_nil_r (mid ++ rest)).
  apply none_holds_nth; [exact Hpost|lia].
Qed.

Lemma length_read_out_of_reach_witness :
  FixBoundsV3.find_and_fix_method
    ([] ++ nth 0 late_read_fragment []
     :: firstn 10 (skipn 1 late_read_fragment)
     ++ skipn 11 late_read_fragment)
    ReadString_signature FixBoundsV3.NeedLength
  = Done (FixBoundsV3.NotFound,
      [] ++ nth 0 late_read_fragment []
      :: firstn 10 (skipn 1 late_read_fragment)
      ++ skipn 11 late_read_fragment).
Proof.
  apply (length_read_out_of_reach [] (nth 0 late_read_fragment [])
           (firstn 10 (skipn 1 late_read_fragment))
           (skipn 11 late_read_fragment) ReadString_signature);
    vm_compute; try reflexivity; lia.
Defined.

(** ** The loop of [fix_bounds_v2.py] *)

Section V2Script.
Import FixBoundsV2Script.

Lemma main_loop_unfold lines i :
  main_loop lines i
  = if (i <? List.length lines)%nat
    then match loop_body lines i with
         | IndexError => IndexError
         | Done lines' => main_loop lines' (S i)
         end
    else Done lines.
Proof.
  funelim (main_loop lines i);
    match goal with E : (_ <? _)%nat = _ |- _ => rewrite E end;
    try match goal with E : loop_body _ _ = _ |- _ => rewrite E end;
    reflexivity.
Qed.

Lemma holds_any_false line pattern :
  holds_any line = false -> In pattern patterns ->
  py_in pattern line = false.
Proof.
  intros H Hp. destruct (py_in pattern line) eqn:E; [|reflexivity].
  now rewrite (holds_any_of pattern line Hp E) in H.
Qed.

Lemma loop_body_plain lines i :
  holds_any (nth i lines []) = false -> loop_body lines i = Done lines.
Proof.
  intros H. unfold loop_body, elif_fixed.
  rewrite !(holds_any_false _ _ H) by in_list. reflexivity.
Qed.

Lemma main_loop_skip lines n i :
  (forall k, (i <= k < i + n)%nat -> holds_any (nth k lines []) = false) ->
  (i + n <= List.length lines)%nat ->
  main_loop lines i = main_loop lines (i + n).
Proof.
  revert i. induction n as [|n IH]; intros i H Hn.
  - now rewrite Nat.add_0_r.
  - rewrite main_loop_unfold.
    replace (i <? List.length lines)%nat with true
      by (symmetry; apply Nat.ltb_lt; lia).
    rewrite loop_body_plain by (apply H; lia).
    rewrite (IH (S i)); [f_equal; lia| |lia].
    intros k Hk. apply H. lia.
Qed.

Lemma main_loop_end lines i :
  (List.length lines <= i)%nat -> main_loop lines i = Done lines.
Proof.
  intros H. rewrite main_loop_unfold.
  now replace (i <? List.length lines)%nat with false
    by (symmetry; apply Nat.ltb_ge; lia).
Qed.

Lemma plain_nth lines k :
  plain lines = true -> (k < List.length lines)%nat ->
  holds_any (nth k lines []) = false.
Proof.
  intros H Hk. unfold plain in H. rewrite forallb_forall in H.
  apply negb_true_iff, H, nth_In, Hk.
Qed.

(** One line [x] that may hold a pattern, plain lines around it. *)
Lemma main_loop_single A x B :
  plain A = true ->
  main_loop (A ++ x :: B) 0
  = match loop_body (A ++ x :: B) (List.length A) with
    | IndexError => IndexError
    | Done lines' => main_loop lines' (S (List.length A))
    end.
Proof.
  intros HA.
  rewrite (main_loop_skip _ (List.length A) 0).
  - cbn [Nat.add]. rewrite main_loop_unfold.
    replace (List.length A <? List.length (A ++ x :: B))%nat with true;
      [reflexivity|].
    symmetry. apply Nat.ltb_lt. rewrite length_app. cbn [List.length]. lia.
  - intros k Hk. rewrite app_nth1 by lia. apply plain_nth; [exact HA|lia].
  - rewrite length_app. lia.
Qed.

Lemma main_loop_after A x B :
  plain B = true ->
  main_loop (A ++ x :: B) (S (List.length A)) = Done (A ++ x :: B).
Proof.
  intros HB.
  rewrite (main_loop_skip _ (List.length B) (S (List.length A))).
  - apply main_loop_end. rewrite length_app. cbn [List.length]. lia.
  - intros k Hk.
    change (A ++ x :: B) with (A ++ [x] ++ B). rewrite app_assoc.
    assert (Hl : List.length (A ++ [x]) = S (List.length A))
      by (rewrite length_app; cbn [List.length]; lia).
    replace k with (List.length (A ++ [x]) + (k - S (List.length A)))%nat
      by lia.
    rewrite app_nth2_plus. apply plain_nth; [exact HB|lia].
  - rewrite length_app. cbn [List.length]. lia.
Qed.

(** *** Only insertions *)

Lemma among_refl cs l : inserts_among cs l l.
Proof. induction l; now constructor. Qed.

Lemma among_trans cs l1 l2 l3 :
  inserts_among cs l1 l2 -> inserts_among cs l2 l3 -> inserts_among cs l1 l3.
Proof.
  intros H1 H2. revert l1 H1.
  induction H2 as [|x l2 l3 H2 IH|c l2 l3 Hc H2 IH]; intros l1 H1.
  - exact H1.
  - inversion H1; subst.
    + apply among_keep. now apply IH.
    + apply among_new; [assumption|]. now apply IH.
  - apply among_new; [exact Hc|]. now apply IH.
Qed.

Lemma among_prefix cs pre b b' :
  inserts_among cs b b' -> inserts_among cs (pre ++ b) (pre ++ b').
Proof. intros H. induction pre; [exact H|]. now apply among_keep. Qed.

Lemma among_weaken cs cs' l l' :
  incl cs cs' -> inserts_among cs l l' -> inserts_among cs' l l'.
Proof.
  intros Hi H. induction H; try now constructor.
  apply among_new; [now apply Hi|assumption].
Qed.

Lemma among_of c l l' : inserts_of c l l' -> inserts_among [c] l l'.
Proof.
  intros H. induction H; try now constructor.
  apply among_new; [now left|assumption].
Qed.

Lemma turn_among lines i lines' :
  turn_shape lines i lines' -> inserts_among inserted_lines lines lines'.
Proof.
  intros [->|(_ & k & c1 & c2 & _ & -> & H1 & H2)]; [apply among_refl|].
  rewrite <- (firstn_skipn k lines) at 1. apply among_prefix.
  apply among_new; [exact H1|]. apply among_new; [exact H2|].
  apply among_refl.
Qed.

Lemma main_loop_among lines i :
  match main_loop lines i with
  | Done out => inserts_among inserted_lines lines out
  | IndexError => True
  end.
Proof.
  funelim (main_loop lines i); try exact I; try apply among_refl.
  match goal with
  | E : loop_body ?l ?j = Done ?l', IH : context [main_loop ?l' _] |- _ =>
      destruct (main_loop l' (S j)); [|exact I];
      eapply among_trans;
        [apply (turn_among l j), (loop_body_shape _ _ _ E)|exact IH]
  end.
Qed.

(** *** Where the script starts from *)

Lemma starts_with_prefix p q l :
  starts_with (p ++ q) l = true -> starts_with p l = true.
Proof.
  revert l. induction p as [|a p IH]; intros l H; [now destruct l|].
  destruct l as [|b l]; [discriminate H|]. cbn [app starts_with] in H |- *.
  apply andb_true_iff in H. destruct H as [-> H]. now apply IH.
Qed.

Lemma py_in_prefix p q l : py_in (p ++ q) l = true -> py_in p l = true.
Proof.
  induction l as [|b l IH]; cbn [py_in]; intros H;
    apply orb_true_iff in H; apply orb_true_iff; destruct H as [H|H];
    try discriminate H.
  - left. eapply starts_with_prefix, H.
  - left. eapply starts_with_prefix, H.
  - right. now apply IH.
Qed.

Lemma no_prefix_no_pattern l :
  py_in ReadString_prefix l = false ->
  py_in FixBoundsV2.ReadString_pattern l = false.
Proof.
  intros H. destruct (py_in FixBoundsV2.ReadString_pattern l) eqn:E;
    [|reflexivity].
  change FixBoundsV2.ReadString_pattern
    with (ReadString_prefix
          ++ pystr_of_string "(ReadOnlySpan<byte> data, ref int offset)")
    in E.
  apply py_in_prefix in E. congruence.
Qed.

Lemma plain_no_pattern lines :
  plain lines = true ->
  none_holds FixBoundsV2.ReadString_pattern lines = true.
Proof.
  unfold plain, none_holds. rewrite !forallb_forall. intros H l Hl.
  apply negb_true_iff, no_prefix_no_pattern.
  apply holds_any_false; [|in_list]. apply negb_true_iff, H, Hl.
Qed.

Lemma script_untouched_start lines :
  none_holds FixBoundsV2.ReadString_pattern lines = true ->
  fix_bounds_v2 lines = main_loop lines 0.
Proof.
  intros H. unfold fix_bounds_v2.
  now rewrite add_bounds_check_spec, add_checks_no_pattern.
Qed.

Lemma none_holds_around P A x B :
  none_holds P A = true -> py_in P x = false -> none_holds P B = true ->
  none_holds P (A ++ x :: B) = true.
Proof.
  intros HA Hx HB. rewrite none_holds_app, HA. unfold none_holds in *.
  cbn [forallb andb]. now rewrite Hx, HB.
Qed.

(** *** The fixed-size branches *)

Lemma fixed_entry_lines line c1 c2 :
  fixed_entry line = Some (c1, c2) ->
  In c1 inserted_lines /\ In c2 inserted_lines
  /\ py_in truncated_marker c1 = false.
Proof.
  unfold fixed_entry.
  repeat match goal with
         | |- context [if py_in ?p line then _ else _] =>
             destruct (py_in p line)
         end;
    intros [= <- <-]; (split; [in_list|split; [in_list|reflexivity]]).
Qed.

Lemma loop_body_fixed lines i c1 c2 :
  py_in ReadString_prefix (nth i lines []) = false ->
  py_in ReadBytes_prefix (nth i lines []) = false ->
  fixed_entry (nth i lines []) = Some (c1, c2) ->
  loop_body lines i
  = match nth_error lines (S i) with
    | None => IndexError
    | Some next =>
        if py_in (pystr_of_string "{") next
        then patch_fixed lines i c1 c2
        else loop_body lines i
    end.
Proof.
  intros E1 E2 Hf. unfold fixed_entry in Hf.
  destruct (nth_error lines (S i)) as [next|] eqn:En.
  - destruct (py_in (pystr_of_string "{") next) eqn:Eb; [|reflexivity].
    unfold loop_body, elif_fixed. rewrite E1, E2, En, Eb.
    repeat match type of Hf with
           | (if py_in ?p ?l then _ else _) = _ =>
               destruct (py_in p l)
           end;
      try (injection Hf as <- <-; reflexivity).
    discriminate Hf.
  - unfold loop_body, elif_fixed. rewrite E1, E2, En.
    repeat match type of Hf with
           | (if py_in ?p ?l then _ else _) = _ =>
               destruct (py_in p l)
           end;
      try reflexivity.
    discriminate Hf.
Qed.

Lemma nth_second {A} (pre : list A) x y rest d :
  nth (S (List.length pre)) (pre ++ x :: y :: rest) d = y.
Proof.
  replace (S (List.length pre)) with (List.length pre + 1)%nat by lia.
  now rewrite app_nth2_plus.
Qed.

Lemma nth_third {A} (pre : list A) x y z rest d :
  nth (S (S (List.length pre))) (pre ++ x :: y :: z :: rest) d = z.
Proof.
  replace (S (S (List.length pre))) with (List.length pre + 2)%nat by lia.
  now rewrite app_nth2_plus.
Qed.

Lemma nth_error_third {A} (pre : list A) x y z rest :
  nth_error (pre ++ x :: y :: z :: rest) (S (S (List.length pre))) = Some z.
Proof.
  rewrite nth_error_app2 by lia.
  now replace (S (S (List.length pre)) - List.length pre)%nat
    with 2%nat by lia.
Qed.

Lemma plain_cons x l : plain (x :: l) = negb (holds_any x) && plain l.
Proof. reflexivity. Qed.

Lemma plain_inserted c : In c inserted_lines -> holds_any c = false.
Proof.
  intros H. pose proof (inserted_lines_plain c H) as Hw.
  unfold line_weight in Hw. destruct (holds_any c); [discriminate|reflexivity].
Qed.

Lemma main_loop_fixed pre sigl brace x rest c1 c2 :
  plain pre = true ->
  py_in ReadString_prefix sigl = false ->
  py_in ReadBytes_prefix sigl = false ->
  fixed_entry sigl = Some (c1, c2) ->
  py_in (pystr_of_string "{") brace = true ->
  plain (brace :: x :: rest) = true ->
  main_loop (pre ++ sigl :: brace :: x :: rest) 0
  = Done (if py_in truncated_marker x
          then pre ++ sigl :: brace :: x :: rest
          else pre ++ sigl :: brace :: c1 :: c2 :: x :: rest).
Proof.
  intros Hpre E1 E2 Hf Hb Hrest.
  destruct (fixed_entry_lines _ _ _ Hf) as (I1 & I2 & _).
  rewrite (main_loop_single _ _ _ Hpre).
  rewrite (loop_body_fixed _ _ c1 c2)
    by (rewrite nth_middle; assumption).
  rewrite nth_error_second, Hb. unfold patch_fixed.
  rewrite nth_error_third.
  destruct (py_in truncated_marker x); cbn [negb].
  - now apply main_loop_after.
  - rewrite insert_two
      by (rewrite length_app; cbn [List.length]; lia).
    destruct (skipn_second pre sigl brace (x :: rest)) as (_ & -> & _ & ->).
    rewrite <- app_assoc. cbn [app]. apply main_loop_after.
    rewrite !plain_cons in Hrest. rewrite !plain_cons.
    rewrite (plain_inserted c1 I1), (plain_inserted c2 I2).
    apply andb_true_iff in Hrest. destruct Hrest as [-> Hrest].
    exact Hrest.
Qed.

Lemma script_fixed pre sigl brace x rest c1 c2 :
  plain pre = true ->
  py_in ReadString_prefix sigl = false ->
  py_in ReadBytes_prefix sigl = false ->
  fixed_entry sigl = Some (c1, c2) ->
  py_in (pystr_of_string "{") brace = true ->
  plain (brace :: x :: rest) = true ->
  fix_bounds_v2 (pre ++ sigl :: brace :: x :: rest)
  = Done (if py_in truncated_marker x
          then pre ++ sigl :: brace :: x :: rest
          else pre ++ sigl :: brace :: c1 :: c2 :: x :: rest).
Proof.
  intros Hpre E1 E2 Hf Hb Hrest.
  rewrite script_untouched_start; [now apply main_loop_fixed|].
  apply none_holds_around;
    [now apply plain_no_pattern|now apply no_prefix_no_pattern
    |now apply plain_no_pattern].
Qed.

Lemma script_fixed_last pre sigl c1 c2 :
  plain pre = true ->
  py_in ReadString_prefix sigl = false ->
  py_in ReadBytes_prefix sigl = false ->
  fixed_entry sigl = Some (c1, c2) ->
  fix_bounds_v2 (pre ++ [sigl]) = IndexError.
Proof.
  intros Hpre E1 E2 Hf.
  rewrite script_untouched_start
    by (apply none_holds_around;
        [now apply plain_no_pattern|now apply no_prefix_no_pattern
        |reflexivity]).
  rewrite (main_loop_single _ _ _ Hpre).
  rewrite (loop_body_fixed _ _ c1 c2)
    by (rewrite nth_middle; assumption).
  assert (En : nth_error (pre ++ [sigl]) (S (List.length pre)) = None).
  { apply nth_error_None. rewrite length_app. cbn [List.length]. lia. }
  now rewrite En.
Qed.

Lemma script_fixed_last_but_one pre sigl brace c1 c2 :
  plain pre = true ->
  py_in ReadString_prefix sigl = false ->
  py_in ReadBytes_prefix sigl = false ->
  fixed_entry sigl = Some (c1, c2) ->
  py_in (pystr_of_string "{") brace = true ->
  py_in ReadString_prefix brace = false ->
  fix_bounds_v2 (pre ++ [sigl; brace]) = IndexError.
Proof.
  intros Hpre E1 E2 Hf Hb Hs.
  rewrite script_untouched_start.
  2: { apply none_holds_around;
         [now apply plain_no_pattern|now apply no_prefix_no_pattern|].
       unfold none_holds. cbn [forallb].
       now rewrite (no_prefix_no_pattern _ Hs). }
  rewrite (main_loop_single _ _ _ Hpre).
  rewrite (loop_body_fixed _ _ c1 c2)
    by (rewrite nth_middle; assumption).
  rewrite nth_error_second, Hb. unfold patch_fixed.
  assert (En : nth_error (pre ++ [sigl; brace]) (S (S (List.length pre)))
               = None).
  { apply nth_error_None. rewrite length_app. cbn [List.length]. lia. }
  now rewrite En.
Qed.

(** *** [ReadString]: the call of [add_bounds_check], then the loop *)

Lemma add_checks_at pat chk A sigl B :
  none_holds pat A = true -> py_in pat sigl = true ->
  none_holds pat B = true ->
  add_checks pat chk (A ++ sigl :: B)
  = A ++ sigl :: (if marker_follows B then B else chk :: B).
Proof.
  intros HA Hs HB. induction A as [|a A IH]; cbn [app add_checks].
  - rewrite Hs, (add_checks_no_pattern _ _ _ HB).
    now destruct (marker_follows B).
  - unfold none_holds in HA. cbn [forallb] in HA.
    apply andb_true_iff in HA. destruct HA as [Ha HA].
    apply negb_true_iff in Ha. rewrite Ha. cbn [andb].
    now rewrite (IH HA).
Qed.

Lemma main_loop_string A sigl y B :
  plain A = true ->
  py_in ReadString_prefix sigl = true ->
  py_in truncated_marker y = false ->
  plain (y :: B) = true ->
  main_loop (A ++ sigl :: FixBoundsV2.ReadString_check_code :: y :: B) 0
  = Done (A ++ sigl :: FixBoundsV2.ReadString_check_code
            :: length_if_line :: ReadString_throw :: y :: B).
Proof.
  intros HA Hs Hy HB.
  rewrite (main_loop_single _ _ _ HA). unfold loop_body.
  rewrite nth_middle, Hs. unfold patch_length_read.
  assert (Hlen : List.length
                   (A ++ sigl :: FixBoundsV2.ReadString_check_code :: y :: B)
                 = (List.length A + 3 + List.length B)%nat).
  { rewrite length_app. cbn [List.length]. lia. }
  assert (Ef : find_length_read
                 (A ++ sigl :: FixBoundsV2.ReadString_check_code :: y :: B)
                 (List.length A)
               = Some (S (List.length A))).
  { unfold find_length_read. rewrite Hlen.
    remember (Nat.min (List.length A + 3 + List.length B)
                (List.length A + 10) - S (List.length A))%nat as m eqn:Em.
    destruct m as [|m]; [lia|]. cbn [seq List.find].
    rewrite nth_second.
    assert (Hc : py_in var_length_read FixBoundsV2.ReadString_check_code
                 = true) by (vm_compute; reflexivity).
    now rewrite Hc. }
  rewrite Ef, nth_third, Hy, Hlen. cbn [negb]. rewrite andb_true_r.
  replace (S (S (List.length A))
           <? List.length A + 3 + List.length B)%nat with true
    by (symmetry; apply Nat.ltb_lt; lia).
  rewrite insert_two by lia.
  destruct (skipn_second A sigl FixBoundsV2.ReadString_check_code (y :: B))
    as (_ & -> & _ & ->).
  rewrite <- app_assoc. cbn [app]. apply main_loop_after.
  assert (Hk : holds_any FixBoundsV2.ReadString_check_code = false)
    by (vm_compute; reflexivity).
  rewrite !plain_cons. rewrite !plain_cons in HB.
  rewrite Hk, (plain_inserted length_if_line),
    (plain_inserted ReadString_throw) by in_list.
  exact HB.
Qed.

End V2Script.

(** Whatever [fix_bounds_v2.py] writes back is what it read with lines
    inserted: the check code of its call of [add_bounds_check] and the
    eleven lines of its loop; no line of the file is lost, changed or
    moved. *)
Theorem v2_script_only_inserts (lines out : list pystr)
    (Hrun : FixBoundsV2Script.fix_bounds_v2 lines = Done out) :
  inserts_among
    (FixBoundsV2.ReadString_check_code :: FixBoundsV2Script.inserted_lines)
    lines out.
Proof.
  unfold FixBoundsV2Script.fix_bounds_v2 in Hrun.
  pose proof (main_loop_among
                (FixBoundsV2.add_bounds_check lines
                   FixBoundsV2.ReadString_pattern
                   FixBoundsV2.ReadString_check_code) 0) as H.
  rewrite Hrun in H.
  apply among_trans
    with (l2 := FixBoundsV2.add_bounds_check lines
                  FixBoundsV2.ReadString_pattern
                  FixBoundsV2.ReadString_check_code).
  - apply among_weaken with (cs := [FixBoundsV2.ReadString_check_code]).
    + intros c [<-|[]]. now left.
    + rewrite add_bounds_check_spec. apply among_of, add_checks_inserts.
  - apply among_weaken with (cs := FixBoundsV2Script.inserted_lines);
      [|exact H].
    intros c Hc. now right.
Qed.

Lemma v2_script_only_inserts_witness :
  exists out,
    FixBoundsV2Script.fix_bounds_v2 unpatched_fragment = Done out
    /\ inserts_among
         (FixBoundsV2.ReadString_check_code
            :: FixBoundsV2Script.inserted_lines)
         unpatched_fragment out.
Proof.
  eexists. split; [vm_compute; reflexivity|].
  apply (v2_script_only_inserts unpatched_fragment).
  vm_compute. reflexivity.
Defined.

(** The loop reads [lines[i + 1]] and [lines[i + 2]] without a test of the
    length: when the last line holds the pattern of a fixed-size branch,
    or the last but one does and the last line holds a brace, the script
    stops on an IndexError (the lines before hold no pattern). *)
Theorem v2_script_index_error
    (pre : list pystr) (sigl brace c1 c2 : pystr)
    (Hpre : plain pre = true)
    (HnotS : py_in FixBoundsV2Script.ReadString_prefix sigl = false)
    (HnotB : py_in FixBoundsV2Script.ReadBytes_prefix sigl = false)
    (Hfixed : fixed_entry sigl = Some (c1, c2))
    (Hbrace : py_in (pystr_of_string "{") brace = true)
    (Hplain : py_in FixBoundsV2Script.ReadString_prefix brace = false) :
  FixBoundsV2Script.fix_bounds_v2 (pre ++ [sigl]) = IndexError
  /\ FixBoundsV2Script.fix_bounds_v2 (pre ++ [sigl; brace]) = IndexError.
Proof.
  split.
  - now apply (script_fixed_last pre sigl c1 c2).
  - now apply (script_fixed_last_but_one pre sigl brace c1 c2).
Qed.

Lemma v2_script_index_error_witness :
  FixBoundsV2Script.fix_bounds_v2
    ([] ++ [nth 0 unpatched_guid_fragment []]) = IndexError
  /\ FixBoundsV2Script.fix_bounds_v2
       ([] ++ [nth 0 unpatched_guid_fragment [];
               nth 1 unpatched_guid_fragment []]) = IndexError.
Proof.
  apply (v2_script_index_error [] (nth 0 unpatched_guid_fragment [])
           (nth 1 unpatched_guid_fragment [])
           FixBoundsV2Script.ReadGuid_if FixBoundsV2Script.ReadGuid_throw);
    vm_compute; reflexivity.
Defined.

(** A fixed-size method in [fix_bounds_v2.py]: the signature line [sigl]
    holds the pattern of a fixed-size branch, the next line a brace, and no
    other line holds a pattern.  If the line after the brace holds
    'truncated at offset' the file is left as it is; else the two lines of
    the branch are put right after the brace. *)
Theorem v2_fixed_patch
    (pre : list pystr) (sigl brace x : pystr) (rest : list pystr)
    (c1 c2 : pystr)
    (Hpre : plain pre = true)
    (HnotS : py_in FixBoundsV2Script.ReadString_prefix sigl = false)
    (HnotB : py_in FixBoundsV2Script.ReadBytes_prefix sigl = false)
    (Hfixed : fixed_entry sigl = Some (c1, c2))
    (Hbrace : py_in (pystr_of_string "{") brace = true)
    (Hrest : plain (brace :: x :: rest) = true) :
  FixBoundsV2Script.fix_bounds_v2 (pre ++ sigl :: brace :: x :: rest)
  = Done (if py_in truncated_marker x
          then pre ++ sigl :: brace :: x :: rest
          else pre ++ sigl :: brace :: c1 :: c2 :: x :: rest).
Proof.
  (* no line holds the full [ReadString] signature: [add_bounds_check]
     leaves the list alone *)
  rewrite script_untouched_start.
  - now apply main_loop_fixed.
  - apply none_holds_around;
      [now apply plain_no_pattern|now apply no_prefix_no_pattern
      |now apply plain_no_pattern].
Qed.

Lemma v2_fixed_patch_witness :
  FixBoundsV2Script.fix_bounds_v2
    ([] ++ nth 0 unpatched_guid_fragment []
        :: nth 1 unpatched_guid_fragment []
        :: nth 2 unpatched_guid_fragment []
        :: skipn 3 unpatched_guid_fragment)
  = Done (if py_in truncated_marker (nth 2 unpatched_guid_fragment [])
          then [] ++ nth 0 unpatched_guid_fragment []
                 :: nth 1 unpatched_guid_fragment []
                 :: nth 2 unpatched_guid_fragment []
                 :: skipn 3 unpatched_guid_fragment
          else [] ++ nth 0 unpatched_guid_fragment []
                 :: nth 1 unpatched_guid_fragment []
                 :: FixBoundsV2Script.ReadGuid_if
                 :: FixBoundsV2Script.ReadGuid_throw
                 :: nth 2 unpatched_guid_fragment []
                 :: skipn 3 unpatched_guid_fragment).
Proof.
  apply (v2_fixed_patch [] (nth 0 unpatched_guid_fragment [])
           (nth 1 unpatched_guid_fragment [])
           (nth 2 unpatched_guid_fragment [])
           (skipn 3 unpatched_guid_fragment)
           FixBoundsV2Script.ReadGuid_if FixBoundsV2Script.ReadGuid_throw);
    vm_compute; reflexivity.
Defined.

(** The loop does not recognise its own fixed-size patch: it looks for
    'truncated at offset' in the line after the brace, which is then the
    [if] line and not the [throw] line.  On a file where the two lines are
    already behind the brace, the script inserts them once more. *)
Theorem v2_fixed_patch_repeats
    (pre : list pystr) (sigl brace x : pystr) (rest : list pystr)
    (c1 c2 : pystr)
    (Hpre : plain pre = true)
    (HnotS : py_in FixBoundsV2Script.ReadString_prefix sigl = false)
    (HnotB : py_in FixBoundsV2Script.ReadBytes_prefix sigl = false)
    (Hfixed : fixed_entry sigl = Some (c1, c2))
    (Hbrace : py_in (pystr_of_string "{") brace = true)
    (Hrest : plain (brace :: x :: rest) = true) :
  FixBoundsV2Script.fix_bounds_v2
    (pre ++ sigl :: brace :: c1 :: c2 :: x :: rest)
  = Done (pre ++ sigl :: brace :: c1 :: c2 :: c1 :: c2 :: x :: rest).
Proof.
  destruct (fixed_entry_lines _ _ _ Hfixed) as (I1 & I2 & Hm).
  rewrite (script_fixed pre sigl brace c1 (c2 :: x :: rest) c1 c2);
    try assumption.
  - now rewrite Hm.
  - rewrite !plain_cons. rewrite !plain_cons in Hrest.
    rewrite (plain_inserted c1 I1), (plain_inserted c2 I2).
    apply andb_true_iff in Hrest. destruct Hrest as [-> Hrest].
    exact Hrest.
Qed.

Lemma v2_fixed_patch_repeats_witness :
  FixBoundsV2Script.fix_bounds_v2
    ([] ++ nth 0 unpatched_guid_fragment []
        :: nth 1 unpatched_guid_fragment []
        :: FixBoundsV2Script.ReadGuid_if
        :: FixBoundsV2Script.ReadGuid_throw
        :: nth 2 unpatched_guid_fragment []
        :: skipn 3 unpatched_guid_fragment)
  = Done ([] ++ nth 0 unpatched_guid_fragment []
             :: nth 1 unpatched_guid_fragment []
             :: FixBoundsV2Script.ReadGuid_if
             :: FixBoundsV2Script.ReadGuid_throw
             :: FixBoundsV2Script.ReadGuid_if
             :: FixBoundsV2Script.ReadGuid_throw
             :: nth 2 unpatched_guid_fragment []
             :: skipn 3 unpatched_guid_fragment).
Proof.
  apply (v2_fixed_patch_repeats [] (nth 0 unpatched_guid_fragment [])
           (nth 1 unpatched_guid_fragment [])
           (nth 2 unpatched_guid_fragment [])
           (skipn 3 unpatched_guid_fragment)
           FixBoundsV2Script.ReadGuid_if FixBoundsV2Script.ReadGuid_throw);
    vm_compute; reflexivity.
Defined.

(** [ReadString] in [fix_bounds_v2.py], the call of [add_bounds_check] and
    the loop together.  On a file where the line [sigl] holds the full
    signature, the line after it does not hold 'truncated at offset', and
    no other line holds a pattern, the script puts behind [sigl] the check
    code (a brace, a length read, the test and the throw) and then, since
    the loop finds the length read inside the check code, the test and the
    throw a second time; the method's own lines come after them. *)
Theorem v2_script_on_ReadString
    (pre : list pystr) (sigl next : pystr) (rest : list pystr)
    (Hpre : plain pre = true)
    (Hsig : py_in FixBoundsV2.ReadString_pattern sigl = true)
    (Hnew : py_in truncated_marker next = false)
    (Hrest : plain (next :: rest) = true) :
  FixBoundsV2Script.fix_bounds_v2 (pre ++ sigl :: next :: rest)
  = Done (pre ++ sigl :: FixBoundsV2.ReadString_check_code
            :: FixBoundsV2Script.length_if_line
            :: FixBoundsV2Script.ReadString_throw :: next :: rest).
Proof.
  unfold FixBoundsV2Script.fix_bounds_v2.
  rewrite add_bounds_check_spec, add_checks_at;
    [|now apply plain_no_pattern|exact Hsig|now apply plain_no_pattern].
  cbn [marker_follows]. rewrite Hnew.
  apply main_loop_string; try assumption.
  change FixBoundsV2.ReadString_pattern
    with (FixBoundsV2Script.ReadString_prefix
          ++ pystr_of_string "(ReadOnlySpan<byte> data, ref int offset)")
    in Hsig.
  now apply py_in_prefix in Hsig.
Qed.

Lemma v2_script_on_ReadString_witness :
  FixBoundsV2Script.fix_bounds_v2
    (firstn 1 unpatched_fragment
     ++ nth 1 unpatched_fragment [] :: nth 2 unpatched_fragment []
     :: skipn 3 unpatched_fragment)
  = Done (firstn 1 unpatched_fragment
          ++ nth 1 unpatched_fragment []
          :: FixBoundsV2.ReadString_check_code
          :: FixBoundsV2Script.length_if_line
          :: FixBoundsV2Script.ReadString_throw
          :: nth 2 unpatched_fragment [] :: skipn 3 unpatched_fragment).
Proof.
  apply (v2_script_on_ReadString (firstn 1 unpatched_fragment)
           (nth 1 unpatched_fragment []) (nth 2 unpatched_fragment [])
           (skipn 3 unpatched_fragment));
    vm_compute; reflexivity.
Defined.


